(** * Apple gift-card checker: a shallow embedding of [apple_gift_card_checker.js]

    The development follows the class [AppleGiftCardChecker]:
    - JavaScript strings are sequences of UTF-16 code units;
    - the regular expressions of the classifier are values of a small
      syntax tree, run by a backtracking matcher that follows the
      priority order of ECMAScript (leftmost start, greedy or lazy
      quantifiers, alternatives left to right);
    - the browser (puppeteer) is an interface of state-passing operations
      that may throw; the methods of the class are written in a state and
      exception monad over it. *)

From Stdlib Require Import List ZArith NArith String Ascii Bool Lia.
Import ListNotations.

Set Implicit Arguments.

(** ** JavaScript strings *)

Module JsString.

Local Open Scope N_scope.

(** A string is the list of its UTF-16 code units. *)
Definition jsstring := list N.

(** Decoder of the UTF-8 bytes of a Rocq string literal into code points,
    so that the literals of the source can be written as they are. *)
Fixpoint utf8_decode (bs : list N) : list N :=
  match bs with
  | [] => []
  | b0 :: r0 =>
      if b0 <? 128 then b0 :: utf8_decode r0
      else
        match r0 with
        | [] => []
        | b1 :: r1 =>
            if b0 <? 224 then ((b0 - 192) * 64 + (b1 - 128)) :: utf8_decode r1
            else
              match r1 with
              | [] => []
              | b2 :: r2 =>
                  if b0 <? 240
                  then ((b0 - 224) * 4096 + (b1 - 128) * 64 + (b2 - 128))
                         :: utf8_decode r2
                  else
                    match r2 with
                    | [] => []
                    | b3 :: r3 =>
                        ((b0 - 240) * 262144 + (b1 - 128) * 4096
                         + (b2 - 128) * 64 + (b3 - 128)) :: utf8_decode r3
                    end
              end
        end
  end.

(** A code point above the basic plane is a surrogate pair. *)
Definition utf16_units (cp : N) : list N :=
  if cp <? 65536 then [cp]
  else [55296 + (cp - 65536) / 1024; 56320 + (cp - 65536) mod 1024].

Definition js (s : string) : jsstring :=
  flat_map utf16_units
    (utf8_decode (map N_of_ascii (list_ascii_of_string s))).

Arguments js s%_string.

(** [s.length] *)
Definition jslength (s : jsstring) : Z := Z.of_nat (List.length s).

(** [s.substring(a, b)] and [s.substring(a)], for [0 <= a <= b]; negative
    arguments are clamped to [0] as in the language. *)
Definition substring (s : jsstring) (a b : Z) : jsstring :=
  firstn (Z.to_nat b - Z.to_nat a) (skipn (Z.to_nat a) s).

Definition substring_from (s : jsstring) (a : Z) : jsstring :=
  skipn (Z.to_nat a) s.

(** [s.charAt(0)] is the empty string on the empty string. *)
Definition charAt0 (s : jsstring) : jsstring := firstn 1 s.

Fixpoint eqb (s t : jsstring) : bool :=
  match s, t with
  | [], [] => true
  | c :: s', d :: t' => (c =? d) && eqb s' t'
  | _, _ => false
  end.

End JsString.
Export JsString.

(** ** Regular expressions *)

Module Regex.

Local Open Scope N_scope.

(** What one pattern character accepts: a literal, [\d], [\s], [.] or a
    bracket class of literals. *)
Inductive atom : Type :=
| Lit (c : N)
| Digit
| Space
| Dot
| OneOf (cs : list N).

(** The quantifiers of the source: none, [?], [*], [+] and the lazy [*?].
    In every pattern of the source a quantifier applies to one atom. *)
Inductive quant : Type := One | Opt | Star | Plus | StarLazy.

Inductive regex : Type :=
| Eps
| Atom (a : atom) (q : quant)
| Seq (r1 r2 : regex)
| Alt (r1 r2 : regex)
| Group (r : regex).

(** A pattern with its [i] flag. *)
Record pattern : Type := Pattern { re : regex; ignoreCase : bool }.

Definition isDigit (c : N) : bool := (48 <=? c) && (c <=? 57).

Definition isLineTerminator (c : N) : bool :=
  (c =? 10) || (c =? 13) || (c =? 8232) || (c =? 8233).

Definition isWhiteSpace (c : N) : bool :=
  ((9 <=? c) && (c <=? 13)) || (c =? 32) || (c =? 160) || (c =? 5760)
  || ((8192 <=? c) && (c <=? 8202)) || (c =? 8232) || (c =? 8233)
  || (c =? 8239) || (c =? 8287) || (c =? 12288) || (c =? 65279).

(** Case folding of the [i] flag.  The patterns of the source hold ASCII
    letters and caseless characters only; against these the canonical
    form of the language and the ASCII fold accept the same code units. *)
Definition canonicalize (c : N) : N :=
  if (97 <=? c) && (c <=? 122) then c - 32 else c.

Definition char_eq (ic : bool) (p c : N) : bool :=
  if ic then canonicalize p =? canonicalize c else p =? c.

Definition atom_ok (ic : bool) (a : atom) (c : N) : bool :=
  match a with
  | Lit p => char_eq ic p c
  | Digit => isDigit c
  | Space => isWhiteSpace c
  | Dot => negb (isLineTerminator c)
  | OneOf cs => existsb (fun p => char_eq ic p c) cs
  end.

(** The ways a quantified atom consumes a prefix of [s], in the order the
    backtracking matcher tries them: each is (consumed, remaining). *)
Definition split := (jsstring * jsstring)%type.

Definition push (c : N) (x : split) : split := (c :: fst x, snd x).

Fixpoint star_greedy (ok : N -> bool) (s : jsstring) : list split :=
  match s with
  | [] => [([], [])]
  | c :: t =>
      if ok c then map (push c) (star_greedy ok t) ++ [([], s)]
      else [([], s)]
  end.

Fixpoint star_lazy (ok : N -> bool) (s : jsstring) : list split :=
  match s with
  | [] => [([], [])]
  | c :: t =>
      if ok c then ([], s) :: map (push c) (star_lazy ok t)
      else [([], s)]
  end.

Definition quantified (ok : N -> bool) (q : quant) (s : jsstring)
  : list split :=
  match q with
  | One =>
      match s with
      | c :: t => if ok c then [([c], t)] else []
      | [] => []
      end
  | Opt =>
      match s with
      | c :: t => if ok c then [([c], t); ([], s)] else [([], s)]
      | [] => [([], [])]
      end
  | Star => star_greedy ok s
  | Plus =>
      match s with
      | c :: t => if ok c then map (push c) (star_greedy ok t) else []
      | [] => []
      end
  | StarLazy => star_lazy ok s
  end.

(** A match at the start of [s]: the text consumed, the text of capture
    group 1 when a group took part, and what remains. *)
Record mstate : Type :=
  MState { consumed : jsstring; group1 : option jsstring; remaining : jsstring }.

Definition then_ (m1 m2 : mstate) : mstate :=
  MState (consumed m1 ++ consumed m2)
         (match group1 m2 with Some g => Some g | None => group1 m1 end)
         (remaining m2).

(** All matches of [r] at the start of [s], first choice first. *)
Fixpoint matches (ic : bool) (r : regex) (s : jsstring) : list mstate :=
  match r with
  | Eps => [MState [] None s]
  | Atom a q =>
      map (fun x => MState (fst x) None (snd x))
          (quantified (atom_ok ic a) q s)
  | Seq r1 r2 =>
      flat_map (fun m1 => map (then_ m1) (matches ic r2 (remaining m1)))
               (matches ic r1 s)
  | Alt r1 r2 => matches ic r1 s ++ matches ic r2 s
  | Group r1 =>
      map (fun m => MState (consumed m) (Some (consumed m)) (remaining m))
          (matches ic r1 s)
  end.

(** The result of [RegExp.prototype.exec] without the [g] flag: element 0
    (the whole match) and element 1 (group 1, [None] for [undefined]). *)
Record jsmatch : Type := JsMatch { m0 : jsstring; m1 : option jsstring }.

(** Leftmost match: every start position in turn, the end of the string
    included. *)
Fixpoint exec_re (ic : bool) (r : regex) (s : jsstring) : option jsmatch :=
  match matches ic r s with
  | m :: _ => Some (JsMatch (consumed m) (group1 m))
  | [] =>
      match s with
      | [] => None
      | _ :: t => exec_re ic r t
      end
  end.

(** [s.match(p)] and [p.test(s)]. *)
Definition match_ (s : jsstring) (p : pattern) : option jsmatch :=
  exec_re (ignoreCase p) (re p) s.

Definition test (p : pattern) (s : jsstring) : bool :=
  match match_ s p with Some _ => true | None => false end.

(** Pattern syntax. *)
Definition lit (c : N) : regex := Atom (Lit c) One.

Fixpoint word_of (s : jsstring) : regex :=
  match s with
  | [] => Eps
  | [c] => lit c
  | c :: t => Seq (lit c) (word_of t)
  end.

Definition word (s : string) : regex := word_of (js s).

Arguments word s%_string.

Definition any_star : regex := Atom Dot Star.
Definition any_lazy : regex := Atom Dot StarLazy.
Definition spaces : regex := Atom Space Star.

(** The capture group of every amount pattern: digits, an optional dot,
    digits. *)
Definition number_group : regex :=
  Group (Seq (Atom Digit Plus) (Seq (Atom (Lit 46) Opt) (Atom Digit Star))).

(** A sequence and an alternation of several parts. *)
Fixpoint seqs (rs : list regex) : regex :=
  match rs with
  | [] => Eps
  | [r] => r
  | r :: t => Seq r (seqs t)
  end.

Fixpoint alts (rs : list regex) : regex :=
  match rs with
  | [] => Eps
  | [r] => r
  | r :: t => Alt r (alts t)
  end.

End Regex.
Export Regex.

Open Scope Z_scope.

(** ** The checker: configuration, records and the pure methods *)

(** The options object given to the constructor; a missing property is
    [None]. *)
Record Options : Type := {
  opt_headless : option bool;
  opt_delayBetweenCards : option Z;
  opt_retryAttempts : option Z;
  opt_timeout : option Z;
  opt_region : option jsstring;
  opt_screenshotOnError : option bool
}.

Record Config : Type := {
  headless : bool;
  delayBetweenCards : Z;
  retryAttempts : Z;
  timeout : Z;
  region : jsstring;
  screenshotOnError : bool
}.

(** [x || d] on a number: [0] and a missing value give the default. *)
Definition or_number (x : option Z) (d : Z) : Z :=
  match x with
  | Some n => if n =? 0 then d else n
  | None => d
  end.

(** [x || d] on a string: the empty string and a missing value give the
    default. *)
Definition or_string (x : option jsstring) (d : jsstring) : jsstring :=
  match x with
  | Some [] => d
  | Some s => s
  | None => d
  end.

(** [x !== false] *)
Definition not_false (x : option bool) : bool :=
  match x with
  | Some false => false
  | _ => true
  end.

(** The configuration the constructor builds. *)
Definition constructor_config (o : Options) : Config := {|
  headless := not_false (opt_headless o);
  delayBetweenCards := or_number (opt_delayBetweenCards o) 3000;
  retryAttempts := or_number (opt_retryAttempts o) 3;
  timeout := or_number (opt_timeout o) 30000;
  region := or_string (opt_region o) (js "cn");
  screenshotOnError := not_false (opt_screenshotOnError o)
|}.

(** The record of a balance lookup; [None] is [null]. *)
Record BalanceRecord : Type := {
  code : jsstring;
  status : jsstring;
  balance : option jsstring;
  currency : option jsstring;
  message : option jsstring;
  timestamp : jsstring
}.

(** The record of a redemption. *)
Record RedeemRecord : Type := {
  r_code : jsstring;
  r_status : jsstring;
  r_message : option jsstring;
  r_timestamp : jsstring
}.

(** [maskCode]: [!code] holds of the empty string. *)
Definition maskCode (code : jsstring) : jsstring :=
  if match code with [] => true | _ => false end || (jslength code <? 8)
  then js "****-****"
  else substring code 0 4 ++ js "-****-****-"
         ++ substring_from code (jslength code - 4).

(** *** [parseBalanceResult] *)

(** The list [errorPatterns] of [parseBalanceResult]. *)
Definition errorPatterns : list pattern := [
  Pattern (alts [word "无效"; word "invalid"; word "incorrect"]) true;
  Pattern (alts [word "不存在"; word "not found"]) true;
  Pattern (alts [seqs [word "已"; any_star; word "兑换"];
                 seqs [word "already"; any_star; word "redeemed"]]) true;
  Pattern (alts [word "过期"; word "expired"]) true;
  Pattern (alts [word "错误"; word "error"]) true
].

(** The pattern tested again inside the loop. *)
Definition alreadyRedeemedPattern : pattern :=
  Pattern (alts [seqs [word "已"; any_star; word "兑换"];
                 seqs [word "already"; any_star; word "redeemed"]]) true.

Definition cnBalancePatterns : list pattern := [
  Pattern (seqs [word "¥"; spaces; number_group]) false;
  Pattern (seqs [number_group; spaces; word "元"]) false;
  Pattern (seqs [word "余额"; any_lazy; number_group]) false;
  Pattern (seqs [word "balance"; any_lazy; number_group]) true
].

Definition usBalancePatterns : list pattern := [
  Pattern (seqs [word "$"; spaces; number_group]) false;
  Pattern (seqs [word "USD"; spaces; number_group]) true;
  Pattern (seqs [number_group; spaces; word "USD"]) true
].

(** The pattern of the scan of the markup: a dollar or yen sign, spaces,
    a number. *)
Definition htmlPattern : pattern :=
  Pattern (seqs [Atom (OneOf (js "$¥")) One; spaces; number_group]) false.

(** Interpolation of a captured group in a template: [undefined] prints
    as its name. *)
Definition interpolate (g : option jsstring) : jsstring :=
  match g with
  | Some s => s
  | None => js "undefined"
  end.

(** The loop over [errorPatterns]: [Some] is the [return] inside it. *)
Fixpoint errorLoop (pats : list pattern) (pageText : jsstring)
    (result : BalanceRecord) : option BalanceRecord :=
  match pats with
  | [] => None
  | pattern :: rest =>
      if test pattern pageText then
        if test alreadyRedeemedPattern pageText then
          Some {| code := code result;
                  status := js "已兑换";
                  balance := balance result;
                  currency := currency result;
                  message := Some (js "此礼品卡已被兑换");
                  timestamp := timestamp result |}
        else
          Some {| code := code result;
                  status := js "无效";
                  balance := balance result;
                  currency := currency result;
                  message := Some (js "卡号无效或有误");
                  timestamp := timestamp result |}
      else errorLoop rest pageText result
  end.

(** The two loops over the amount patterns; [symbol] is the currency the
    loop writes. *)
Fixpoint balanceLoop (pats : list pattern) (symbol : jsstring)
    (pageText : jsstring) (result : BalanceRecord) : option BalanceRecord :=
  match pats with
  | [] => None
  | pattern :: rest =>
      match match_ pageText pattern with
      | Some m =>
          Some {| code := code result;
                  status := js "有效";
                  balance := m1 m;
                  currency := Some symbol;
                  message := Some (js "余额: " ++ symbol ++ interpolate (m1 m));
                  timestamp := timestamp result |}
      | None => balanceLoop rest symbol pageText result
      end
  end.

(** [parseBalanceResult(pageText, pageHTML, code)]; [now] is the value of
    [new Date().toISOString()] at the call. *)
Definition parseBalanceResult (now : jsstring)
    (pageText pageHTML code_ : jsstring) : BalanceRecord :=
  let result := {| code := maskCode code_;
                   status := js "未知";
                   balance := None;
                   currency := None;
                   message := None;
                   timestamp := now |} in
  match errorLoop errorPatterns pageText result with
  | Some r => r
  | None =>
  match balanceLoop cnBalancePatterns (js "¥") pageText result with
  | Some r => r
  | None =>
  match balanceLoop usBalancePatterns (js "$") pageText result with
  | Some r => r
  | None =>
  match match_ pageHTML htmlPattern with
  | Some htmlMatch =>
      {| code := code result;
         status := js "有效";
         balance := m1 htmlMatch;
         currency := Some (charAt0 (m0 htmlMatch));
         message := Some (js "余额: " ++ m0 htmlMatch);
         timestamp := timestamp result |}
  | None =>
      {| code := code result;
         status := js "未知";
         balance := balance result;
         currency := currency result;
         message := Some (js "无法解析查询结果");
         timestamp := timestamp result |}
  end end end end.

(** *** [parseRedemptionResult] *)

Definition successPatterns : list pattern := [
  Pattern (alts [word "success"; word "redeemed";
                 seqs [word "added"; any_star; word "account"];
                 word "credited"]) true;
  Pattern (alts [seqs [word "已"; any_star; word "兑换"]; word "成功"]) true
].

(** The list [errorPatterns] of [parseRedemptionResult]: a pattern and its
    message. *)
Definition redemptionErrorPatterns : list (pattern * jsstring) := [
  (Pattern (alts [seqs [word "already"; any_star; word "used"];
                  seqs [word "already"; any_star; word "redeemed"];
                  seqs [word "已"; any_star; word "使用"];
                  seqs [word "已"; any_star; word "兑换"]]) true,
   js "兑换码已被使用");
  (Pattern (alts [word "invalid"; word "incorrect"; word "无效"]) true,
   js "无效的兑换码");
  (Pattern (alts [word "expired"; word "过期"]) true, js "兑换码已过期");
  (Pattern (alts [word "region"; word "country"; word "地区"]) true,
   js "兑换码在此地区无效");
  (Pattern (alts [word "error"; word "错误"]) true, js "兑换时发生错误")
].

Fixpoint successLoop (pats : list pattern) (pageText : jsstring)
    (result : RedeemRecord) : option RedeemRecord :=
  match pats with
  | [] => None
  | pattern :: rest =>
      if test pattern pageText then
        Some {| r_code := r_code result;
                r_status := js "已兑换";
                r_message := Some (js "成功兑换到Apple账户");
                r_timestamp := r_timestamp result |}
      else successLoop rest pageText result
  end.

Fixpoint failureLoop (pats : list (pattern * jsstring)) (pageText : jsstring)
    (result : RedeemRecord) : option RedeemRecord :=
  match pats with
  | [] => None
  | (pattern, msg) :: rest =>
      if test pattern pageText then
        Some {| r_code := r_code result;
                r_status := js "失败";
                r_message := Some msg;
                r_timestamp := r_timestamp result |}
      else failureLoop rest pageText result
  end.

Definition parseRedemptionResult (now : jsstring)
    (pageText pageHTML code_ : jsstring) : RedeemRecord :=
  let result := {| r_code := maskCode code_;
                   r_status := js "未知";
                   r_message := None;
                   r_timestamp := now |} in
  match successLoop successPatterns pageText result with
  | Some r => r
  | None =>
  match failureLoop redemptionErrorPatterns pageText result with
  | Some r => r
  | None =>
      {| r_code := r_code result;
         r_status := js "未知";
         r_message := Some (js "无法确定兑换状态");
         r_timestamp := r_timestamp result |}
  end end.

(** ** The browser and the effects of the class *)

(** A thrown [Error]: its message. *)
Record Error : Type := mkError { error_message : jsstring }.

(** The value [JSON.stringify] serialises, and what is written to a
    file: a JSON document or a text. *)
Unset Elimination Schemes.
Inductive Json : Type :=
| JNull
| JString (s : jsstring)
| JNumber (n : Z)
| JArray (items : list Json)
| JObject (fields : list (jsstring * Json)).
Set Elimination Schemes.

Inductive FileData : Type :=
| JsonDocument (j : Json)
| Text (t : jsstring).

(** Handles of the browser, of a page and of an element of a page. *)
Definition Browser := nat.
Definition Page := nat.
Definition Element := nat.

(** The outcome of a call into puppeteer, the file system or the clock:
    the world [W] after it, and a value or a thrown error. *)
Definition call (W A : Type) : Type := W -> (Error + A) * W.

(** What the class uses of puppeteer, [fs], [Date] and [setTimeout]. *)
Record Env (W : Type) : Type := {
  launch : call W Browser;                               (* puppeteer.launch *)
  closeBrowser : Browser -> call W unit;                 (* browser.close *)
  newPage : Browser -> call W Page;                      (* browser.newPage *)
  setUserAgent : Page -> jsstring -> call W unit;
  goto : Page -> jsstring -> Z -> call W unit;           (* url, timeout *)
  waitForTimeout : Page -> Z -> call W unit;
  query : Page -> jsstring -> call W (option Element);   (* page.$ *)
  queryAll : Page -> jsstring -> call W (list Element);  (* page.$$ *)
  click : Element -> call W unit;
  type : Element -> jsstring -> Z -> call W unit;        (* text, delay *)
  press : Page -> jsstring -> call W unit;               (* keyboard.press *)
  innerText : Page -> call W jsstring;   (* evaluate(document.body.innerText) *)
  content : Page -> call W jsstring;
  screenshot : Page -> jsstring -> call W unit;  (* path up to Date.now() *)
  closePage : Page -> call W unit;
  toISOString : W -> jsstring * W;               (* new Date().toISOString() *)
  setTimeout : Z -> W -> W;
  existsSync : jsstring -> W -> bool * W;
  mkdirSync : jsstring -> call W unit;
  writeFileSync : jsstring -> FileData -> call W unit
}.

(** One constructor for each [console.log] and [console.error] of the
    modelled methods, with the values it prints. *)
Inductive LogEvent : Type :=
| LogLaunching
| LogLaunched
| LogBrowserClosed
| LogCheck (masked : jsstring) (attempt retries : Z)
| LogVisit (url : jsstring)
| LogFindInput
| LogInputFound (selector : jsstring)
| LogFirstTextInput
| LogTyping
| LogFindButton
| LogClicked (selector : jsstring)
| LogPressEnter
| LogWaiting
| LogResult (status_ : jsstring) (balance_ : option jsstring)
| LogError (msg : jsstring)
| LogScreenshotFailed
| LogRetry
| LogBatchStart (n : Z)
| LogSeparator
| LogProgress (i n : Z)
| LogWait (ms : Z)
| LogSummary (total valid invalid redeemed error unknown : Z)
| LogRedeem (masked : jsstring)
| LogNeedLogin
| LogFindRedeemButton
| LogRedeemClicked (selector : jsstring)
| LogWaitRedeem
| LogRedeemResult (status_ : jsstring)
| LogRedeemFailed (msg : jsstring)
| LogRetryRedeem
| LogLogin (appleId : jsstring)
| LogWaitLogin
| LogTwoFactor
| LogTwoFactorManual
| LogLoginOk
| LogLoginFailed (msg : jsstring)
| LogRedeemBatchStart (n : Z) (appleId : jsstring)
| LogRedeemProgress (i n : Z)
| LogRedeemWait (ms : Z)
| LogRedemptionSummary (total redeemed failed unknown : Z)
| LogSaved (filename : jsstring)
| LogCsvSaved (filename : jsstring).

(** The state the methods run in: the world, the console, and the
    fields [this.browser] and [this.results]. *)
Record State (W : Type) : Type := {
  world : W;
  console : list LogEvent;
  browser : option Browser;
  results : list BalanceRecord
}.

Arguments world {W} _.
Arguments console {W} _.
Arguments browser {W} _.
Arguments results {W} _.

(** The result of running a method: a value, a thrown error, or the
    recursion budget of the model used up. *)
Inductive Res (A : Type) : Type :=
| Ok (a : A)
| Throw (e : Error)
| Exhausted.

Arguments Ok {A} a.
Arguments Throw {A} e.
Arguments Exhausted {A}.

Module Monad.
Section Monad.
Context {W : Type}.

Definition M (A : Type) : Type := State W -> Res A * State W.

Definition ret {A} (a : A) : M A := fun s => (Ok a, s).

Definition bind {A B} (m : M A) (k : A -> M B) : M B :=
  fun s =>
    match m s with
    | (Ok a, s') => k a s'
    | (Throw e, s') => (Throw e, s')
    | (Exhausted, s') => (Exhausted, s')
    end.

Definition throw {A} (e : Error) : M A := fun s => (Throw e, s).

Definition exhausted {A} : M A := fun s => (Exhausted, s).

(** [try { body } catch (error) { handler }] *)
Definition try_catch {A} (body : M A) (handler : Error -> M A) : M A :=
  fun s =>
    match body s with
    | (Throw e, s') => handler e s'
    | r => r
    end.

(** [await] of a call into the environment. *)
Definition await {A} (c : call W A) : M A :=
  fun s =>
    match c (world s) with
    | (inr a, w) =>
        (Ok a, {| world := w; console := console s;
                  browser := browser s; results := results s |})
    | (inl e, w) =>
        (Throw e, {| world := w; console := console s;
                     browser := browser s; results := results s |})
    end.

(** A call that cannot throw. *)
Definition perform {A} (c : W -> A * W) : M A :=
  fun s =>
    let (a, w) := c (world s) in
    (Ok a, {| world := w; console := console s;
              browser := browser s; results := results s |}).

Definition log (e : LogEvent) : M unit :=
  fun s =>
    (Ok tt, {| world := world s; console := console s ++ [e];
               browser := browser s; results := results s |}).

Definition get_browser : M (option Browser) := fun s => (Ok (browser s), s).

Definition set_browser (b : option Browser) : M unit :=
  fun s =>
    (Ok tt, {| world := world s; console := console s;
               browser := b; results := results s |}).

Definition get_results : M (list BalanceRecord) :=
  fun s => (Ok (results s), s).

Definition set_results (rs : list BalanceRecord) : M unit :=
  fun s =>
    (Ok tt, {| world := world s; console := console s;
               browser := browser s; results := rs |}).

End Monad.
End Monad.
Export Monad.

Declare Scope js_scope.
Delimit Scope js_scope with js.
Notation "x <- m ;; k" := (bind m (fun x => k))
  (at level 61, m at next level, right associativity) : js_scope.
Notation "m ;; k" := (bind m (fun _ => k))
  (at level 61, right associativity) : js_scope.
Open Scope js_scope.

(** The error of [this.browser.newPage] when [this.browser] is [null]
    (before [initialize]); the text of its message is the engine's. *)
Definition TypeError_null : Error :=
  mkError (js "Cannot read properties of null (reading 'newPage')").

(** ** The methods of [AppleGiftCardChecker] *)

(** The double quote inside a selector or a row of the CSV file. *)
Definition dq : jsstring := [34%N].

(** The selector [tag[attr op "value"]], as in [input[name="code"]]. *)
Definition attr_selector (tag attr op value : string) : jsstring :=
  js tag ++ js "[" ++ js attr ++ js op ++ dq ++ js value ++ dq ++ js "]".

(** The selector [tag:contains("text")]. *)
Definition contains_selector (tag text : string) : jsstring :=
  js tag ++ js ":contains(" ++ dq ++ js text ++ dq ++ js ")".

Arguments attr_selector (tag attr op value)%_string.
Arguments contains_selector (tag text)%_string.

Section Checker.
Context {W : Type}.
Variable env : Env W.
Variable cfg : Config.

(** [initialize] and [close] *)
Definition initialize : M (W:=W) unit :=
  log LogLaunching;;
  b <- await (launch env);;
  set_browser (Some b);;
  log LogLaunched.

Definition close : M (W:=W) unit :=
  b <- get_browser;;
  match b with
  | Some b => await (closeBrowser env b);; log LogBrowserClosed
  | None => ret tt
  end.

(** [await this.browser.newPage()] *)
Definition browser_newPage : M (W:=W) Page :=
  b <- get_browser;;
  match b with
  | Some b => await (newPage env b)
  | None => throw TypeError_null
  end.

Definition userAgent : jsstring :=
  js "Mozilla/5.0 (Windows NT 10.0; Win64; x64) AppleWebKit/537.36 (KHTML, like Gecko) Chrome/120.0.0.0 Safari/537.36".

(** The address of the balance page. *)
Definition balanceUrl : jsstring :=
  js "https://secure.store.apple.com/" ++ region cfg
     ++ js "/shop/gift-cards/balance".

Definition possibleSelectors : list jsstring := [
  attr_selector "input" "name" "=" "giftCardNumber";
  attr_selector "input" "id" "=" "giftCardNumber";
  attr_selector "input" "type" "=" "text";
  attr_selector "input" "placeholder" "*=" "code";
  attr_selector "input" "placeholder" "*=" "卡";
  attr_selector "input" "aria-label" "*=" "card"
].

Definition submitSelectors : list jsstring := [
  attr_selector "button" "type" "=" "submit";
  contains_selector "button" "查询";
  contains_selector "button" "Check";
  contains_selector "button" "余额";
  js ".button-submit";
  js "#submit-button"
].

(** The loop over [possibleSelectors] (and over [codeInputSelectors] in
    [redeemCard]): each probe has its own [try]; a probe that throws or
    finds nothing goes on to the next selector, the first element found
    ends the loop. *)
Fixpoint probeInput (page : Page) (selectors : list jsstring)
  : M (W:=W) (option Element) :=
  match selectors with
  | [] => ret None
  | selector :: rest =>
      found <- try_catch
                 (inputField <- await (query env page selector);;
                  match inputField with
                  | Some el => log (LogInputFound selector);; ret (Some el)
                  | None => ret None
                  end)
                 (fun _ => ret None);;
      match found with
      | Some el => ret (Some el)
      | None => probeInput page rest
      end
  end.

(** Lines 231 to 264 of [checkBalance]: the candidates, then the first
    text input of the page, then the error. *)
Definition locateInput (page : Page) : M (W:=W) Element :=
  inputField <- probeInput page possibleSelectors;;
  inputField <-
    match inputField with
    | Some el => ret (Some el)
    | None =>
        inputs <- await (queryAll env page
                           (attr_selector "input" "type" "=" "text"));;
        match inputs with
        | el :: _ => log LogFirstTextInput;; ret (Some el)
        | [] => ret None
        end
    end;;
  match inputField with
  | Some el => ret el
  | None => throw (mkError (js "无法找到礼品卡输入框"))
  end.

(** The loop over the selectors of the submit button: the first button
    found and clicked ends it with [submitted = true]. *)
Fixpoint clickFirst (clicked : jsstring -> LogEvent) (page : Page)
    (selectors : list jsstring) : M (W:=W) bool :=
  match selectors with
  | [] => ret false
  | selector :: rest =>
      submitted <- try_catch
                     (button <- await (query env page selector);;
                      match button with
                      | Some b =>
                          await (click env b);;
                          log (clicked selector);;
                          ret true
                      | None => ret false
                      end)
                     (fun _ => ret false);;
      if submitted : bool then ret true else clickFirst clicked page rest
  end.

Definition delay (ms : Z) : M (W:=W) unit :=
  perform (fun w => (tt, setTimeout env ms w)).

(** The [try] block of [checkBalance]. *)
Definition checkBalance_try (page : Page) (code_ : jsstring) (attempt : Z)
  : M (W:=W) BalanceRecord :=
  log (LogCheck (maskCode code_) attempt (retryAttempts cfg));;
  await (setUserAgent env page userAgent);;
  log (LogVisit balanceUrl);;
  await (goto env page balanceUrl (timeout cfg));;
  await (waitForTimeout env page 2000);;
  log LogFindInput;;
  inputField <- locateInput page;;
  log LogTyping;;
  await (click env inputField);;
  await (waitForTimeout env page 500);;
  await (type env inputField code_ 100);;
  log LogFindButton;;
  submitted <- clickFirst LogClicked page submitSelectors;;
  (if submitted : bool then ret tt
   else log LogPressEnter;; await (press env page (js "Enter")));;
  log LogWaiting;;
  await (waitForTimeout env page 3000);;
  pageText <- await (innerText env page);;
  pageHTML <- await (content env page);;
  now <- perform (toISOString env);;
  let result := parseBalanceResult now pageText pageHTML code_ in
  log (LogResult (status result) (balance result));;
  (if screenshotOnError cfg || negb (headless cfg)
   then await (screenshot env page (js "screenshots/check_"))
   else ret tt);;
  await (closePage env page);;
  ret result.

(** [checkBalance(code, attempt)].  The recursion of the source is on
    [attempt]; [budget] bounds the number of further attempts. *)
Fixpoint checkBalance_rec (budget : nat) (code_ : jsstring) (attempt : Z)
  : M (W:=W) BalanceRecord :=
  page <- browser_newPage;;
  try_catch
    (checkBalance_try page code_ attempt)
    (fun error =>
       log (LogError (error_message error));;
       (if screenshotOnError cfg
        then try_catch
               (await (screenshot env page (js "screenshots/error_")))
               (fun _ => log LogScreenshotFailed)
        else ret tt);;
       await (closePage env page);;
       if attempt <? retryAttempts cfg then
         match budget with
         | S budget' =>
             log LogRetry;;
             delay 5000;;
             checkBalance_rec budget' code_ (attempt + 1)
         | O => exhausted
         end
       else
         now <- perform (toISOString env);;
         ret {| code := maskCode code_;
                status := js "错误";
                balance := None;
                currency := None;
                message := Some (error_message error);
                timestamp := now |}).

(** The attempts left from [attempt] on are at most
    [retryAttempts - attempt]. *)
Definition checkBalance (code_ : jsstring) (attempt : Z)
  : M (W:=W) BalanceRecord :=
  checkBalance_rec (Z.to_nat (retryAttempts cfg - attempt)) code_ attempt.

(** [results.filter(r => r.status === s).length] *)
Definition count_status (s : jsstring) (rs : list BalanceRecord) : Z :=
  Z.of_nat (List.length (filter (fun r => eqb (status r) s) rs)).

Definition printSummary : M (W:=W) unit :=
  rs <- get_results;;
  log (LogSummary (Z.of_nat (List.length rs))
                  (count_status (js "有效") rs)
                  (count_status (js "无效") rs)
                  (count_status (js "已兑换") rs)
                  (count_status (js "错误") rs)
                  (count_status (js "未知") rs)).

(** The loop of [processBatch], from index [i] of [n] codes on. *)
Fixpoint processLoop (codes : list jsstring) (i n : Z) : M (W:=W) unit :=
  match codes with
  | [] => ret tt
  | code_ :: rest =>
      log LogSeparator;;
      log (LogProgress (i + 1) n);;
      result <- checkBalance code_ 1;;
      rs <- get_results;;
      set_results (rs ++ [result]);;
      (if i <? n - 1
       then log (LogWait (delayBetweenCards cfg));;
            delay (delayBetweenCards cfg)
       else ret tt);;
      processLoop rest (i + 1) n
  end.

Definition processBatch (codes : list jsstring)
  : M (W:=W) (list BalanceRecord) :=
  log (LogBatchStart (Z.of_nat (List.length codes)));;
  present <- perform (existsSync env (js "screenshots"));;
  (if present : bool then ret tt
   else await (mkdirSync env (js "screenshots")));;
  set_results [];;
  processLoop codes 0 (Z.of_nat (List.length codes));;
  log LogSeparator;;
  printSummary;;
  get_results.

(** *** Redemption *)

Definition redeemUrl : jsstring :=
  js "https://buy.itunes.apple.com/WebObjects/MZFinance.woa/wa/freeProductCodeWizard".

Definition loginIndicators : list jsstring := [
  attr_selector "input" "name" "=" "accountName";
  attr_selector "input" "id" "=" "account_name_text_field";
  attr_selector "input" "type" "=" "email";
  js "#signIn";
  js ".sign-in"
].

(** [checkIfLoginRequired(page)] *)
Fixpoint checkIfLoginRequired_loop (page : Page) (selectors : list jsstring)
  : M (W:=W) bool :=
  match selectors with
  | [] => ret false
  | selector :: rest =>
      found <- try_catch
                 (element <- await (query env page selector);;
                  match element with
                  | Some _ => ret true
                  | None => ret false
                  end)
                 (fun _ => ret false);;
      if found : bool then ret true else checkIfLoginRequired_loop page rest
  end.

Definition checkIfLoginRequired (page : Page) : M (W:=W) bool :=
  checkIfLoginRequired_loop page loginIndicators.

Definition emailSelectors : list jsstring := [
  attr_selector "input" "name" "=" "accountName";
  attr_selector "input" "id" "=" "account_name_text_field";
  attr_selector "input" "type" "=" "email"
].

Definition passwordSelectors : list jsstring := [
  attr_selector "input" "name" "=" "password";
  attr_selector "input" "id" "=" "password_text_field";
  attr_selector "input" "type" "=" "password"
].

(** The loops of [loginToApple]: no [try] around the probe. *)
Fixpoint firstElement (page : Page) (selectors : list jsstring)
  : M (W:=W) (option Element) :=
  match selectors with
  | [] => ret None
  | selector :: rest =>
      found <- await (query env page selector);;
      match found with
      | Some el => ret (Some el)
      | None => firstElement page rest
      end
  end.

Definition twoFactorPattern : pattern :=
  Pattern (alts [seqs [word "two"; Atom Dot Opt; word "factor"];
                 word "verification"; word "code"; word "双重"; word "验证"])
          true.

(** [loginToApple(page, appleId, password)]: the error is logged and
    thrown again. *)
Definition loginToApple (page : Page) (appleId password : jsstring)
  : M (W:=W) unit :=
  try_catch
    (log (LogLogin appleId);;
     emailInput <- firstElement page emailSelectors;;
     match emailInput with
     | None => throw (mkError (js "无法找到Apple ID邮箱输入框"))
     | Some emailInput =>
         await (click env emailInput);;
         await (waitForTimeout env page 500);;
         await (type env emailInput appleId 100);;
         await (press env page (js "Enter"));;
         await (waitForTimeout env page 2000);;
         passwordInput <- firstElement page passwordSelectors;;
         match passwordInput with
         | None => throw (mkError (js "无法找到密码输入框"))
         | Some passwordInput =>
             await (click env passwordInput);;
             await (waitForTimeout env page 500);;
             await (type env passwordInput password 100);;
             await (press env page (js "Enter"));;
             log LogWaitLogin;;
             await (waitForTimeout env page 5000);;
             pageText <- await (innerText env page);;
             (if test twoFactorPattern pageText
              then log LogTwoFactor;;
                   log LogTwoFactorManual;;
                   await (waitForTimeout env page 30000)
              else ret tt);;
             log LogLoginOk
         end
     end)
    (fun error =>
       log (LogLoginFailed (error_message error));;
       throw error).

Definition codeInputSelectors : list jsstring := [
  attr_selector "input" "name" "=" "code";
  attr_selector "input" "id" "=" "redemptionCode";
  attr_selector "input" "placeholder" "*=" "code";
  attr_selector "input" "type" "=" "text"
].

Definition redeemButtonSelectors : list jsstring := [
  contains_selector "button" "兑换";
  contains_selector "button" "Redeem";
  attr_selector "button" "type" "=" "submit";
  attr_selector "input" "type" "=" "submit";
  js ".button-redeem";
  js "#redeem-button"
].

(** The [try] block of [redeemCard]. *)
Definition redeemCard_try (page : Page) (code_ appleId password : jsstring)
  : M (W:=W) RedeemRecord :=
  log (LogRedeem (maskCode code_));;
  log (LogVisit redeemUrl);;
  await (goto env page redeemUrl (timeout cfg));;
  await (waitForTimeout env page 2000);;
  needsLogin <- checkIfLoginRequired page;;
  (if needsLogin : bool
   then log LogNeedLogin;; loginToApple page appleId password
   else ret tt);;
  log LogTyping;;
  codeInput <- probeInput page codeInputSelectors;;
  match codeInput with
  | None => throw (mkError (js "无法找到兑换码输入框"))
  | Some codeInput =>
      await (click env codeInput);;
      await (waitForTimeout env page 500);;
      await (type env codeInput code_ 100);;
      log LogFindRedeemButton;;
      submitted <- clickFirst LogRedeemClicked page redeemButtonSelectors;;
      (if submitted : bool then ret tt
       else log LogPressEnter;; await (press env page (js "Enter")));;
      log LogWaitRedeem;;
      await (waitForTimeout env page 5000);;
      pageText <- await (innerText env page);;
      pageHTML <- await (content env page);;
      now <- perform (toISOString env);;
      let result := parseRedemptionResult now pageText pageHTML code_ in
      log (LogRedeemResult (r_status result));;
      (if screenshotOnError cfg || negb (headless cfg)
       then await (screenshot env page (js "screenshots/redeem_"))
       else ret tt);;
      await (closePage env page);;
      ret result
  end.

(** [redeemCard(code, appleId, password, attempt)] *)
Fixpoint redeemCard_rec (budget : nat) (code_ appleId password : jsstring)
    (attempt : Z) : M (W:=W) RedeemRecord :=
  page <- browser_newPage;;
  try_catch
    (redeemCard_try page code_ appleId password)
    (fun error =>
       log (LogRedeemFailed (error_message error));;
       (if screenshotOnError cfg
        then try_catch
               (await (screenshot env page (js "screenshots/redeem_error_")))
               (fun _ => log LogScreenshotFailed)
        else ret tt);;
       await (closePage env page);;
       if attempt <? retryAttempts cfg then
         match budget with
         | S budget' =>
             log LogRetryRedeem;;
             delay 5000;;
             redeemCard_rec budget' code_ appleId password (attempt + 1)
         | O => exhausted
         end
       else
         now <- perform (toISOString env);;
         ret {| r_code := maskCode code_;
                r_status := js "兑换失败";
                r_message := Some (error_message error);
                r_timestamp := now |}).

Definition redeemCard (code_ appleId password : jsstring) (attempt : Z)
  : M (W:=W) RedeemRecord :=
  redeemCard_rec (Z.to_nat (retryAttempts cfg - attempt))
                 code_ appleId password attempt.

Definition count_rstatus (s : jsstring) (rs : list RedeemRecord) : Z :=
  Z.of_nat (List.length (filter (fun r => eqb (r_status r) s) rs)).

Definition printRedemptionSummary (rs : list RedeemRecord) : M (W:=W) unit :=
  log (LogRedemptionSummary
         (Z.of_nat (List.length rs))
         (count_rstatus (js "已兑换") rs)
         (Z.of_nat (List.length
            (filter (fun r => eqb (r_status r) (js "失败")
                              || eqb (r_status r) (js "兑换失败")) rs)))
         (count_rstatus (js "未知") rs)).

(** The loop of [redeemBatch]; [acc] is the local [redemptionResults]. *)
Fixpoint redeemLoop (codes : list jsstring) (appleId password : jsstring)
    (i n : Z) (acc : list RedeemRecord) : M (W:=W) (list RedeemRecord) :=
  match codes with
  | [] => ret acc
  | code_ :: rest =>
      log LogSeparator;;
      log (LogRedeemProgress (i + 1) n);;
      result <- redeemCard code_ appleId password 1;;
      (if i <? n - 1
       then log (LogRedeemWait (delayBetweenCards cfg));;
            delay (delayBetweenCards cfg)
       else ret tt);;
      redeemLoop rest appleId password (i + 1) n (acc ++ [result])
  end.

Definition redeemBatch (codes : list jsstring) (appleId password : jsstring)
  : M (W:=W) (list RedeemRecord) :=
  log (LogRedeemBatchStart (Z.of_nat (List.length codes)) appleId);;
  redemptionResults <-
    redeemLoop codes appleId password 0 (Z.of_nat (List.length codes)) [];;
  log LogSeparator;;
  printRedemptionSummary redemptionResults;;
  ret redemptionResults.

(** *** Saving the results *)

Definition json_of_option (o : option jsstring) : Json :=
  match o with
  | Some s => JString s
  | None => JNull
  end.

Definition json_of_record (r : BalanceRecord) : Json :=
  JObject [
    (js "code", JString (code r));
    (js "status", JString (status r));
    (js "balance", json_of_option (balance r));
    (js "currency", json_of_option (currency r));
    (js "message", json_of_option (message r));
    (js "timestamp", JString (timestamp r))
  ].

(** [x || ''] *)
Definition or_empty (o : option jsstring) : jsstring :=
  match o with
  | Some s => s
  | None => []
  end.

Definition csv_header : jsstring := js "兑换码,状态,余额,货币,消息,时间" ++ [10%N].

Definition csv_row (r : BalanceRecord) : jsstring :=
  dq ++ code r ++ dq ++ js "," ++
  dq ++ status r ++ dq ++ js "," ++
  dq ++ or_empty (balance r) ++ dq ++ js "," ++
  dq ++ or_empty (currency r) ++ dq ++ js "," ++
  dq ++ or_empty (message r) ++ dq ++ js "," ++
  dq ++ timestamp r ++ dq ++ [10%N].

(** [saveCSV(filename)] *)
Definition saveCSV (filename : jsstring) : M (W:=W) unit :=
  rs <- get_results;;
  let csv := fold_left (fun csv r => csv ++ csv_row r) rs csv_header in
  await (writeFileSync env filename (Text csv));;
  log (LogCsvSaved filename).

Fixpoint startsWith (p s : jsstring) : bool :=
  match p, s with
  | [], _ => true
  | c :: p', d :: s' => (c =? d)%N && startsWith p' s'
  | _ :: _, [] => false
  end.

(** [s.replace(p, r)] for a string [p]: the first occurrence only. *)
Fixpoint replace (p r s : jsstring) : jsstring :=
  if startsWith p s then r ++ skipn (List.length p) s
  else
    match s with
    | [] => []
    | c :: t => c :: replace p r t
    end.

(** The object [metadata] of [saveResults]. *)
Definition metadata (now : jsstring) (rs : list BalanceRecord) : Json :=
  JObject [
    (js "生成时间", JString now);
    (js "总卡片数", JNumber (Z.of_nat (List.length rs)));
    (js "有效卡片", JNumber (count_status (js "有效") rs));
    (js "无效卡片", JNumber (count_status (js "无效") rs));
    (js "已兑换卡片", JNumber (count_status (js "已兑换") rs));
    (js "错误", JNumber (count_status (js "错误") rs))
  ].

(** [saveResults(filename)] *)
Definition saveResults (filename : jsstring) : M (W:=W) unit :=
  now <- perform (toISOString env);;
  rs <- get_results;;
  let output := JObject [
    (js "metadata", metadata now rs);
    (js "results", JArray (map json_of_record rs))
  ] in
  await (writeFileSync env filename (JsonDocument output));;
  log (LogSaved filename);;
  saveCSV (replace (js ".json") (js ".csv") filename).

End Checker.

(** ** The scripts around the class *)

(** *** The loop of [processCSV] over the lines of the file *)

(** [s.trim()]: white space and line terminators are removed at both
    ends. *)
Fixpoint trimStart (s : jsstring) : jsstring :=
  match s with
  | [] => []
  | c :: t => if isWhiteSpace c then trimStart t else s
  end.

Definition trimEnd (s : jsstring) : jsstring := rev (trimStart (rev s)).

Definition trim (s : jsstring) : jsstring := trimEnd (trimStart s).

(** [s.split(',')[0]]: the text before the first comma, all of [s] when
    it has none. *)
Fixpoint split_first (s : jsstring) : jsstring :=
  match s with
  | [] => []
  | c :: t => if (c =? 44)%N then [] else c :: split_first t
  end.

(** The global replacement of the double quote by the empty string:
    every double quote is removed. *)
Definition remove_quotes (s : jsstring) : jsstring :=
  filter (fun c => negb (c =? 34)%N) s.

(** The code read from one line. *)
Definition line_code (line : jsstring) : jsstring :=
  remove_quotes (trim (split_first line)).

(** The loop [for await (const line of rl)]: [lineNumber] counts the lines
    read so far and [codes] is the array being filled.  The lines are what
    [readline] yields for the file. *)
Fixpoint processCSV_loop (lines : list jsstring) (lineNumber : Z)
    (codes : list jsstring) : list jsstring :=
  match lines with
  | [] => codes
  | line :: rest =>
      let lineNumber := lineNumber + 1 in
      if (lineNumber =? 1) || match trim line with [] => true | _ => false end
      then processCSV_loop rest lineNumber codes
      else
        let code_ := line_code line in
        if match code_ with [] => false | _ => true end
           && (jslength code_ >? 8)
        then processCSV_loop rest lineNumber (codes ++ [code_])
        else processCSV_loop rest lineNumber codes
  end.

Definition processCSV_codes (lines : list jsstring) : list jsstring :=
  processCSV_loop lines 0 [].

(** *** The selection of the cards to redeem in [main] *)

(** The leftmost match of a pattern with the text before and after it. *)
Fixpoint search (ic : bool) (r : regex) (s : jsstring)
  : option (jsstring * jsstring * jsstring) :=
  match matches ic r s with
  | m :: _ => Some ([], consumed m, remaining m)
  | [] =>
      match s with
      | [] => None
      | c :: t =>
          match search ic r t with
          | Some (before, found, after) => Some (c :: before, found, after)
          | None => None
          end
      end
  end.

(** [s.replace(p, r)] for a pattern [p] without the [g] flag and a
    replacement [r] without [$]: the leftmost match is replaced. *)
Definition replace_match (p : pattern) (r s : jsstring) : jsstring :=
  match search (ignoreCase p) (re p) s with
  | Some (before, _, after) => before ++ r ++ after
  | None => s
  end.

(** The pattern of [main] for the middle of a masked code: a hyphen,
    four stars, a hyphen, four stars, a hyphen. *)
Definition maskMiddlePattern : pattern :=
  Pattern (word "-****-****-") false.

(** [results.filter(r => r.status === 'valid').map(r => r.code.replace(...))] *)
Definition validCards (results_ : list BalanceRecord) : list jsstring :=
  map (fun r => replace_match maskMiddlePattern (js "-") (code r))
      (filter (fun r => eqb (status r) (js "valid")) results_).

(** ** A scripted environment

    A browser whose answers are fixed by a script, for running the
    methods on concrete pages. *)

Module Scripted.

Record World : Type := {
  opened : nat;                            (* pages opened so far *)
  files : list (jsstring * FileData)       (* files written, in order *)
}.

Record Script : Type := {
  s_newPage : option Error;                (* [Some e]: the call throws [e] *)
  s_goto : option Error;
  s_query : jsstring -> Error + option Element;
  s_queryAll : jsstring -> Error + list Element;
  s_click : option Error;
  s_text : jsstring;
  s_html : jsstring;
  s_close : option Error;
  s_exists : bool;
  s_write : option Error
}.

Definition answer {A} (e : option Error) (a : A) : call World A :=
  fun w => (match e with Some e => inl e | None => inr a end, w).

Definition clock : jsstring := js "2024-01-01T00:00:00.000Z".

Definition env (sc : Script) : Env World := {|
  launch := fun w => (inr 0%nat, w);
  closeBrowser := fun _ w => (inr tt, w);
  newPage := fun _ w =>
    match s_newPage sc with
    | Some e => (inl e, w)
    | None => (inr (opened w), {| opened := S (opened w); files := files w |})
    end;
  setUserAgent := fun _ _ w => (inr tt, w);
  goto := fun _ _ _ => answer (s_goto sc) tt;
  waitForTimeout := fun _ _ w => (inr tt, w);
  query := fun _ selector w => (s_query sc selector, w);
  queryAll := fun _ selector w => (s_queryAll sc selector, w);
  click := fun _ => answer (s_click sc) tt;
  type := fun _ _ _ w => (inr tt, w);
  press := fun _ _ w => (inr tt, w);
  innerText := fun _ w => (inr (s_text sc), w);
  content := fun _ w => (inr (s_html sc), w);
  screenshot := fun _ _ w => (inr tt, w);
  closePage := fun _ => answer (s_close sc) tt;
  toISOString := fun w => (clock, w);
  setTimeout := fun _ w => w;
  existsSync := fun _ w => (s_exists sc, w);
  mkdirSync := fun _ w => (inr tt, w);
  writeFileSync := fun name data w =>
    match s_write sc with
    | Some e => (inl e, w)
    | None => (inr tt, {| opened := opened w;
                          files := files w ++ [(name, data)] |})
    end
|}.

(** A page with one text input (element 7) and a submit button (element
    9); the other selectors find nothing, and [:contains] is not a
    selector the browser knows. *)
Definition page_query (selector : jsstring) : Error + option Element :=
  if eqb selector (attr_selector "input" "type" "=" "text") then inr (Some 7%nat)
  else if eqb selector (attr_selector "button" "type" "=" "submit")
       then inr (Some 9%nat)
  else if startsWith (js "button:contains") selector
       then inl (mkError (js "not a valid selector"))
  else inr None.

Definition page (text : jsstring) : Script := {|
  s_newPage := None;
  s_goto := None;
  s_query := page_query;
  s_queryAll := fun _ => inr [7%nat];
  s_click := None;
  s_text := text;
  s_html := [];
  s_close := None;
  s_exists := true;
  s_write := None
|}.

(** A page that says the card is redeemed. *)
Definition already : Script := page (js "该卡已兑换").

(** The site cannot be reached. *)
Definition site_down : Script := {|
  s_newPage := None;
  s_goto := Some (mkError (js "net::ERR_CONNECTION_REFUSED"));
  s_query := fun _ => inr None;
  s_queryAll := fun _ => inr [];
  s_click := None;
  s_text := [];
  s_html := [];
  s_close := None;
  s_exists := true;
  s_write := None
|}.

(** The browser has crashed: navigation fails and so does closing the
    page. *)
Definition crashed : Script := {|
  s_newPage := None;
  s_goto := Some (mkError (js "Navigation failed because browser has disconnected!"));
  s_query := fun _ => inr None;
  s_queryAll := fun _ => inr [];
  s_click := None;
  s_text := [];
  s_html := [];
  s_close := Some (mkError (js "Protocol error: Connection closed."));
  s_exists := true;
  s_write := None
|}.

(** A page without any input field. *)
Definition no_input : Script := {|
  s_newPage := None;
  s_goto := None;
  s_query := fun _ => inr None;
  s_queryAll := fun _ => inr [];
  s_click := None;
  s_text := [];
  s_html := [];
  s_close := None;
  s_exists := true;
  s_write := None
|}.

(** The state of a checker after [new AppleGiftCardChecker(...)], and
    after [initialize]. *)
Definition fresh : State World := {|
  world := {| opened := 0; files := [] |};
  console := [];
  browser := None;
  results := []
|}.

Definition started : State World := {|
  world := {| opened := 0; files := [] |};
  console := [];
  browser := Some 0%nat;
  results := []
|}.

Definition config (region_ : string) (retries : Z) : Config :=
  constructor_config {|
    opt_headless := Some true;
    opt_delayBetweenCards := Some 5000;
    opt_retryAttempts := Some retries;
    opt_timeout := None;
    opt_region := Some (js region_);
    opt_screenshotOnError := None
  |}.

Arguments config region_%_string retries%_Z.

Definition card1 : jsstring := js "X87L-WQ5G-7FW3-VGCW".
Definition card2 : jsstring := js "XNZ3-PMLP-YTNQ-GT7N".

End Scripted.

(** ** Vocabulary of the statements *)

(** Some pattern of the list matches the text. *)
Definition anyMatch (pats : list pattern) (text : jsstring) : bool :=
  existsb (fun p => test p text) pats.

(** The element [/过期|expired/i] of [errorPatterns]. *)
Definition expiredPattern : pattern :=
  Pattern (alts [word "过期"; word "expired"]) true.

(** The two records the loop over [errorPatterns] can return. *)
Definition redeemedRecord (result : BalanceRecord) : BalanceRecord :=
  {| code := code result;
     status := js "已兑换";
     balance := balance result;
     currency := currency result;
     message := Some (js "此礼品卡已被兑换");
     timestamp := timestamp result |}.

Definition invalidRecord (result : BalanceRecord) : BalanceRecord :=
  {| code := code result;
     status := js "无效";
     balance := balance result;
     currency := currency result;
     message := Some (js "卡号无效或有误");
     timestamp := timestamp result |}.

(** The record [parseBalanceResult] starts from. *)
Definition initialRecord (now code_ : jsstring) : BalanceRecord :=
  {| code := maskCode code_;
     status := js "未知";
     balance := None;
     currency := None;
     message := None;
     timestamp := now |}.

(** The attempt numbers printed by [checkBalance] and the messages of the
    errors it printed, in the order of the console. *)
Fixpoint attempts (evs : list LogEvent) : list Z :=
  match evs with
  | [] => []
  | LogCheck _ a _ :: t => a :: attempts t
  | _ :: t => attempts t
  end.

Fixpoint errors (evs : list LogEvent) : list jsstring :=
  match evs with
  | [] => []
  | LogError msg :: t => msg :: errors t
  | _ :: t => errors t
  end.

(** An event that is neither the start of an attempt nor an error. *)
Definition quiet (e : LogEvent) : Prop :=
  match e with
  | LogCheck _ _ _ | LogError _ => False
  | _ => True
  end.

(** The attempt numbers [a, a+1, ..., a+n-1]. *)
Fixpoint numbers (a : Z) (n : nat) : list Z :=
  match n with
  | O => []
  | S n' => a :: numbers (a + 1) n'
  end.

(** The record [checkBalance] returns when the last attempt has failed. *)
Definition errorRecord (code_ msg now : jsstring) : BalanceRecord :=
  {| code := maskCode code_;
     status := js "错误";
     balance := None;
     currency := None;
     message := Some msg;
     timestamp := now |}.

(** [r] is a record [checkBalance] returns for the code [c], and the same
    for [redeemCard]. *)
Definition checked {W} (env : Env W) (cfg : Config)
    (c : jsstring) (r : BalanceRecord) : Prop :=
  exists s1 s2, checkBalance env cfg c 1 s1 = (Ok r, s2).

Definition redeemed {W} (env : Env W) (cfg : Config)
    (appleId password c : jsstring) (r : RedeemRecord) : Prop :=
  exists s1 s2, redeemCard env cfg c appleId password 1 s1 = (Ok r, s2).

(** The candidates [selectors] all fail to resolve on the page, from the
    world [w] on: each probe returns [null] or throws; the result is the
    world after the last probe. *)
Fixpoint misses {W} (env : Env W) (page : Page) (selectors : list jsstring)
    (w : W) : option W :=
  match selectors with
  | [] => Some w
  | selector :: rest =>
      match query env page selector w with
      | (inr (Some _), _) => None
      | (_, w') => misses env page rest w'
      end
  end.

(** The state [s] after calls that left the world [w] and printed
    [evs]. *)
Definition moved {W} (s : State W) (w : W) (evs : list LogEvent) : State W :=
  {| world := w;
     console := console s ++ evs;
     browser := browser s;
     results := results s |}.

(** [runs P Q m]: from every state, [m] leaves [this.browser] and
    [this.results] as they were, prints only events that satisfy [P],
    never uses up the budget of the model, and when it returns, the value
    returned satisfies [Q]. *)
Definition runs {W A} (P : LogEvent -> Prop) (Q : A -> Prop)
    (m : M (W:=W) A) : Prop :=
  forall s r s',
    m s = (r, s') ->
    browser s' = browser s
    /\ results s' = results s
    /\ (exists evs, console s' = console s ++ evs /\ Forall P evs)
    /\ match r with
       | Ok a => Q a
       | Throw _ => True
       | Exhausted => False
       end.

(** What one line after the first gives to [processCSV]: its code when
    the line is not blank and the code is longer than eight code units. *)
Definition line_codes (line : jsstring) : list jsstring :=
  match trim line with
  | [] => []
  | _ => if jslength (line_code line) >? 8 then [line_code line] else []
  end.

(** The text of an amount: digits, at least one, then an optional dot,
    then digits. *)
Definition amount_shaped (g : jsstring) : Prop :=
  exists whole dot fraction,
    g = whole ++ dot ++ fraction
    /\ whole <> []
    /\ forallb isDigit whole = true
    /\ (dot = [] \/ dot = [46%N])
    /\ forallb isDigit fraction = true.

(** A pattern without a capture group, and a pattern every match of which
    goes through the group of the amount. *)
Inductive NoGroup : regex -> Prop :=
| NoGroup_Eps : NoGroup Eps
| NoGroup_Atom (a : atom) (q : quant) : NoGroup (Atom a q)
| NoGroup_Seq (r1 r2 : regex) :
    NoGroup r1 -> NoGroup r2 -> NoGroup (Seq r1 r2)
| NoGroup_Alt (r1 r2 : regex) :
    NoGroup r1 -> NoGroup r2 -> NoGroup (Alt r1 r2).

Inductive Captures : regex -> Prop :=
| Captures_here : Captures number_group
| Captures_right (r1 r2 : regex) : Captures r2 -> Captures (Seq r1 r2)
| Captures_left (r1 r2 : regex) :
    Captures r1 -> NoGroup r2 -> Captures (Seq r1 r2).

(** The events [checkBalance] prints. *)
Definition check_event (e : LogEvent) : Prop :=
  match e with
  | LogCheck _ _ _ | LogVisit _ | LogFindInput | LogInputFound _
  | LogFirstTextInput | LogTyping | LogFindButton | LogClicked _
  | LogPressEnter | LogWaiting | LogResult _ _ | LogError _
  | LogScreenshotFailed | LogRetry => True
  | _ => False
  end.

(** An event that is not the start of an attempt of [checkBalance]. *)
Definition no_check (e : LogEvent) : Prop :=
  match e with
  | LogCheck _ _ _ => False
  | _ => True
  end.

(** The statuses of the records of [checkBalance]. *)
Definition lookup_status (st : jsstring) : Prop :=
  st = js "有效" \/ st = js "无效" \/ st = js "已兑换"
  \/ st = js "错误" \/ st = js "未知".

(** A call of an environment, run in a world that carries a meter: the
    call does not see the meter and leaves it as it is. *)
Definition metered_call {W R} (c : W -> R * W) : W * Z -> R * (W * Z) :=
  fun w => let (r, w') := c (fst w) in (r, (w', snd w)).

(** The environment [env] with a meter of the time spent in [setTimeout],
    the timer of [delay]: every other call runs as in [env]. *)
Definition metered {W} (env : Env W) : Env (W * Z) := {|
  launch := metered_call (launch env);
  closeBrowser := fun b => metered_call (closeBrowser env b);
  newPage := fun b => metered_call (newPage env b);
  setUserAgent := fun p ua => metered_call (setUserAgent env p ua);
  goto := fun p url t => metered_call (goto env p url t);
  waitForTimeout := fun p ms => metered_call (waitForTimeout env p ms);
  query := fun p sel => metered_call (query env p sel);
  queryAll := fun p sel => metered_call (queryAll env p sel);
  click := fun el => metered_call (click env el);
  type := fun el text d => metered_call (type env el text d);
  press := fun p key => metered_call (press env p key);
  innerText := fun p => metered_call (innerText env p);
  content := fun p => metered_call (content env p);
  screenshot := fun p path => metered_call (screenshot env p path);
  closePage := fun p => metered_call (closePage env p);
  toISOString := metered_call (toISOString env);
  setTimeout := fun ms w => (setTimeout env ms (fst w), snd w + ms);
  existsSync := fun path => metered_call (existsSync env path);
  mkdirSync := fun path => metered_call (mkdirSync env path);
  writeFileSync := fun name data => metered_call (writeFileSync env name data)
|}.

(** The time on the meter. *)
Definition slept {W} (s : State (W * Z)) : Z := snd (world s).

(** The number of retries of [checkBalance] printed on the console. *)
Fixpoint retries (evs : list LogEvent) : Z :=
  match evs with
  | [] => 0
  | LogRetry :: t => 1 + retries t
  | _ :: t => retries t
  end.

(** The pauses that follow the lines of the console: the pause between
    two cards after its line, five seconds after the line of a retry. *)
Fixpoint pause_time (evs : list LogEvent) : Z :=
  match evs with
  | [] => 0
  | LogWait ms :: t => ms + pause_time t
  | LogRetry :: t => 5000 + pause_time t
  | _ :: t => pause_time t
  end.

(** The lines of the loop of [processBatch] over cards whose lookups
    printed [lookups], from the index [i], for [n] codes in all: for each
    card the separator and the progress, then the lines of its lookup,
    then the line of the pause of [d] milliseconds when another card
    follows. *)
Fixpoint batch_console (d i n : Z) (lookups : list (list LogEvent))
  : list LogEvent :=
  match lookups with
  | [] => []
  | lookup :: rest =>
      [LogSeparator; LogProgress (i + 1) n] ++ lookup
      ++ match rest with
         | [] => []
         | _ :: _ => [LogWait d]
         end
      ++ batch_console d (i + 1) n rest
  end.

(** What the loop of [processBatch] leaves, from the state [s]: the
    records it pushed are records of [checkBalance]; when it ends, there is
    one for each code, in order, and when the loop runs to the last index
    the lines it printed are those of [batch_console]; when it throws,
    fewer. *)
Definition processLoop_post {W} (cfg : Config) (codes : list jsstring)
    (i n : Z) (s : State W) (out : Res unit * State W) : Prop :=
  browser (snd out) = browser s
  /\ exists rs evs,
       results (snd out) = results s ++ rs
       /\ console (snd out) = console s ++ evs
       /\ Forall (fun r => lookup_status (status r)) rs
       /\ match fst out with
          | Ok _ =>
              List.length rs = List.length codes
              /\ map code rs = map maskCode codes
              /\ (n = i + Z.of_nat (List.length codes) ->
                  exists lookups,
                    List.length lookups = List.length codes
                    /\ Forall (Forall check_event) lookups
                    /\ evs = batch_console (delayBetweenCards cfg) i n
                               lookups)
          | Throw _ => (List.length rs < List.length codes)%nat
          | Exhausted => False
          end.

(** What [processBatch] leaves when it returns: [this.results] is the
    list returned, with one record of [checkBalance] for each code, and
    the console holds the line of the start, the lines of the loop and
    the summary of that list. *)
Definition processBatch_post {W} (cfg : Config) (codes : list jsstring)
    (s : State W) (out : Res (list BalanceRecord) * State W) : Prop :=
  match fst out with
  | Ok rs =>
      results (snd out) = rs
      /\ List.length rs = List.length codes
      /\ map code rs = map maskCode codes
      /\ Forall (fun r => lookup_status (status r)) rs
      /\ exists lookups,
           List.length lookups = List.length codes
           /\ Forall (Forall check_event) lookups
           /\ console (snd out) =
                console s
                  ++ [LogBatchStart (Z.of_nat (List.length codes))]
                  ++ batch_console (delayBetweenCards cfg) 0
                       (Z.of_nat (List.length codes)) lookups
                  ++ [LogSeparator;
                      LogSummary (Z.of_nat (List.length rs))
                                 (count_status (js "有效") rs)
                                 (count_status (js "无效") rs)
                                 (count_status (js "已兑换") rs)
                                 (count_status (js "错误") rs)
                                 (count_status (js "未知") rs)]
  | Throw _ => True
  | Exhausted => False
  end.

(** [m] prints the attempts [a, a+1, ...] of [checkBalance], at most [n]
    of them, whatever it returns. *)
Definition attempts_within {W A} (a : Z) (n : nat) (m : M (W:=W) A) : Prop :=
  forall s,
    exists evs k,
      console (snd (m s)) = console s ++ evs
      /\ attempts evs = numbers a k
      /\ (k <= n)%nat.

(** The statuses of the records of [redeemCard]. *)
Definition redeem_status (st : jsstring) : Prop :=
  st = js "已兑换" \/ st = js "失败" \/ st = js "未知"
  \/ st = js "兑换失败".

(** An event that is neither the start of a redemption nor its
    failure. *)
Definition redeem_quiet (e : LogEvent) : Prop :=
  match e with
  | LogRedeem _ | LogRedeemFailed _ => False
  | _ => True
  end.

(** The number of redemptions started and the messages of the failures
    printed, in the order of the console. *)
Fixpoint redeem_starts (evs : list LogEvent) : nat :=
  match evs with
  | [] => 0
  | LogRedeem _ :: t => S (redeem_starts t)
  | _ :: t => redeem_starts t
  end.

Fixpoint redeem_errors (evs : list LogEvent) : list jsstring :=
  match evs with
  | [] => []
  | LogRedeemFailed msg :: t => msg :: redeem_errors t
  | _ :: t => redeem_errors t
  end.

(** The record [redeemCard] returns when the last attempt has failed. *)
Definition redeemErrorRecord (code_ msg now : jsstring) : RedeemRecord :=
  {| r_code := maskCode code_;
     r_status := js "兑换失败";
     r_message := Some msg;
     r_timestamp := now |}.

(** What the loop of [redeemBatch] returns, from the list [acc]: one
    record of [redeemCard] more for each code, in order. *)
Definition redeemLoop_post {W} (codes : list jsstring)
    (acc : list RedeemRecord) (s : State W)
    (out : Res (list RedeemRecord) * State W) : Prop :=
  match fst out with
  | Ok all =>
      exists rs,
        all = acc ++ rs
        /\ List.length rs = List.length codes
        /\ map r_code rs = map maskCode codes
        /\ Forall (fun r => redeem_status (r_status r)) rs
        /\ exists evs, console (snd out) = console s ++ evs
  | Throw _ => True
  | Exhausted => False
  end.

(** What [redeemBatch] leaves when it returns: one record for each code,
    and a console that ends with the summary of the records. *)
Definition redeemBatch_post {W} (codes : list jsstring) (s : State W)
    (out : Res (list RedeemRecord) * State W) : Prop :=
  match fst out with
  | Ok rs =>
      List.length rs = List.length codes
      /\ map r_code rs = map maskCode codes
      /\ (exists evs,
             console (snd out) =
               console s ++ evs
                 ++ [LogRedemptionSummary
                       (Z.of_nat (List.length codes))
                       (count_rstatus (js "已兑换") rs)
                       (count_rstatus (js "失败") rs
                        + count_rstatus (js "兑换失败") rs)
                       (count_rstatus (js "未知") rs)])
      /\ count_rstatus (js "已兑换") rs
         + (count_rstatus (js "失败") rs + count_rstatus (js "兑换失败") rs)
         + count_rstatus (js "未知") rs
         = Z.of_nat (List.length codes)
  | Throw _ => True
  | Exhausted => False
  end.

(** The word [p] occurs in [s]. *)
Fixpoint occurs (p s : jsstring) : bool :=
  startsWith p s
  || match s with
     | [] => false
     | _ :: t => occurs p t
     end.

(** The object [output] of [saveResults] and the text [csv] of
    [saveCSV]. *)
Definition results_document (now : jsstring) (rs : list BalanceRecord)
  : Json :=
  JObject [
    (js "metadata", metadata now rs);
    (js "results", JArray (map json_of_record rs))
  ].

Definition csv_text (rs : list BalanceRecord) : jsstring :=
  fold_left (fun csv r => csv ++ csv_row r) rs csv_header.

(** The six fields of a row of the CSV file. *)
Definition row_fields (r : BalanceRecord) : list jsstring :=
  [code r; status r; or_empty (balance r); or_empty (currency r);
   or_empty (message r); timestamp r].

(** The number of line feeds of a text. *)
Definition line_feeds (s : jsstring) : nat :=
  List.length (filter (fun c => (c =? 10)%N) s).

(** Every probe of [selectors] returns [null], from the world [w] on; the
    result is the world after the last probe. *)
Fixpoint all_null {W} (env : Env W) (page : Page) (selectors : list jsstring)
    (w : W) : option W :=
  match selectors with
  | [] => Some w
  | selector :: rest =>
      match query env page selector w with
      | (inr None, w') => all_null env page rest w'
      | _ => None
      end
  end.

(** [m], run with a meter, prints a line for every pause it makes: the
    time it adds to the meter is the time of the pauses of the lines it
    prints. *)
Definition timed {W A} (m : M (W:=W * Z) A) : Prop :=
  forall s r s',
    m s = (r, s') ->
    exists evs,
      console s' = console s ++ evs
      /\ slept s' = slept s + pause_time evs.

(** * Properties *)

(** ** Masking *)

Section Masking.

Local Open Scope nat_scope.

Lemma four_elements (l : jsstring) :
  List.length l = 4 -> exists a b c d, l = [a; b; c; d].
Proof.
  destruct l as [|a [|b [|c [|d [|e l]]]]]; simpl; try discriminate.
  intros _; exists a, b, c, d; reflexivity.
Qed.

(** The value of [maskCode] on a code of eight code units or more. *)
Lemma maskCode_long (code_ : jsstring) :
  8 <= List.length code_ ->
  maskCode code_ =
    firstn 4 code_ ++ js "-****-****-" ++ skipn (List.length code_ - 4) code_.
Proof.
  intros Hlen. unfold maskCode, jslength.
  replace (Z.of_nat (List.length code_) <? 8)%Z with false
    by (symmetry; apply Z.ltb_ge; lia).
  destruct code_ as [|c code_]; [simpl in Hlen; lia|].
  cbn [orb]. unfold substring, substring_from.
  replace (Z.to_nat (Z.of_nat (List.length (c :: code_)) - 4))
    with (List.length (c :: code_) - 4) by lia.
  reflexivity.
Qed.

Lemma maskCode_short (code_ : jsstring) :
  List.length code_ < 8 -> maskCode code_ = js "****-****".
Proof.
  intros Hlen. unfold maskCode, jslength.
  replace (Z.of_nat (List.length code_) <? 8)%Z with true
    by (symmetry; apply Z.ltb_lt; lia).
  rewrite orb_true_r. reflexivity.
Qed.

Lemma maskCode_long_shape (code_ : jsstring) :
  8 <= List.length code_ ->
  exists a b c d e f g h,
    firstn 4 code_ = [a; b; c; d]
    /\ skipn (List.length code_ - 4) code_ = [e; f; g; h].
Proof.
  intros Hlen.
  destruct (four_elements (firstn 4 code_)) as (a & b & c & d & E1).
  { rewrite length_firstn. lia. }
  destruct (four_elements (skipn (List.length code_ - 4) code_))
    as (e & f & g & h & E2).
  { rewrite length_skipn. lia. }
  exists a, b, c, d, e, f, g, h; split; assumption.
Qed.

Lemma maskCode_long_idempotent (code_ : jsstring) :
  8 <= List.length code_ -> maskCode (maskCode code_) = maskCode code_.
Proof.
  intros Hlen. rewrite (maskCode_long code_ Hlen).
  destruct (maskCode_long_shape code_ Hlen)
    as (a & b & c & d & e & f & g & h & E1 & E2).
  rewrite E1, E2. reflexivity.
Qed.

End Masking.

(** C2, as stated: masking twice is masking once.  It fails on every code
    shorter than eight code units: the placeholder has nine, so masking it
    gives the long form. *)
Lemma maskCode_placeholder_not_fixed :
  maskCode (maskCode (js "abc")) <> maskCode (js "abc").
Proof. vm_compute. discriminate. Qed.

(** C2, amended: on a code of eight code units or more [maskCode] shows
    the first four and the last four around a fixed middle and is
    idempotent; on a shorter code it returns the fixed placeholder. *)
Theorem maskCode_spec (code_ : jsstring) :
  (8 <= jslength code_ ->
     maskCode code_ =
       firstn 4 code_ ++ js "-****-****-"
         ++ skipn (List.length code_ - 4) code_
     /\ maskCode (maskCode code_) = maskCode code_)
  /\ (jslength code_ < 8 -> maskCode code_ = js "****-****").
Proof.
  unfold jslength; split.
  - intros H; split.
    + apply maskCode_long; lia.
    + apply maskCode_long_idempotent; lia.
  - intros H; apply maskCode_short; lia.
Qed.

Lemma maskCode_spec_witness :
  (maskCode Scripted.card1 = js "X87L-****-****-VGCW"
   /\ maskCode (maskCode Scripted.card1) = maskCode Scripted.card1)
  /\ maskCode (js "1234567") = js "****-****".
Proof.
  split.
  - apply (proj1 (maskCode_spec Scripted.card1)). vm_compute. discriminate.
  - apply (proj2 (maskCode_spec (js "1234567"))). vm_compute. reflexivity.
Defined.

(** ** The classifier of the balance page *)

Section Classifier.

Lemma errorLoop_spec (pats : list pattern) (text : jsstring)
    (result : BalanceRecord) :
  errorLoop pats text result =
    if anyMatch pats text
    then Some (if test alreadyRedeemedPattern text
               then redeemedRecord result else invalidRecord result)
    else None.
Proof.
  induction pats as [|p pats IH]; simpl; [reflexivity|].
  destruct (test p text); simpl.
  - destruct (test alreadyRedeemedPattern text); reflexivity.
  - exact IH.
Qed.

Lemma balanceLoop_none (pats : list pattern) (symbol text : jsstring)
    (result : BalanceRecord) :
  anyMatch pats text = false -> balanceLoop pats symbol text result = None.
Proof.
  induction pats as [|p pats IH]; simpl; [reflexivity|].
  unfold test at 1. destruct (match_ text p); simpl; [discriminate|].
  exact IH.
Qed.

Lemma balanceLoop_some (pats : list pattern) (symbol text : jsstring)
    (result : BalanceRecord) :
  anyMatch pats text = true ->
  exists r, balanceLoop pats symbol text result = Some r
            /\ status r = js "有效" /\ currency r = Some symbol
            /\ code r = code result /\ timestamp r = timestamp result.
Proof.
  induction pats as [|p pats IH]; simpl; [discriminate|].
  unfold test at 1. destruct (match_ text p) as [m|]; simpl.
  - intros _. eexists; split; [reflexivity|]. simpl; auto.
  - exact IH.
Qed.

(** [parseBalanceResult] when no error pattern matches. *)
Lemma parseBalanceResult_no_error (now text html code_ : jsstring) :
  anyMatch errorPatterns text = false ->
  parseBalanceResult now text html code_ =
    let result := initialRecord now code_ in
    match balanceLoop cnBalancePatterns (js "¥") text result with
    | Some r => r
    | None =>
    match balanceLoop usBalancePatterns (js "$") text result with
    | Some r => r
    | None =>
    match match_ html htmlPattern with
    | Some htmlMatch =>
        {| code := code result;
           status := js "有效";
           balance := m1 htmlMatch;
           currency := Some (charAt0 (m0 htmlMatch));
           message := Some (js "余额: " ++ m0 htmlMatch);
           timestamp := timestamp result |}
    | None =>
        {| code := code result;
           status := js "未知";
           balance := balance result;
           currency := currency result;
           message := Some (js "无法解析查询结果");
           timestamp := timestamp result |}
    end end end.
Proof.
  intros H. unfold parseBalanceResult.
  rewrite errorLoop_spec, H. reflexivity.
Qed.

Lemma anyMatch_cases (pats : list pattern) (text : jsstring) :
  anyMatch pats text = true \/ anyMatch pats text = false.
Proof. destruct (anyMatch pats text); auto. Qed.

(** A text that matches an error pattern is classified by the error
    loop alone. *)
Lemma parseBalanceResult_error (now text html code_ : jsstring) :
  anyMatch errorPatterns text = true ->
  parseBalanceResult now text html code_ =
    if test alreadyRedeemedPattern text
    then redeemedRecord (initialRecord now code_)
    else invalidRecord (initialRecord now code_).
Proof.
  intros H. unfold parseBalanceResult.
  rewrite errorLoop_spec, H. reflexivity.
Qed.

(** The pattern of the inner test is the third error pattern. *)
Lemma alreadyRedeemed_is_error (text : jsstring) :
  test alreadyRedeemedPattern text = true ->
  anyMatch errorPatterns text = true.
Proof.
  intros H. unfold anyMatch, errorPatterns. cbn [existsb].
  change (Pattern
            (alts [seqs [word "已"; any_star; word "兑换"];
                   seqs [word "already"; any_star; word "redeemed"]]) true)
    with alreadyRedeemedPattern.
  rewrite H. rewrite !orb_true_r. reflexivity.
Qed.

Lemma expired_is_error (text : jsstring) :
  test expiredPattern text = true -> anyMatch errorPatterns text = true.
Proof.
  intros H. unfold anyMatch, errorPatterns. cbn [existsb].
  change (Pattern (alts [word "过期"; word "expired"]) true)
    with expiredPattern.
  rewrite H. rewrite !orb_true_r. reflexivity.
Qed.

(** The lookup half of the priority rule: whatever else it matches, a
    text that matches the already-redeemed pattern gets that status. *)
Lemma parseBalanceResult_alreadyRedeemed_first
    (now text html code_ : jsstring) :
  test alreadyRedeemedPattern text = true ->
  parseBalanceResult now text html code_
    = redeemedRecord (initialRecord now code_).
Proof.
  intros H. rewrite parseBalanceResult_error
    by (apply alreadyRedeemed_is_error; exact H).
  rewrite H. reflexivity.
Qed.

(** Every record of the classifier carries the masked code. *)
Lemma parseBalanceResult_code (now text html code_ : jsstring) :
  code (parseBalanceResult now text html code_) = maskCode code_.
Proof.
  destruct (anyMatch_cases errorPatterns text) as [He|He].
  - rewrite (parseBalanceResult_error now text html code_ He).
    destruct (test alreadyRedeemedPattern text); reflexivity.
  - rewrite (parseBalanceResult_no_error now text html code_ He). cbv zeta.
    destruct (anyMatch_cases cnBalancePatterns text) as [Hc|Hc].
    + destruct (balanceLoop_some cnBalancePatterns (js "¥") text
                  (initialRecord now code_) Hc) as (r & -> & _ & _ & Hr & _).
      exact Hr.
    + rewrite (balanceLoop_none _ _ _ _ Hc).
      destruct (anyMatch_cases usBalancePatterns text) as [Hu|Hu].
      * destruct (balanceLoop_some usBalancePatterns (js "$") text
                    (initialRecord now code_) Hu)
          as (r & -> & _ & _ & Hr & _).
        exact Hr.
      * rewrite (balanceLoop_none _ _ _ _ Hu).
        destruct (match_ html htmlPattern); reflexivity.
Qed.

Lemma successLoop_code (pats : list pattern) (text : jsstring)
    (result r : RedeemRecord) :
  successLoop pats text result = Some r -> r_code r = r_code result.
Proof.
  induction pats as [|p pats IH]; simpl; [discriminate|].
  destruct (test p text); [|exact IH].
  intros E; inversion E; reflexivity.
Qed.

Lemma failureLoop_code (pats : list (pattern * jsstring)) (text : jsstring)
    (result r : RedeemRecord) :
  failureLoop pats text result = Some r -> r_code r = r_code result.
Proof.
  induction pats as [|[p msg] pats IH]; simpl; [discriminate|].
  destruct (test p text); [|exact IH].
  intros E; inversion E; reflexivity.
Qed.

Lemma parseRedemptionResult_code (now text html code_ : jsstring) :
  r_code (parseRedemptionResult now text html code_) = maskCode code_.
Proof.
  unfold parseRedemptionResult.
  destruct (successLoop _ _ _) as [r|] eqn:Es.
  - apply successLoop_code in Es. exact Es.
  - destruct (failureLoop _ _ _) as [r|] eqn:Ef.
    + apply failureLoop_code in Ef. exact Ef.
    + reflexivity.
Qed.

End Classifier.

(** C6: a text that matches an error pattern is never classified as
    valid and carries neither amount nor currency, whatever amounts it
    shows: the result is one of the two records of the error loop, and
    the amount patterns are not consulted. *)
Theorem parseBalanceResult_error_before_amount
    (now text html code_ : jsstring) :
  anyMatch errorPatterns text = true ->
  let r := parseBalanceResult now text html code_ in
  (r = redeemedRecord (initialRecord now code_)
   \/ r = invalidRecord (initialRecord now code_))
  /\ status r <> js "有效"
  /\ balance r = None
  /\ currency r = None.
Proof.
  intros H r. subst r. rewrite (parseBalanceResult_error now text html code_ H).
  destruct (test alreadyRedeemedPattern text); simpl;
    (split; [auto|]; split; [vm_compute; discriminate | auto]).
Qed.

Lemma parseBalanceResult_error_before_amount_witness :
  let text := js "¥88.00 invalid" in
  anyMatch cnBalancePatterns text = true
  /\ status (parseBalanceResult Scripted.clock text [] Scripted.card1)
       <> js "有效"
  /\ balance (parseBalanceResult Scripted.clock text [] Scripted.card1) = None
  /\ currency (parseBalanceResult Scripted.clock text [] Scripted.card1) = None.
Proof.
  intros text. split; [vm_compute; reflexivity|].
  apply (parseBalanceResult_error_before_amount
           Scripted.clock text [] Scripted.card1).
  vm_compute. reflexivity.
Defined.

(** C10: the status of a balance record is one of 已兑换, 无效, 有效 and
    未知; a text that matches an error pattern but not the
    already-redeemed one is 无效, the expired pattern included. *)
Theorem parseBalanceResult_status_range (now text html code_ : jsstring) :
  let r := parseBalanceResult now text html code_ in
  (status r = js "已兑换" \/ status r = js "无效"
   \/ status r = js "有效" \/ status r = js "未知")
  /\ (anyMatch errorPatterns text = true ->
      test alreadyRedeemedPattern text = false ->
      status r = js "无效")
  /\ (test expiredPattern text = true ->
      test alreadyRedeemedPattern text = false ->
      status r = js "无效").
Proof.
  intros r. subst r. split; [|split].
  - destruct (anyMatch_cases errorPatterns text) as [He|He].
    + rewrite (parseBalanceResult_error now text html code_ He).
      destruct (test alreadyRedeemedPattern text); simpl; auto.
    + rewrite (parseBalanceResult_no_error now text html code_ He).
      cbv zeta.
      destruct (anyMatch_cases cnBalancePatterns text) as [Hc|Hc].
      * destruct (balanceLoop_some cnBalancePatterns (js "¥") text
                    (initialRecord now code_) Hc) as (r & -> & Hs & _).
        auto.
      * rewrite (balanceLoop_none _ _ _ _ Hc).
        destruct (anyMatch_cases usBalancePatterns text) as [Hu|Hu].
        -- destruct (balanceLoop_some usBalancePatterns (js "$") text
                       (initialRecord now code_) Hu) as (r & -> & Hs & _).
           auto.
        -- rewrite (balanceLoop_none _ _ _ _ Hu).
           destruct (match_ html htmlPattern); simpl; auto.
  - intros He Ha.
    rewrite (parseBalanceResult_error now text html code_ He), Ha.
    reflexivity.
  - intros Hx Ha.
    rewrite (parseBalanceResult_error now text html code_
               (expired_is_error text Hx)), Ha.
    reflexivity.
Qed.

Lemma parseBalanceResult_status_range_witness :
  status (parseBalanceResult Scripted.clock (js "此卡已过期") []
            Scripted.card1) = js "无效"
  /\ status (parseBalanceResult Scripted.clock (js "system error: expired")
               [] Scripted.card1) = js "无效".
Proof.
  split.
  - apply (proj2 (proj2 (parseBalanceResult_status_range
                           Scripted.clock (js "此卡已过期") []
                           Scripted.card1)));
      vm_compute; reflexivity.
  - apply (proj1 (proj2 (parseBalanceResult_status_range
                           Scripted.clock (js "system error: expired") []
                           Scripted.card1)));
      vm_compute; reflexivity.
Defined.

(** ** Reasoning about the methods *)

Section Runs.
Context {W : Type}.

Variable P : LogEvent -> Prop.

Lemma runs_ret {A} (Q : A -> Prop) (a : A) : Q a -> runs (W:=W) P Q (ret a).
Proof.
  intros HQ s r s' E. inversion E; subst; clear E.
  repeat split; auto. exists []. rewrite app_nil_r. auto.
Qed.

Lemma runs_throw {A} (Q : A -> Prop) (e : Error) :
  runs (W:=W) P Q (throw e).
Proof.
  intros s r s' E. inversion E; subst; clear E.
  repeat split; auto. exists []. rewrite app_nil_r. auto.
Qed.

Lemma runs_bind {A B} (QA : A -> Prop) (QB : B -> Prop)
    (m : M (W:=W) A) (k : A -> M (W:=W) B) :
  runs P QA m -> (forall a, QA a -> runs P QB (k a)) -> runs P QB (bind m k).
Proof.
  intros Hm Hk s r s' E. unfold bind in E.
  destruct (m s) as [[a|e|] s1] eqn:Em.
  - destruct (Hm _ _ _ Em) as (Hb & Hr & (evs & Hc & Hf) & Ha).
    destruct (Hk a Ha _ _ _ E) as (Hb' & Hr' & (evs' & Hc' & Hf') & Hq).
    repeat split; try congruence.
    exists (evs ++ evs'). rewrite Hc', Hc, app_assoc. split; auto.
    apply Forall_app; auto.
  - inversion E; subst; clear E.
    destruct (Hm _ _ _ Em) as (Hb & Hr & Hc & _). auto.
  - destruct (Hm _ _ _ Em) as (_ & _ & _ & []).
Qed.

Lemma runs_try_catch {A} (Q : A -> Prop) (m : M (W:=W) A)
    (h : Error -> M (W:=W) A) :
  runs P Q m -> (forall e, runs P Q (h e)) -> runs P Q (try_catch m h).
Proof.
  intros Hm Hh s r s' E. unfold try_catch in E.
  destruct (m s) as [[a|e|] s1] eqn:Em.
  - inversion E; subst; clear E. exact (Hm _ _ _ Em).
  - destruct (Hm _ _ _ Em) as (Hb & Hr & (evs & Hc & Hf) & _).
    destruct (Hh e _ _ _ E) as (Hb' & Hr' & (evs' & Hc' & Hf') & Hq).
    repeat split; try congruence.
    exists (evs ++ evs'). rewrite Hc', Hc, app_assoc. split; auto.
    apply Forall_app; auto.
  - destruct (Hm _ _ _ Em) as (_ & _ & _ & []).
Qed.

Lemma runs_await {A} (Q : A -> Prop) (c : call W A) :
  (forall a, Q a) -> runs P Q (await c).
Proof.
  intros HQ s r s' E. unfold await in E.
  destruct (c (world s)) as [[e|a] w]; inversion E; subst; clear E; simpl;
    repeat split; auto; exists []; rewrite app_nil_r; auto.
Qed.

Lemma runs_perform {A} (Q : A -> Prop) (c : W -> A * W) :
  (forall a, Q a) -> runs P Q (perform c).
Proof.
  intros HQ s r s' E. unfold perform in E.
  destruct (c (world s)) as [a w]; inversion E; subst; clear E; simpl.
  repeat split; auto; exists []; rewrite app_nil_r; auto.
Qed.

Lemma runs_log (Q : unit -> Prop) (e : LogEvent) :
  P e -> Q tt -> runs (W:=W) P Q (log e).
Proof.
  intros He HQ s r s' E. inversion E; subst; clear E; simpl.
  repeat split; auto. exists [e]. auto.
Qed.

Lemma runs_get_browser (Q : option Browser -> Prop) :
  (forall b, Q b) -> runs (W:=W) P Q get_browser.
Proof.
  intros HQ s r s' E. inversion E; subst; clear E.
  repeat split; auto. exists []. rewrite app_nil_r. auto.
Qed.

Lemma runs_weaken {A} (Q Q' : A -> Prop) (m : M (W:=W) A) :
  (forall a, Q a -> Q' a) -> runs P Q m -> runs P Q' m.
Proof.
  intros HQ Hm s r s' E. destruct (Hm _ _ _ E) as (Hb & Hr & Hc & Hq).
  repeat split; auto. destruct r; auto.
Qed.

End Runs.

(** One step of a proof of [runs]: the rule of the head construct. *)
Ltac runs_step :=
  lazymatch goal with
  | |- runs _ _ (bind _ _) =>
      apply runs_bind with (QA := fun _ => True); [|intros ? _]
  | |- runs _ _ (try_catch _ _) => apply runs_try_catch; [|intros ?]
  | |- runs _ _ (ret _) => apply runs_ret
  | |- runs _ _ (throw _) => apply runs_throw
  | |- runs _ _ (await _) => apply runs_await; intros ?
  | |- runs _ _ (perform _) => apply runs_perform; intros ?
  | |- runs _ _ (delay _ _) => apply runs_perform; intros ?
  | |- runs _ _ (log _) => apply runs_log
  | |- runs _ _ get_browser => apply runs_get_browser; intros ?
  | |- runs _ _ (if ?b then _ else _) => destruct b
  | |- runs _ _ (match ?x with Some _ => _ | None => _ end) => destruct x
  | |- runs _ _ (match ?x with [] => _ | _ :: _ => _ end) => destruct x
  | |- runs _ _ (let _ := _ in _) => cbv zeta
  end.

Ltac runs_auto := repeat (runs_step; try exact I; try (simpl; exact I)).

Lemma attempts_app (l1 l2 : list LogEvent) :
  attempts (l1 ++ l2) = attempts l1 ++ attempts l2.
Proof.
  induction l1 as [|e l1 IH]; simpl; [reflexivity|].
  destruct e; simpl; rewrite ?IH; reflexivity.
Qed.

Lemma errors_app (l1 l2 : list LogEvent) :
  errors (l1 ++ l2) = errors l1 ++ errors l2.
Proof.
  induction l1 as [|e l1 IH]; simpl; [reflexivity|].
  destruct e; simpl; rewrite ?IH; reflexivity.
Qed.

Lemma quiet_attempts (evs : list LogEvent) :
  Forall quiet evs -> attempts evs = [] /\ errors evs = [].
Proof.
  induction 1 as [|e evs He _ IH]; simpl; [auto|].
  destruct e; simpl in He; try contradiction; exact IH.
Qed.


(** ** The steps of [checkBalance] and [redeemCard] *)

Section Steps.
Context {W : Type}.
Variable env : Env W.
Variable cfg : Config.
Variable P : LogEvent -> Prop.

Lemma probeInput_runs (page : Page) (selectors : list jsstring) :
  (forall sel, P (LogInputFound sel)) ->
  runs P (fun _ => True) (probeInput env page selectors).
Proof.
  intros HP. induction selectors as [|sel rest IH]; simpl.
  - runs_auto.
  - runs_step.
    + runs_auto. apply HP.
    + destruct a; [runs_auto | exact IH].
Qed.

Lemma clickFirst_runs (clicked : jsstring -> LogEvent) (page : Page)
    (selectors : list jsstring) :
  (forall sel, P (clicked sel)) ->
  runs P (fun _ => True) (clickFirst env clicked page selectors).
Proof.
  intros HP. induction selectors as [|sel rest IH]; simpl.
  - runs_auto.
  - runs_step.
    + runs_auto. apply HP.
    + destruct a; [runs_auto | exact IH].
Qed.

Lemma locateInput_runs (page : Page) :
  (forall sel, P (LogInputFound sel)) -> P LogFirstTextInput ->
  runs P (fun _ => True) (locateInput env page).
Proof.
  intros HP HF. unfold locateInput.
  runs_step; [apply probeInput_runs; exact HP|].
  runs_step.
  - runs_auto. exact HF.
  - runs_auto.
Qed.

Lemma checkIfLoginRequired_runs (page : Page) (selectors : list jsstring) :
  runs P (fun _ => True) (checkIfLoginRequired_loop env page selectors).
Proof.
  induction selectors as [|sel rest IH]; simpl.
  - runs_auto.
  - runs_step.
    + runs_auto.
    + destruct a; [runs_auto | exact IH].
Qed.

Lemma firstElement_runs (page : Page) (selectors : list jsstring) :
  runs P (fun _ => True) (firstElement env page selectors).
Proof.
  induction selectors as [|sel rest IH]; simpl.
  - runs_auto.
  - runs_step; [runs_auto|].
    destruct a; [runs_auto | exact IH].
Qed.

End Steps.

Ltac checker_step :=
  first
    [ runs_step
    | apply locateInput_runs
    | apply clickFirst_runs
    | apply probeInput_runs
    | apply checkIfLoginRequired_runs
    | apply firstElement_runs ].

Ltac checker_auto :=
  repeat (checker_step; try exact I; try (simpl; exact I);
          try (intros ?; exact I)).

Section Attempts.
Context {W : Type}.
Variable env : Env W.
Variable cfg : Config.

(** The [try] block of [checkBalance] prints the line of its attempt
    first and neither another such line nor an error after it; what it
    returns is the classification of some page. *)
Lemma checkBalance_try_runs (page : Page) (code_ : jsstring) (attempt : Z)
    (s : State W) (r : Res BalanceRecord) (s' : State W) :
  checkBalance_try env cfg page code_ attempt s = (r, s') ->
  browser s' = browser s
  /\ results s' = results s
  /\ (exists evs,
        console s' =
          console s ++ LogCheck (maskCode code_) attempt (retryAttempts cfg)
                         :: evs
        /\ Forall quiet evs)
  /\ match r with
     | Ok a => exists now text html,
                 a = parseBalanceResult now text html code_
     | Throw _ => True
     | Exhausted => False
     end.
Proof.
  unfold checkBalance_try. intros E.
  unfold bind at 1, log at 1 in E. cbv beta iota in E.
  match type of E with
  | ?m ?s1 = _ =>
      assert (R : runs quiet
                    (fun a => exists now text html,
                                a = parseBalanceResult now text html code_) m)
  end.
  { checker_auto. do 3 eexists; reflexivity. }
  destruct (R _ _ _ E) as (Hb & Hr & (evs & Hc & Hf) & Hq).
  simpl in Hb, Hr, Hc.
  repeat split; auto.
  exists evs. rewrite Hc, <- app_assoc. auto.
Qed.

Lemma checkBalance_try_masked (page : Page) (code_ : jsstring)
    (attempt : Z) :
  runs (fun _ => True) (fun r => code r = maskCode code_)
       (checkBalance_try env cfg page code_ attempt).
Proof.
  unfold checkBalance_try. checker_auto. apply parseBalanceResult_code.
Qed.

(** In every environment [checkBalance] stays within its budget, leaves
    the fields of the checker as they were, and a record it returns
    carries the mask of its code. *)
Lemma checkBalance_rec_runs (code_ : jsstring) (budget : nat) :
  forall attempt : Z,
    (Z.to_nat (retryAttempts cfg - attempt) <= budget)%nat ->
    runs (fun _ => True) (fun r => code r = maskCode code_)
         (checkBalance_rec env cfg budget code_ attempt).
Proof.
  induction budget as [|budget IH]; intros attempt Hbudget;
    cbn [checkBalance_rec];
    (runs_step; [unfold browser_newPage; checker_auto|]);
    (runs_step; [apply checkBalance_try_masked|]);
    do 3 (runs_step; [checker_auto|]);
    destruct (Z.ltb_spec attempt (retryAttempts cfg)); try lia;
    try (checker_auto; reflexivity).
  do 2 (runs_step; [checker_auto|]). apply IH. lia.
Qed.

Lemma checkBalance_within_budget (code_ : jsstring) (attempt : Z)
    (s : State W) :
  fst (checkBalance env cfg code_ attempt s) <> Exhausted.
Proof.
  unfold checkBalance.
  destruct (checkBalance_rec env cfg _ code_ attempt s) as [r s'] eqn:E.
  pose proof (@checkBalance_rec_runs code_ _ attempt (Nat.le_refl _)) as R.
  destruct (R _ _ _ E) as (_ & _ & _ & Hq).
  simpl. intros ->. exact Hq.
Qed.

(** Opening and closing a page work. *)
Hypothesis newPage_works :
  forall b w, exists p w', newPage env b w = (inr p, w').
Hypothesis closePage_works :
  forall p w, exists w', closePage env p w = (inr tt, w').

Lemma browser_newPage_ok (s : State W) (b : Browser) :
  browser s = Some b ->
  exists p s1,
    browser_newPage env s = (Ok p, s1)
    /\ browser s1 = browser s /\ results s1 = results s
    /\ console s1 = console s.
Proof.
  intros Hb. unfold browser_newPage, bind, get_browser. rewrite Hb.
  unfold await. destruct (newPage_works b (world s)) as (p & w' & ->).
  do 2 eexists; split; [reflexivity|]. simpl. auto.
Qed.

(** The [catch] block up to the closing of the page: it prints the error
    (the event [ev]) and goes on with what follows. *)
Lemma catch_prefix_ok {A} (K : M (W:=W) A) (ev : LogEvent) (page : Page)
    (prefix : jsstring) (s : State W) :
  exists s1,
    (log ev;;
     (if screenshotOnError cfg
      then try_catch (await (screenshot env page prefix))
                     (fun _ => log LogScreenshotFailed)
      else ret tt);;
     await (closePage env page);;
     K) s = K s1
    /\ browser s1 = browser s /\ results s1 = results s
    /\ exists evs,
         console s1 = console s ++ ev :: evs
         /\ Forall quiet evs.
Proof.
  unfold bind at 1, log at 1. cbv beta iota.
  unfold bind at 1.
  destruct (screenshotOnError cfg).
  - unfold try_catch, await at 1. cbn [world console browser results].
    destruct (screenshot env page prefix (world s)) as [[e|[]] w].
    + unfold log at 1. unfold bind at 1, await at 1.
      cbn [world console browser results].
      destruct (closePage_works page w) as (w' & ->).
      eexists; split; [reflexivity|]. simpl. repeat split; auto.
      exists [LogScreenshotFailed]. rewrite <- app_assoc. simpl.
      split; auto. constructor; simpl; auto.
    + unfold bind at 1, await at 1.
      cbn [world console browser results].
      destruct (closePage_works page w) as (w' & ->).
      eexists; split; [reflexivity|]. simpl. repeat split; auto.
      exists []. auto.
  - unfold ret at 1. unfold bind at 1, await at 1.
    cbn [world console browser results].
    destruct (closePage_works page (world s)) as (w' & ->).
    eexists; split; [reflexivity|]. simpl. repeat split; auto.
    exists []. auto.
Qed.

(** With a page that opens and closes, [checkBalance] returns a record
    of the code it was given, within its budget. *)
Lemma checkBalance_rec_returns (code_ : jsstring) (budget : nat) :
  forall (attempt : Z) (s : State W) (b : Browser),
    browser s = Some b ->
    (Z.to_nat (retryAttempts cfg - attempt) <= budget)%nat ->
    exists r s',
      checkBalance_rec env cfg budget code_ attempt s = (Ok r, s')
      /\ browser s' = browser s /\ results s' = results s
      /\ code r = maskCode code_.
Proof.
  induction budget as [|budget IH]; intros attempt s b Hb Hbudget;
    destruct (browser_newPage_ok s Hb) as (p & s1 & Ep & Hb1 & Hr1 & _);
    simpl; unfold bind at 1; rewrite Ep; unfold try_catch at 1;
    destruct (checkBalance_try env cfg p code_ attempt s1)
      as [[a|e|] s2] eqn:Et;
    destruct (checkBalance_try_runs _ _ _ _ Et) as (Hb2 & Hr2 & _ & Hq);
    try contradiction.
  - destruct Hq as (now & text & html & ->).
    do 2 eexists; split; [reflexivity|].
    rewrite parseBalanceResult_code. repeat split; congruence.
  - match goal with
    | |- context [bind (log _) (fun _ => bind ?sc (fun _ =>
                    bind (await (closePage env p)) (fun _ => ?K))) s2] =>
        destruct (catch_prefix_ok K (LogError (error_message e)) p
                    (js "screenshots/error_") s2)
          as (s3 & -> & Hb3 & Hr3 & _)
    end.
    destruct (Z.ltb_spec attempt (retryAttempts cfg)); [lia|].
    unfold bind, perform. destruct (toISOString env (world s3)) as [now w].
    do 2 eexists; split; [reflexivity|]. simpl. repeat split; congruence.
  - destruct Hq as (now & text & html & ->).
    do 2 eexists; split; [reflexivity|].
    rewrite parseBalanceResult_code. repeat split; congruence.
  - match goal with
    | |- context [bind (log _) (fun _ => bind ?sc (fun _ =>
                    bind (await (closePage env p)) (fun _ => ?K))) s2] =>
        destruct (catch_prefix_ok K (LogError (error_message e)) p
                    (js "screenshots/error_") s2)
          as (s3 & -> & Hb3 & Hr3 & _)
    end.
    destruct (Z.ltb_spec attempt (retryAttempts cfg)).
    + unfold bind at 1, log at 1. cbv beta iota.
      unfold bind at 1, delay, perform at 1. cbv beta iota.
      cbn [world console browser results].
      match goal with
      | |- context [checkBalance_rec env cfg budget code_ (attempt + 1) ?s4] =>
          destruct (IH (attempt + 1) s4 b) as (r & s' & -> & Hb' & Hr' & Hc)
      end.
      * simpl. congruence.
      * lia.
      * simpl in Hb', Hr'.
        do 2 eexists; split; [reflexivity|]. repeat split; congruence.
    + unfold bind, perform. destruct (toISOString env (world s3)) as [now w].
      do 2 eexists; split; [reflexivity|]. simpl. repeat split; congruence.
Qed.

Lemma last_cons_nonempty (x : jsstring) (l : list jsstring) :
  l <> [] -> last (x :: l) [] = last l [].
Proof. destruct l; [congruence | reflexivity]. Qed.

(** When the [try] block throws at every attempt, the attempts printed
    are [attempt, ..., retryAttempts], one error is printed for each, and
    the record returned carries the message of the last one. *)
Lemma checkBalance_rec_all_fail (code_ : jsstring) :
  (forall page attempt s,
      exists e s', checkBalance_try env cfg page code_ attempt s
                   = (Throw e, s')) ->
  forall (budget : nat) (attempt : Z) (s : State W) (b : Browser),
    browser s = Some b ->
    attempt <= retryAttempts cfg ->
    budget = Z.to_nat (retryAttempts cfg - attempt) ->
    exists msg now s' evs,
      checkBalance_rec env cfg budget code_ attempt s
        = (Ok (errorRecord code_ msg now), s')
      /\ console s' = console s ++ evs
      /\ attempts evs = numbers attempt (S budget)
      /\ List.length (errors evs) = S budget
      /\ last (errors evs) [] = msg.
Proof.
  intros Hfail.
  induction budget as [|budget IH]; intros attempt s b Hb Hle Hbudget;
    destruct (browser_newPage_ok s Hb) as (p & s1 & Ep & Hb1 & Hr1 & Hc1);
    simpl; unfold bind at 1; rewrite Ep; unfold try_catch at 1;
    destruct (Hfail p attempt s1) as (e & s2 & Et); rewrite Et;
    destruct (checkBalance_try_runs _ _ _ _ Et)
      as (Hb2 & Hr2 & (evs0 & Hc2 & Hq0) & _);
    destruct (quiet_attempts Hq0) as (Ha0 & He0);
    match goal with
    | |- context [bind (log _) (fun _ => bind ?sc (fun _ =>
                    bind (await (closePage env p)) (fun _ => ?K))) s2] =>
        destruct (catch_prefix_ok K (LogError (error_message e)) p
                    (js "screenshots/error_") s2)
          as (s3 & -> & Hb3 & Hr3 & (evs1 & Hc3 & Hq1))
    end;
    destruct (quiet_attempts Hq1) as (Ha1 & He1).
  - destruct (Z.ltb_spec attempt (retryAttempts cfg)); [lia|].
    unfold bind, perform. destruct (toISOString env (world s3)) as [now w].
    exists (error_message e), now. do 2 eexists; split; [reflexivity|].
    cbn [console]. rewrite Hc3, Hc2, Hc1, <- app_assoc. split; [reflexivity|].
    cbn [app attempts errors]. rewrite attempts_app, errors_app.
    cbn [attempts errors]. rewrite Ha0, He0, Ha1, He1. auto.
  - destruct (Z.ltb_spec attempt (retryAttempts cfg)); [|lia].
    unfold bind at 1, log at 1. cbv beta iota.
    unfold bind at 1, delay, perform at 1. cbv beta iota.
    cbn [world console browser results].
    match goal with
    | |- context [checkBalance_rec env cfg budget code_ (attempt + 1) ?s4] =>
        destruct (IH (attempt + 1) s4 b)
          as (msg & now & s' & evs & -> & Hc & Ha & Hl & Hm)
    end.
    + simpl. congruence.
    + lia.
    + lia.
    + cbn [console] in Hc.
      exists msg, now. do 2 eexists; split; [reflexivity|].
      rewrite Hc, Hc3, Hc2, Hc1. rewrite <- !app_assoc.
      split; [reflexivity|].
      cbn [app attempts errors]. rewrite attempts_app, errors_app.
      cbn [app attempts errors]. rewrite attempts_app, errors_app.
      cbn [app attempts errors].
      rewrite Ha0, He0, Ha1, He1, Ha. cbn [app List.length numbers].
      rewrite Hl. repeat split; auto.
      rewrite last_cons_nonempty; [exact Hm|].
      intros Hnil. rewrite Hnil in Hl. discriminate.
Qed.

(** *** Redemption *)

Lemma loginToApple_runs (page : Page) (appleId password : jsstring) :
  runs (fun _ => True) (fun _ => True)
       (loginToApple env page appleId password).
Proof. unfold loginToApple. checker_auto. Qed.

Lemma redeemCard_try_runs (page : Page) (code_ appleId password : jsstring) :
  runs (fun _ => True) (fun r => r_code r = maskCode code_)
       (redeemCard_try env cfg page code_ appleId password).
Proof.
  unfold redeemCard_try, checkIfLoginRequired. checker_auto.
  - apply loginToApple_runs.
  - apply parseRedemptionResult_code.
Qed.

(** [redeemCard] stays within its budget in every environment. *)
Lemma redeemCard_rec_runs (code_ appleId password : jsstring)
    (budget : nat) :
  forall attempt : Z,
    (Z.to_nat (retryAttempts cfg - attempt) <= budget)%nat ->
    runs (fun _ => True) (fun r => r_code r = maskCode code_)
         (redeemCard_rec env cfg budget code_ appleId password attempt).
Proof.
  induction budget as [|budget IH]; intros attempt Hbudget;
    cbn [redeemCard_rec];
    (runs_step; [unfold browser_newPage; checker_auto|]);
    (runs_step; [apply redeemCard_try_runs|]);
    do 3 (runs_step; [checker_auto|]);
    destruct (Z.ltb_spec attempt (retryAttempts cfg)); try lia;
    try (checker_auto; reflexivity).
  do 2 (runs_step; [checker_auto|]). apply IH. lia.
Qed.

Lemma redeemCard_within_budget (code_ appleId password : jsstring)
    (attempt : Z) (s : State W) :
  fst (redeemCard env cfg code_ appleId password attempt s) <> Exhausted.
Proof.
  unfold redeemCard.
  destruct (redeemCard_rec env cfg _ code_ appleId password attempt s)
    as [r s'] eqn:E.
  pose proof (@redeemCard_rec_runs code_ appleId password _ attempt
                (Nat.le_refl _)) as R.
  destruct (R _ _ _ E) as (_ & _ & _ & Hq).
  simpl. intros ->. exact Hq.
Qed.

Lemma redeemCard_rec_returns (code_ appleId password : jsstring)
    (budget : nat) :
  forall (attempt : Z) (s : State W) (b : Browser),
    browser s = Some b ->
    (Z.to_nat (retryAttempts cfg - attempt) <= budget)%nat ->
    exists r s',
      redeemCard_rec env cfg budget code_ appleId password attempt s
        = (Ok r, s')
      /\ browser s' = browser s /\ results s' = results s
      /\ r_code r = maskCode code_.
Proof.
  induction budget as [|budget IH]; intros attempt s b Hb Hbudget;
    destruct (browser_newPage_ok s Hb) as (p & s1 & Ep & Hb1 & Hr1 & _);
    simpl; unfold bind at 1; rewrite Ep; unfold try_catch at 1;
    destruct (redeemCard_try env cfg p code_ appleId password s1)
      as [[a|e|] s2] eqn:Et;
    pose proof (redeemCard_try_runs p code_ appleId password) as R;
    destruct (R _ _ _ Et) as (Hb2 & Hr2 & _ & Hq); clear R;
    try contradiction.
  - do 2 eexists; split; [reflexivity|]. repeat split; congruence.
  - match goal with
    | |- context [bind (log ?ev) (fun _ => bind ?sc (fun _ =>
                    bind (await (closePage env p)) (fun _ => ?K))) s2] =>
        destruct (catch_prefix_ok K ev p (js "screenshots/redeem_error_") s2)
          as (s3 & -> & Hb3 & Hr3 & _)
    end.
    destruct (Z.ltb_spec attempt (retryAttempts cfg)); [lia|].
    unfold bind, perform. destruct (toISOString env (world s3)) as [now w].
    do 2 eexists; split; [reflexivity|]. simpl. repeat split; congruence.
  - do 2 eexists; split; [reflexivity|]. repeat split; congruence.
  - match goal with
    | |- context [bind (log ?ev) (fun _ => bind ?sc (fun _ =>
                    bind (await (closePage env p)) (fun _ => ?K))) s2] =>
        destruct (catch_prefix_ok K ev p (js "screenshots/redeem_error_") s2)
          as (s3 & -> & Hb3 & Hr3 & _)
    end.
    destruct (Z.ltb_spec attempt (retryAttempts cfg)).
    + unfold bind at 1, log at 1. cbv beta iota.
      unfold bind at 1, delay, perform at 1. cbv beta iota.
      cbn [world console browser results].
      match goal with
      | |- context [redeemCard_rec env cfg budget code_ appleId password
                      (attempt + 1) ?s4] =>
          destruct (IH (attempt + 1) s4 b) as (r & s' & -> & Hb' & Hr' & Hc)
      end.
      * simpl. congruence.
      * lia.
      * simpl in Hb', Hr'.
        do 2 eexists; split; [reflexivity|]. repeat split; congruence.
    + unfold bind, perform. destruct (toISOString env (world s3)) as [now w].
      do 2 eexists; split; [reflexivity|]. simpl. repeat split; congruence.
Qed.

(** *** The batch loops *)

Lemma processLoop_returns (codes : list jsstring) :
  forall (i n : Z) (s : State W) (b : Browser),
    browser s = Some b ->
    exists rs s',
      processLoop env cfg codes i n s = (Ok tt, s')
      /\ browser s' = browser s
      /\ results s' = results s ++ rs
      /\ List.length rs = List.length codes
      /\ map code rs = map maskCode codes
      /\ Forall2 (checked env cfg) codes rs.
Proof.
  induction codes as [|c codes IH]; intros i n s b Hb.
  - exists [], s. simpl. rewrite app_nil_r. repeat split; auto.
  - simpl. unfold bind at 1, log at 1. cbv beta iota.
    unfold bind at 1, log at 1. cbv beta iota.
    cbn [world console browser results].
    unfold bind at 1.
    match goal with
    | |- context [checkBalance env cfg c 1 ?s1] =>
        destruct (@checkBalance_rec_returns c
                    (Z.to_nat (retryAttempts cfg - 1)) 1 s1 b)
          as (r & s2 & Er & Hb2 & Hr2 & Hc2); [exact Hb | lia |]
    end.
    unfold checkBalance at 1. rewrite Er.
    unfold bind at 1, get_results at 1. cbv beta iota.
    unfold bind at 1, set_results at 1. cbv beta iota.
    unfold bind at 1.
    assert (Hstep : exists s3,
               (if i <? n - 1
                then log (LogWait (delayBetweenCards cfg));;
                     delay env (delayBetweenCards cfg)
                else ret tt)
                 {| world := world s2; console := console s2;
                    browser := browser s2; results := results s2 ++ [r] |}
               = (Ok tt, s3)
               /\ browser s3 = browser s2
               /\ results s3 = results s2 ++ [r]).
    { destruct (i <? n - 1).
      - eexists; split; [reflexivity|]. simpl. auto.
      - eexists; split; [reflexivity|]. simpl. auto. }
    destruct Hstep as (s3 & -> & Hb3 & Hr3).
    destruct (IH (i + 1) n s3 b) as (rs & s' & -> & Hb' & Hr' & Hl & Hm & Hf).
    { simpl in Hb2. congruence. }
    exists (r :: rs), s'. split; [reflexivity|].
    simpl in Hb2, Hr2.
    repeat split.
    + congruence.
    + rewrite Hr', Hr3, Hr2, <- app_assoc. reflexivity.
    + simpl. congruence.
    + simpl. congruence.
    + constructor; [|exact Hf]. do 2 eexists. exact Er.
Qed.

Lemma redeemLoop_returns (appleId password : jsstring)
    (codes : list jsstring) :
  forall (i n : Z) (acc : list RedeemRecord) (s : State W) (b : Browser),
    browser s = Some b ->
    exists rs s',
      redeemLoop env cfg codes appleId password i n acc s
        = (Ok (acc ++ rs), s')
      /\ browser s' = browser s
      /\ results s' = results s
      /\ List.length rs = List.length codes
      /\ map r_code rs = map maskCode codes
      /\ Forall2 (redeemed env cfg appleId password) codes rs.
Proof.
  induction codes as [|c codes IH]; intros i n acc s b Hb.
  - exists [], s. simpl. rewrite app_nil_r. repeat split; auto.
  - simpl. unfold bind at 1, log at 1. cbv beta iota.
    unfold bind at 1, log at 1. cbv beta iota.
    cbn [world console browser results].
    unfold bind at 1.
    match goal with
    | |- context [redeemCard env cfg c appleId password 1 ?s1] =>
        destruct (@redeemCard_rec_returns c appleId password
                    (Z.to_nat (retryAttempts cfg - 1)) 1 s1 b)
          as (r & s2 & Er & Hb2 & Hr2 & Hc2); [exact Hb | lia |]
    end.
    unfold redeemCard at 1. rewrite Er.
    unfold bind at 1.
    assert (Hstep : exists s3,
               (if i <? n - 1
                then log (LogRedeemWait (delayBetweenCards cfg));;
                     delay env (delayBetweenCards cfg)
                else ret tt) s2 = (Ok tt, s3)
               /\ browser s3 = browser s2
               /\ results s3 = results s2).
    { destruct (i <? n - 1).
      - eexists; split; [reflexivity|]. simpl. auto.
      - eexists; split; [reflexivity|]. simpl. auto. }
    destruct Hstep as (s3 & -> & Hb3 & Hr3).
    destruct (IH (i + 1) n (acc ++ [r]) s3 b)
      as (rs & s' & -> & Hb' & Hr' & Hl & Hm & Hf).
    { simpl in Hb2. congruence. }
    exists (r :: rs), s'. rewrite <- app_assoc. split; [reflexivity|].
    simpl in Hb2, Hr2.
    repeat split.
    + congruence.
    + congruence.
    + simpl. congruence.
    + simpl. congruence.
    + constructor; [|exact Hf]. do 2 eexists. exact Er.
Qed.

(** C1, amended: when the browser is started, opening and closing a page
    work and the screenshot folder exists or can be made, [processBatch]
    and [redeemBatch] return one record for each code, in the order of the
    codes: the record number [i] is a record that [checkBalance] (or
    [redeemCard]) returns for the code number [i] and carries its mask. *)
Theorem batch_one_record_per_code (codes : list jsstring)
    (appleId password : jsstring) (s : State W) (b : Browser) :
  (forall name w, exists w', mkdirSync env name w = (inr tt, w')) ->
  browser s = Some b ->
  (exists rs s',
      processBatch env cfg codes s = (Ok rs, s')
      /\ results s' = rs
      /\ List.length rs = List.length codes
      /\ map code rs = map maskCode codes
      /\ Forall2 (checked env cfg) codes rs)
  /\ (exists rs s',
         redeemBatch env cfg codes appleId password s = (Ok rs, s')
         /\ List.length rs = List.length codes
         /\ map r_code rs = map maskCode codes
         /\ Forall2 (redeemed env cfg appleId password) codes rs).
Proof.
  intros Hmk Hb. split.
  - unfold processBatch.
    unfold bind at 1, log at 1. cbv beta iota.
    unfold bind at 1, perform at 1. cbn [world console browser results].
    destruct (existsSync env (js "screenshots") (world s)) as [present w].
    unfold bind at 1.
    assert (Hdir : exists w1,
               (if present then ret tt
                else await (mkdirSync env (js "screenshots")))
                 {| world := w;
                    console := console s
                               ++ [LogBatchStart
                                     (Z.of_nat (List.length codes))];
                    browser := browser s; results := results s |}
               = (Ok tt,
                  {| world := w1;
                     console := console s
                                ++ [LogBatchStart
                                      (Z.of_nat (List.length codes))];
                     browser := browser s; results := results s |})).
    { destruct present.
      - exists w. reflexivity.
      - unfold await. cbn [world console browser results].
        destruct (Hmk (js "screenshots") w) as (w1 & ->).
        exists w1. reflexivity. }
    destruct Hdir as (w1 & ->).
    unfold bind at 1, set_results at 1. cbv beta iota.
    cbn [world console browser results].
    unfold bind at 1.
    match goal with
    | |- context [processLoop env cfg codes 0 ?n ?s1] =>
        destruct (processLoop_returns codes 0 n s1 (b := b))
          as (rs & s2 & -> & Hb2 & Hr2 & Hl & Hm & Hf); [exact Hb|]
    end.
    cbn [results app] in Hr2.
    exists rs. eexists. split.
    + unfold bind, log, printSummary, get_results. cbn. rewrite Hr2.
      reflexivity.
    + cbn. auto.
  - unfold redeemBatch.
    unfold bind at 1, log at 1. cbv beta iota.
    unfold bind at 1.
    match goal with
    | |- context [redeemLoop env cfg codes appleId password 0 ?n [] ?s1] =>
        destruct (redeemLoop_returns appleId password codes 0 n [] s1 (b := b))
          as (rs & s2 & -> & Hb2 & Hr2 & Hl & Hm & Hf); [exact Hb|]
    end.
    exists rs. eexists. split; [reflexivity|]. auto.
Qed.

(** C4, amended: with [retryAttempts = N >= 1], a page that opens and
    closes, and a [try] block that throws at every attempt,
    [checkBalance] makes the attempts [1, ..., N] and no other, prints one
    error for each, and returns the record with status 错误 and the
    message of the last error; nothing is thrown to the caller. *)
Theorem checkBalance_retry_bound (code_ : jsstring) (s : State W)
    (b : Browser) :
  1 <= retryAttempts cfg ->
  browser s = Some b ->
  (forall page attempt s0,
      exists e s', checkBalance_try env cfg page code_ attempt s0
                   = (Throw e, s')) ->
  exists msg now s' evs,
    checkBalance env cfg code_ 1 s = (Ok (errorRecord code_ msg now), s')
    /\ console s' = console s ++ evs
    /\ attempts evs = numbers 1 (Z.to_nat (retryAttempts cfg))
    /\ List.length (errors evs) = Z.to_nat (retryAttempts cfg)
    /\ last (errors evs) [] = msg.
Proof.
  intros HN Hb Hfail. unfold checkBalance.
  destruct (@checkBalance_rec_all_fail code_ Hfail
              (Z.to_nat (retryAttempts cfg - 1)) 1 s b Hb HN eq_refl)
    as (msg & now & s' & evs & E & Hc & Ha & Hl & Hm).
  exists msg, now, s', evs. split; [exact E|]. split; [exact Hc|].
  replace (Z.to_nat (retryAttempts cfg))
    with (S (Z.to_nat (retryAttempts cfg - 1))) by lia.
  auto.
Qed.

End Attempts.

(** ** Locating the input field *)

Section Locate.
Context {W : Type}.
Variable env : Env W.

Lemma moved_nil (s : State W) : moved s (world s) [] = s.
Proof. destruct s; unfold moved; simpl. rewrite app_nil_r. reflexivity. Qed.

Lemma moved_moved (s : State W) (w1 w2 : W) (evs : list LogEvent) :
  moved (moved s w1 []) w2 evs = moved s w2 evs.
Proof. unfold moved; simpl. rewrite app_nil_r. reflexivity. Qed.

(** One probe that does not resolve: the loop goes on from the world the
    probe left. *)
Lemma probeInput_skip (page : Page) (sel : jsstring) (rest : list jsstring)
    (s : State W) (w' : W) :
  (forall el, query env page sel (world s) <> (inr (Some el), w')) ->
  snd (query env page sel (world s)) = w' ->
  probeInput env page (sel :: rest) s
    = probeInput env page rest (moved s w' []).
Proof.
  intros Hno Hw. simpl. unfold bind at 1, try_catch at 1, bind at 1, await.
  destruct (query env page sel (world s)) as [[e|[el|]] w] eqn:Eq;
    simpl in Hw; subst w.
  - unfold ret, moved. rewrite app_nil_r. reflexivity.
  - destruct (Hno el eq_refl).
  - unfold ret, moved. rewrite app_nil_r. reflexivity.
Qed.

Lemma probeInput_misses (page : Page) (selectors : list jsstring) :
  forall (s : State W) (w1 : W),
    misses env page selectors (world s) = Some w1 ->
    probeInput env page selectors s = (Ok None, moved s w1 []).
Proof.
  induction selectors as [|sel rest IH]; intros s w1 Hm.
  - simpl in Hm. inversion Hm; subst. rewrite moved_nil. reflexivity.
  - simpl in Hm.
    destruct (query env page sel (world s)) as [[e|[el|]] w] eqn:Eq;
      try discriminate;
      (rewrite (@probeInput_skip page sel rest s w);
       [ rewrite (IH (moved s w []) w1 Hm), moved_moved; reflexivity
       | intros el; rewrite Eq; discriminate
       | rewrite Eq; reflexivity ]).
Qed.

Lemma probeInput_first (page : Page) (pre : list jsstring) :
  forall (sel : jsstring) (post : list jsstring) (el : Element)
         (s : State W) (w1 w2 : W),
    misses env page pre (world s) = Some w1 ->
    query env page sel w1 = (inr (Some el), w2) ->
    probeInput env page (pre ++ sel :: post) s
      = (Ok (Some el), moved s w2 [LogInputFound sel]).
Proof.
  induction pre as [|p pre IH]; intros sel post el s w1 w2 Hm Hq.
  - simpl in Hm. inversion Hm; subst w1. simpl.
    unfold bind at 1, try_catch at 1, bind at 1, await. rewrite Hq.
    reflexivity.
  - simpl in Hm. rewrite <- app_comm_cons.
    destruct (query env page p (world s)) as [[e|[el'|]] w] eqn:Eq;
      try discriminate;
      (rewrite (@probeInput_skip page p (pre ++ sel :: post) s w);
       [ rewrite (IH sel post el (moved s w []) w1 w2 Hm Hq), moved_moved;
         reflexivity
       | intros el0; rewrite Eq; discriminate
       | rewrite Eq; reflexivity ]).
Qed.

Lemma probeInput_never_throws (page : Page) (selectors : list jsstring) :
  forall s : State W,
    exists found s', probeInput env page selectors s = (Ok found, s').
Proof.
  induction selectors as [|sel rest IH]; intros s.
  - do 2 eexists; reflexivity.
  - simpl. unfold bind at 1, try_catch at 1, bind at 1, await.
    destruct (query env page sel (world s)) as [[e|[el|]] w].
    + apply IH.
    + do 2 eexists; reflexivity.
    + apply IH.
Qed.

(** C9: the candidates are probed in their order and the first that
    resolves gives the input field; when none resolves, the first text
    input of the page is used; when there is none either, the step throws
    the error of the missing field; and the probing of the candidates
    itself never throws, whatever the probes do. *)
Theorem locateInput_fallback (page : Page) (s : State W) :
  (forall pre sel post el w1 w2,
      possibleSelectors = pre ++ sel :: post ->
      misses env page pre (world s) = Some w1 ->
      query env page sel w1 = (inr (Some el), w2) ->
      locateInput env page s = (Ok el, moved s w2 [LogInputFound sel]))
  /\ (forall w1 el more w2,
         misses env page possibleSelectors (world s) = Some w1 ->
         queryAll env page (attr_selector "input" "type" "=" "text") w1
           = (inr (el :: more), w2) ->
         locateInput env page s = (Ok el, moved s w2 [LogFirstTextInput]))
  /\ (forall w1 w2,
         misses env page possibleSelectors (world s) = Some w1 ->
         queryAll env page (attr_selector "input" "type" "=" "text") w1
           = (inr [], w2) ->
         locateInput env page s
           = (Throw (mkError (js "无法找到礼品卡输入框")), moved s w2 []))
  /\ (forall selectors,
         exists found s', probeInput env page selectors s = (Ok found, s')).
Proof.
  repeat split.
  - intros pre sel post el w1 w2 Hsplit Hm Hq.
    unfold locateInput, bind at 1. rewrite Hsplit.
    rewrite (@probeInput_first page pre sel post el s w1 w2 Hm Hq).
    reflexivity.
  - intros w1 el more w2 Hm Hq.
    unfold locateInput, bind at 1.
    rewrite (@probeInput_misses page possibleSelectors s w1 Hm).
    unfold bind at 1, bind at 1, await. cbn [world moved].
    rewrite Hq. unfold moved; simpl. rewrite app_nil_r. reflexivity.
  - intros w1 w2 Hm Hq.
    unfold locateInput, bind at 1.
    rewrite (@probeInput_misses page possibleSelectors s w1 Hm).
    unfold bind at 1, bind at 1, await. cbn [world moved].
    rewrite Hq. unfold moved; simpl. rewrite !app_nil_r. reflexivity.
  - intros selectors. apply probeInput_never_throws.
Qed.

End Locate.

(** ** Examples of classification *)

(** C5, as stated: the text "Your code could not be found" is invalid.
    It holds no phrase of [errorPatterns] ("not found" is not in "not be
    found"), and nothing else of the classifier matches it. *)
Lemma could_not_be_found_not_invalid :
  status (parseBalanceResult Scripted.clock
            (js "Your code could not be found") [] Scripted.card1)
    <> js "无效".
Proof. vm_compute. discriminate. Qed.

(** C5, amended: "该卡已兑换" is 已兑换; "¥88.00 可用余额" is 有效 with
    amount "88.00" and currency "¥"; "Your code could not be found", with
    an empty markup, is 未知; an empty or unrecognised text with an empty
    markup is 未知 with no amount. *)
Theorem parseBalanceResult_examples (now html code_ : jsstring) :
  status (parseBalanceResult now (js "该卡已兑换") html code_) = js "已兑换"
  /\ (let r := parseBalanceResult now (js "¥88.00 可用余额") html code_ in
      status r = js "有效"
      /\ balance r = Some (js "88.00")
      /\ currency r = Some (js "¥"))
  /\ status (parseBalanceResult now (js "Your code could not be found") []
               code_) = js "未知"
  /\ (let r := parseBalanceResult now [] [] code_ in
      status r = js "未知" /\ balance r = None)
  /\ (let r := parseBalanceResult now (js "Welcome to the store") []
                 code_ in
      status r = js "未知" /\ balance r = None).
Proof. vm_compute. repeat split; reflexivity. Qed.

(** ** The redemption classifier *)

(** A text that matches the first entry of the error list of
    [parseRedemptionResult] never gets the message of the invalid entry. *)
Lemma parseRedemptionResult_never_invalid (now text html code_ : jsstring) :
  match redemptionErrorPatterns with
  | (used, _) :: _ => test used text = true
  | [] => False
  end ->
  r_message (parseRedemptionResult now text html code_)
    <> Some (js "无效的兑换码").
Proof.
  unfold redemptionErrorPatterns. intros Hused.
  unfold parseRedemptionResult, successPatterns.
  cbn [successLoop].
  repeat match goal with
         | |- context [if test ?p text then _ else _] =>
             destruct (test p text) eqn:?
         end;
    try (vm_compute; discriminate).
  unfold redemptionErrorPatterns. cbn [failureLoop]. rewrite Hused.
  vm_compute. discriminate.
Qed.

(** C3: the text "This code has already been redeemed and is invalid"
    matches the already-used entry and the invalid entry of the error list
    of [parseRedemptionResult]; the classifier of the balance page gives it
    the status 已兑换 of a redeemed card, but [parseRedemptionResult]
    returns the record of a successful redemption (成功兑换到Apple账户)
    and not the record of the already-used entry (兑换码已被使用): the
    success patterns are tested first and hold the phrases of that
    entry. *)
Theorem already_redeemed_text_counts_as_success (now html code_ : jsstring) :
  let text := js "This code has already been redeemed and is invalid" in
  match redemptionErrorPatterns with
  | (used, used_message) :: (invalid, invalid_message) :: _ =>
      test used text = true
      /\ test invalid text = true
      /\ used_message = js "兑换码已被使用"
      /\ invalid_message = js "无效的兑换码"
  | _ => False
  end
  /\ parseBalanceResult now text html code_
       = redeemedRecord (initialRecord now code_)
  /\ parseRedemptionResult now text html code_
       = {| r_code := maskCode code_;
            r_status := js "已兑换";
            r_message := Some (js "成功兑换到Apple账户");
            r_timestamp := now |}
  /\ r_message (parseRedemptionResult now text html code_)
       <> Some (js "兑换码已被使用").
Proof.
  intros text. split; [|split; [|split]].
  - vm_compute. repeat split; reflexivity.
  - apply parseBalanceResult_alreadyRedeemed_first. vm_compute. reflexivity.
  - vm_compute. reflexivity.
  - vm_compute. discriminate.
Qed.

(** ** The region and the order of the amount patterns *)

(** C7, as stated: with the region "us" the dollar patterns are tried
    first.  On a page that reads "$5.00 or 35元" a dollar pattern matches
    and would give 5.00, yet the checker configured for "us" returns the
    amount of the yuan pattern. *)
Lemma region_us_reads_yuan_first :
  let text := js "$5.00 or 35元" in
  let cfg := Scripted.config "us" 3 in
  region cfg = js "us"
  /\ (exists r_us,
         balanceLoop usBalancePatterns (js "$") text
           (initialRecord Scripted.clock Scripted.card1) = Some r_us
         /\ balance r_us = Some (js "5.00"))
  /\ (exists r s',
         checkBalance (Scripted.env (Scripted.page text)) cfg
           Scripted.card1 1 Scripted.started = (Ok r, s')
         /\ status r = js "有效"
         /\ currency r = Some (js "¥")
         /\ balance r = Some (js "35")).
Proof.
  intros text cfg. split; [reflexivity|]. split.
  - eexists. split; [vm_compute; reflexivity | reflexivity].
  - do 2 eexists. split; [vm_compute; reflexivity|].
    repeat split; reflexivity.
Qed.

(** C7, amended: the region selects the address of the balance page and
    nothing else.  The page [checkBalance] navigates to is the address
    made of the region: once the user agent is set, when [page.goto]
    fails at that address the attempt throws its error after the lines of
    the attempt and of the visit, and when it succeeds there the attempt
    goes on from the world it left, with the wait of two seconds.
    Whatever the configuration, the record [checkBalance] gets
    from a page is [parseBalanceResult] of its text and markup, and
    [parseBalanceResult] tries the yuan patterns first and the dollar
    patterns second: when no error pattern matches the text, a text that
    a yuan pattern matches is read in ¥, and a text is read in $ only when
    no yuan pattern matches it. *)
Theorem amount_patterns_fixed_order {W : Type} (env : Env W) (cfg : Config) :
  (forall page code_ attempt s w1 e w2,
      setUserAgent env page userAgent (world s) = (inr tt, w1) ->
      goto env page
        (js "https://secure.store.apple.com/" ++ region cfg
           ++ js "/shop/gift-cards/balance")
        (timeout cfg) w1 = (inl e, w2) ->
      checkBalance_try env cfg page code_ attempt s
      = (Throw e,
         moved s w2
           [LogCheck (maskCode code_) attempt (retryAttempts cfg);
            LogVisit (js "https://secure.store.apple.com/" ++ region cfg
                        ++ js "/shop/gift-cards/balance")]))
  /\ (forall page code_ attempt s w1 w2 e w3,
         setUserAgent env page userAgent (world s) = (inr tt, w1) ->
         goto env page
           (js "https://secure.store.apple.com/" ++ region cfg
              ++ js "/shop/gift-cards/balance")
           (timeout cfg) w1 = (inr tt, w2) ->
         waitForTimeout env page 2000 w2 = (inl e, w3) ->
         checkBalance_try env cfg page code_ attempt s
         = (Throw e,
            moved s w3
              [LogCheck (maskCode code_) attempt (retryAttempts cfg);
               LogVisit (js "https://secure.store.apple.com/" ++ region cfg
                           ++ js "/shop/gift-cards/balance")]))
  /\ (forall page code_ attempt s r s',
         checkBalance_try env cfg page code_ attempt s = (Ok r, s') ->
         exists now text html, r = parseBalanceResult now text html code_)
  /\ (forall now text html code_,
         anyMatch errorPatterns text = false ->
         let r := parseBalanceResult now text html code_ in
         (anyMatch cnBalancePatterns text = true ->
          balanceLoop cnBalancePatterns (js "¥") text
            (initialRecord now code_) = Some r
          /\ status r = js "有效" /\ currency r = Some (js "¥"))
         /\ (anyMatch cnBalancePatterns text = false ->
             anyMatch usBalancePatterns text = true ->
             balanceLoop usBalancePatterns (js "$") text
               (initialRecord now code_) = Some r
             /\ status r = js "有效" /\ currency r = Some (js "$"))).
Proof.
  split; [|split; [|split]].
  - intros page code_ attempt s w1 e w2 Hua Hgo.
    unfold checkBalance_try.
    unfold bind at 1, log at 1. cbv beta iota.
    unfold bind at 1, await at 1. cbn [world console browser results].
    rewrite Hua.
    unfold bind at 1, log at 1. cbv beta iota.
    unfold bind at 1, await at 1. cbn [world console browser results].
    unfold balanceUrl. rewrite Hgo.
    unfold moved. rewrite <- app_assoc. reflexivity.
  - intros page code_ attempt s w1 w2 e w3 Hua Hgo Hwait.
    unfold checkBalance_try.
    unfold bind at 1, log at 1. cbv beta iota.
    unfold bind at 1, await at 1. cbn [world console browser results].
    rewrite Hua.
    unfold bind at 1, log at 1. cbv beta iota.
    unfold bind at 1, await at 1. cbn [world console browser results].
    unfold balanceUrl. rewrite Hgo.
    unfold bind at 1, await at 1. cbn [world console browser results].
    rewrite Hwait.
    unfold moved. rewrite <- app_assoc. reflexivity.
  - intros page code_ attempt s r s' E.
    destruct (checkBalance_try_runs _ _ _ _ _ _ E) as (_ & _ & _ & Hq).
    exact Hq.
  - intros now text html code_ He r. subst r.
    rewrite (parseBalanceResult_no_error now text html code_ He). cbv zeta.
    split.
    + intros Hc.
      destruct (balanceLoop_some cnBalancePatterns (js "¥") text
                  (initialRecord now code_) Hc) as (r & -> & Hs & Hy & _).
      auto.
    + intros Hc Hu. rewrite (balanceLoop_none _ _ _ _ Hc).
      destruct (balanceLoop_some usBalancePatterns (js "$") text
                  (initialRecord now code_) Hu) as (r & -> & Hs & Hy & _).
      auto.
Qed.

Lemma amount_patterns_fixed_order_witness :
  let text := js "$5.00 or 35元" in
  let r := parseBalanceResult Scripted.clock text [] Scripted.card1 in
  (balanceLoop cnBalancePatterns (js "¥") text
     (initialRecord Scripted.clock Scripted.card1) = Some r
   /\ status r = js "有效" /\ currency r = Some (js "¥"))
  /\ (let text := js "You have USD 25" in
      let r := parseBalanceResult Scripted.clock text [] Scripted.card1 in
      balanceLoop usBalancePatterns (js "$") text
        (initialRecord Scripted.clock Scripted.card1) = Some r
      /\ status r = js "有效" /\ currency r = Some (js "$"))
  /\ checkBalance_try (Scripted.env Scripted.site_down)
       (Scripted.config "us" 3) 0%nat Scripted.card1 1 Scripted.started
     = (Throw (mkError (js "net::ERR_CONNECTION_REFUSED")),
        moved Scripted.started (world Scripted.started)
          [LogCheck (maskCode Scripted.card1) 1
             (retryAttempts (Scripted.config "us" 3));
           LogVisit
             (js "https://secure.store.apple.com/"
                ++ region (Scripted.config "us" 3)
                ++ js "/shop/gift-cards/balance")]).
Proof.
  intros text r. split; [|split].
  - apply (proj2 (proj2 (proj2 (amount_patterns_fixed_order
                                  (Scripted.env (Scripted.page text))
                                  (Scripted.config "us" 3))))
             Scripted.clock text [] Scripted.card1);
      vm_compute; reflexivity.
  - intros text' r'.
    apply (proj2 (proj2 (proj2 (amount_patterns_fixed_order
                                  (Scripted.env (Scripted.page text'))
                                  (Scripted.config "us" 3))))
             Scripted.clock text' [] Scripted.card1);
      vm_compute; reflexivity.
  - apply (proj1 (amount_patterns_fixed_order
                    (Scripted.env Scripted.site_down)
                    (Scripted.config "us" 3))
             0%nat Scripted.card1 1 Scripted.started
             (world Scripted.started)
             (mkError (js "net::ERR_CONNECTION_REFUSED"))
             (world Scripted.started));
      reflexivity.
Defined.

(** ** Saving the results *)

(** The text of the CSV file: the header, then one row for each record in
    the order of the list. *)
Lemma csv_rows (rs : list BalanceRecord) (header : jsstring) :
  fold_left (fun csv r => csv ++ csv_row r) rs header
    = header ++ List.concat (map csv_row rs).
Proof.
  revert header; induction rs as [|r rs IH]; intros header; simpl.
  - rewrite app_nil_r. reflexivity.
  - rewrite IH, <- app_assoc. reflexivity.
Qed.

(** C8: with one record of status 未知 in [this.results], [saveResults]
    writes a metadata block that counts the total (1) and the statuses
    有效, 无效, 已兑换 and 错误 (0 each) and has no count for 未知, which
    [printSummary] counts (1) on the same list; the results and the CSV
    rows are written as the claim says. *)
Theorem saveResults_metadata_without_unknown :
  let r := parseBalanceResult Scripted.clock (js "Welcome to the store") []
             Scripted.card1 in
  let env := Scripted.env (Scripted.page (js "Welcome to the store")) in
  let s := {| world := world Scripted.started;
              console := [];
              browser := Some 0%nat;
              results := [r] |} in
  status r = js "未知"
  /\ fst (saveResults env (js "apple_gift_card_results.json") s) = Ok tt
  /\ Scripted.files
       (world (snd (saveResults env (js "apple_gift_card_results.json") s)))
     = [(js "apple_gift_card_results.json",
         JsonDocument
           (JObject [
              (js "metadata",
               JObject [
                 (js "生成时间", JString Scripted.clock);
                 (js "总卡片数", JNumber 1);
                 (js "有效卡片", JNumber 0);
                 (js "无效卡片", JNumber 0);
                 (js "已兑换卡片", JNumber 0);
                 (js "错误", JNumber 0)
               ]);
              (js "results", JArray [json_of_record r])
            ]));
        (js "apple_gift_card_results.csv",
         Text (csv_header ++ csv_row r))]
  /\ console (snd (printSummary s)) = [LogSummary 1 0 0 0 0 1].
Proof. vm_compute. repeat split; reflexivity. Qed.

(** ** Runs on scripted pages *)

Section ScriptedRuns.

Import Scripted.

Lemma scripted_newPage_works (sc : Script) :
  s_newPage sc = None ->
  forall b w, exists p w', newPage (env sc) b w = (inr p, w').
Proof. intros H b w. simpl. rewrite H. do 2 eexists; reflexivity. Qed.

Lemma scripted_closePage_works (sc : Script) :
  s_close sc = None ->
  forall p w, exists w', closePage (env sc) p w = (inr tt, w').
Proof.
  intros H p w. simpl. unfold answer. rewrite H. eexists; reflexivity.
Qed.

(** C1, as stated: [checkBalance] never throws to the loop.  A checker
    whose browser was not started throws from [this.browser.newPage()],
    which is outside the [try]; and when the browser has crashed,
    [page.close()] throws inside the [catch].  No list is returned. *)
Lemma processBatch_throws :
  fst (processBatch (env already) (config "cn" 3) [card1; card2] fresh)
    = Throw TypeError_null
  /\ fst (processBatch (env crashed) (config "cn" 3) [card1; card2] started)
       = Throw (mkError (js "Protocol error: Connection closed."))
  /\ fst (redeemBatch (env crashed) (config "cn" 3) [card1; card2]
            (js "your.email@example.com") (js "your_password") started)
       = Throw (mkError (js "Protocol error: Connection closed.")).
Proof. vm_compute. repeat split; reflexivity. Qed.

Lemma batch_one_record_per_code_witness :
  (exists rs s',
      processBatch (env already) (config "cn" 3) [card1; card2] started
        = (Ok rs, s')
      /\ results s' = rs
      /\ List.length rs = 2%nat
      /\ map code rs = [js "X87L-****-****-VGCW"; js "XNZ3-****-****-GT7N"]
      /\ Forall2 (checked (env already) (config "cn" 3)) [card1; card2] rs)
  /\ (exists rs s',
         redeemBatch (env already) (config "cn" 3) [card1; card2]
           (js "your.email@example.com") (js "your_password") started
           = (Ok rs, s')
         /\ List.length rs = 2%nat
         /\ map r_code rs
            = [js "X87L-****-****-VGCW"; js "XNZ3-****-****-GT7N"]
         /\ Forall2 (redeemed (env already) (config "cn" 3)
                       (js "your.email@example.com") (js "your_password"))
                    [card1; card2] rs).
Proof.
  apply (@batch_one_record_per_code World (env already) (config "cn" 3)
           (scripted_newPage_works already eq_refl)
           (scripted_closePage_works already eq_refl)
           [card1; card2] (js "your.email@example.com")
           (js "your_password") started 0%nat).
  - intros name w. eexists; reflexivity.
  - reflexivity.
Defined.

(** C4, as stated: the failure is never thrown to the caller and the
    attempts are [N].  When the browser has crashed, the first attempt
    fails, [page.close()] throws in the [catch] block, and [checkBalance]
    throws after one attempt out of three; and a checker whose browser
    was not started throws before any attempt. *)
Lemma checkBalance_throws_when_close_fails :
  let run := checkBalance (env crashed) (config "cn" 3) card1 1 started in
  retryAttempts (config "cn" 3) = 3
  /\ fst run = Throw (mkError (js "Protocol error: Connection closed."))
  /\ attempts (console (snd run)) = [1]
  /\ fst (checkBalance (env site_down) (config "cn" 3) card1 1 fresh)
       = Throw TypeError_null.
Proof. vm_compute. repeat split; reflexivity. Qed.

Lemma checkBalance_retry_bound_witness :
  exists msg now s' evs,
    checkBalance (env site_down) (config "cn" 3) card1 1 started
      = (Ok (errorRecord card1 msg now), s')
    /\ console s' = console started ++ evs
    /\ attempts evs = [1; 2; 3]
    /\ List.length (errors evs) = 3%nat
    /\ last (errors evs) [] = msg.
Proof.
  apply (@checkBalance_retry_bound World (env site_down) (config "cn" 3)
           (scripted_newPage_works site_down eq_refl)
           (scripted_closePage_works site_down eq_refl)
           card1 started 0%nat).
  - vm_compute. discriminate.
  - reflexivity.
  - intros p attempt s0. do 2 eexists. reflexivity.
Defined.

Lemma locateInput_fallback_witness :
  locateInput (env already) 0%nat started
    = (Ok 7%nat,
       moved started (world started)
         [LogInputFound (attr_selector "input" "type" "=" "text")])
  /\ locateInput (env no_input) 0%nat started
     = (Throw (mkError (js "无法找到礼品卡输入框")),
        moved started (world started) []).
Proof.
  split.
  - apply (proj1 (locateInput_fallback (env already) 0%nat started)
             [attr_selector "input" "name" "=" "giftCardNumber";
              attr_selector "input" "id" "=" "giftCardNumber"]
             (attr_selector "input" "type" "=" "text")
             [attr_selector "input" "placeholder" "*=" "code";
              attr_selector "input" "placeholder" "*=" "卡";
              attr_selector "input" "aria-label" "*=" "card"]
             7%nat (world started) (world started));
      vm_compute; reflexivity.
  - apply (proj1 (proj2 (proj2
             (locateInput_fallback (env no_input) 0%nat started)))
             (world started) (world started));
      vm_compute; reflexivity.
Defined.

End ScriptedRuns.

(** * Further properties of the code *)

(** ** Masking: what is shown *)

(** X1: The mask has nine code units for a code shorter than eight and
    nineteen otherwise: it shows at most eight code units of the code. *)
Theorem maskCode_output_length (code_ : jsstring) :
  jslength (maskCode code_) = if jslength code_ <? 8 then 9 else 19.
Proof.
  destruct (Z.ltb_spec (jslength code_) 8) as [H|H]; unfold jslength in H.
  - rewrite maskCode_short by lia. reflexivity.
  - rewrite maskCode_long by lia.
    destruct (maskCode_long_shape code_) as
      (a & b & c & d & e & f & g & h & -> & ->); [lia|].
    reflexivity.
Qed.

(** X2: A code of exactly eight code units is not hidden at all: its mask
    shows all of it. *)
Theorem maskCode_eight_shows_all (code_ : jsstring) :
  jslength code_ = 8 ->
  firstn 4 (maskCode code_) ++ skipn 15 (maskCode code_) = code_.
Proof.
  unfold jslength. intros H.
  rewrite maskCode_long by lia.
  replace (List.length code_ - 4)%nat with 4%nat by lia.
  destruct code_ as [|a [|b [|c [|d [|e [|f [|g [|h [|i code_]]]]]]]]];
    simpl in H; try lia.
  reflexivity.
Qed.

Lemma maskCode_eight_shows_all_witness :
  firstn 4 (maskCode (js "AB12CD34")) ++ skipn 15 (maskCode (js "AB12CD34"))
    = js "AB12CD34".
Proof. apply maskCode_eight_shows_all. reflexivity. Defined.

(** ** The codes [processCSV] loads *)

Section CsvCodes.

Lemma processCSV_loop_later (lines : list jsstring) :
  forall (lineNumber : Z) (codes : list jsstring),
    1 <= lineNumber ->
    processCSV_loop lines lineNumber codes
      = codes ++ flat_map line_codes lines.
Proof.
  induction lines as [|line rest IH]; intros n codes Hn; simpl.
  - rewrite app_nil_r. reflexivity.
  - replace (n + 1 =? 1) with false by (symmetry; apply Z.eqb_neq; lia).
    cbn [orb]. unfold line_codes at 1.
    destruct (trim line) as [|c t] eqn:Et.
    + rewrite IH by lia. reflexivity.
    + destruct (line_code line) as [|d code_] eqn:Ec.
      * cbn [andb]. rewrite IH by lia.
        replace (jslength [] >? 8) with false by reflexivity.
        reflexivity.
      * cbn [andb]. destruct (jslength (d :: code_) >? 8).
        -- rewrite IH by lia. rewrite <- app_assoc. reflexivity.
        -- rewrite IH by lia. reflexivity.
Qed.

Lemma trimStart_incl (s : jsstring) (c : N) :
  In c (trimStart s) -> In c s.
Proof.
  induction s as [|d s IH]; simpl; [auto|].
  destruct (isWhiteSpace d); simpl; auto.
Qed.

Lemma trim_incl (s : jsstring) (c : N) : In c (trim s) -> In c s.
Proof.
  unfold trim, trimEnd. intros H.
  apply in_rev in H. apply trimStart_incl in H. apply in_rev in H.
  apply trimStart_incl in H. exact H.
Qed.

Lemma split_first_no_comma (s : jsstring) : ~ In 44%N (split_first s).
Proof.
  induction s as [|c s IH]; simpl; [auto|].
  destruct (N.eqb_spec c 44); simpl; [auto|].
  intros [H|H]; [congruence | exact (IH H)].
Qed.

Lemma line_code_clean (line : jsstring) :
  ~ In 34%N (line_code line) /\ ~ In 44%N (line_code line).
Proof.
  unfold line_code, remove_quotes. split; intros H;
    apply filter_In in H; destruct H as [H Hq].
  - discriminate.
  - apply trim_incl in H. exact (split_first_no_comma _ H).
Qed.

End CsvCodes.

Lemma processCSV_skips_first_line_eq (lines : list jsstring) :
  processCSV_codes lines = flat_map line_codes (tl lines).
Proof.
  destruct lines as [|header rest]; [reflexivity|].
  unfold processCSV_codes. simpl.
  rewrite processCSV_loop_later by lia. reflexivity.
Qed.

(** X3: The first line of the file is never read as a code, whatever it
    holds; every later line gives at most one code, in the order of the
    file: none when it is blank or its code has eight code units or
    fewer. *)
Theorem processCSV_skips_first_line (lines : list jsstring) :
  processCSV_codes lines = flat_map line_codes (tl lines).
Proof. apply processCSV_skips_first_line_eq. Qed.

(** X4: Every code [processCSV] loads is longer than eight code units and
    holds neither a double quote nor a comma, so its mask is never the
    placeholder: it shows the first four and the last four code units. *)
Theorem processCSV_codes_maskable (lines : list jsstring) :
  Forall (fun c =>
            8 < jslength c
            /\ ~ In 34%N c /\ ~ In 44%N c
            /\ maskCode c =
                 firstn 4 c ++ js "-****-****-"
                   ++ skipn (List.length c - 4) c)
         (processCSV_codes lines).
Proof.
  rewrite processCSV_skips_first_line_eq.
  apply Forall_forall. intros c Hc.
  apply in_flat_map in Hc. destruct Hc as (line & _ & Hc).
  unfold line_codes in Hc.
  destruct (trim line); [destruct Hc|].
  destruct (Z.gtb_spec (jslength (line_code line)) 8) as [Hlen|Hlen];
    [|destruct Hc].
  destruct Hc as [<-|[]].
  destruct (line_code_clean line) as (Hq & Hcomma).
  repeat split; auto; try lia.
  apply maskCode_long. unfold jslength in Hlen. lia.
Qed.

(** ** The cards [main] selects for redemption *)

Section Restore.

(** A pattern that is a plain word matches where the text starts with
    the word. *)
Lemma matches_word (w s : jsstring) :
  matches false (word_of w) s =
    if startsWith w s then [MState w None (skipn (List.length w) s)] else [].
Proof.
  revert s; induction w as [|c w IH]; intros s.
  - reflexivity.
  - destruct w as [|c' w].
    + destruct s as [|d t]; [reflexivity|]. simpl.
      unfold char_eq. destruct (N.eqb_spec c d) as [->|Hne]; reflexivity.
    + change (word_of (c :: c' :: w)) with (Seq (lit c) (word_of (c' :: w))).
      cbn [matches lit quantified atom_ok].
      destruct s as [|d t]; [reflexivity|].
      change (startsWith (c :: c' :: w) (d :: t))
        with ((c =? d)%N && startsWith (c' :: w) t).
      unfold char_eq.
      destruct (N.eqb_spec c d) as [->|Hne]; [|reflexivity].
      cbn [map flat_map fst snd remaining andb]. rewrite IH.
      rewrite app_nil_r.
      destruct (startsWith (c' :: w) t); reflexivity.
Qed.

Lemma search_word_later (w : jsstring) (c : N) (t : jsstring) :
  startsWith w (c :: t) = false ->
  search false (word_of w) (c :: t) =
    match search false (word_of w) t with
    | Some (before, found, after) => Some (c :: before, found, after)
    | None => None
    end.
Proof. intros H. cbn [search]. rewrite matches_word, H. reflexivity. Qed.

Lemma search_word_here (w s : jsstring) :
  startsWith w s = true ->
  search false (word_of w) s = Some ([], w, skipn (List.length w) s).
Proof.
  intros H. destruct s; cbn [search]; rewrite matches_word, H; reflexivity.
Qed.

End Restore.

(** X5: What [main] calls restoring the full code does not restore it: on
    the mask of a code of eight code units or more the replacement leaves
    the first four code units, one hyphen and the last four, nine code
    units in all, and the middle of the code is lost. *)
Theorem restore_keeps_only_the_ends (code_ : jsstring) :
  8 <= jslength code_ ->
  replace_match maskMiddlePattern (js "-") (maskCode code_)
    = firstn 4 code_ ++ js "-" ++ skipn (List.length code_ - 4) code_
  /\ jslength (replace_match maskMiddlePattern (js "-") (maskCode code_)) = 9.
Proof.
  unfold jslength at 1. intros H.
  rewrite maskCode_long by lia.
  destruct (maskCode_long_shape code_) as
    (a & b & c & d & e & f & g & h & -> & ->); [lia|].
  assert (E : replace_match maskMiddlePattern (js "-")
                ([a; b; c; d] ++ js "-****-****-" ++ [e; f; g; h])
              = [a; b; c; d] ++ js "-" ++ [e; f; g; h]).
  { unfold replace_match, maskMiddlePattern, word.
    cbn [ignoreCase re].
    change (js "-****-****-")
      with [45; 42; 42; 42; 42; 45; 42; 42; 42; 42; 45]%N.
    cbn [app].
    do 4 (rewrite search_word_later
            by (cbn [startsWith]; change ((42 =? 45)%N) with false;
                rewrite ?andb_false_r; reflexivity)).
    rewrite search_word_here by reflexivity.
    reflexivity. }
  rewrite E. split; reflexivity.
Qed.

Lemma restore_keeps_only_the_ends_witness :
  replace_match maskMiddlePattern (js "-") (maskCode Scripted.card1)
    = js "X87L-VGCW"
  /\ jslength (replace_match maskMiddlePattern (js "-")
                 (maskCode Scripted.card1)) = 9.
Proof.
  apply (restore_keeps_only_the_ends Scripted.card1).
  vm_compute. discriminate.
Defined.

(** ** The records of the classifiers *)

Section Shapes.

Lemma star_greedy_all (ok : N -> bool) (s : jsstring) (x : split) :
  In x (star_greedy ok s) -> forallb ok (fst x) = true.
Proof.
  revert x; induction s as [|c t IH]; intros x; simpl.
  - intros [<-|[]]. reflexivity.
  - destruct (ok c) eqn:Hc.
    + intros H. apply in_app_or in H. destruct H as [H|[<-|[]]].
      * apply in_map_iff in H. destruct H as (y & <- & Hy).
        simpl. rewrite Hc, (IH y Hy). reflexivity.
      * reflexivity.
    + intros [<-|[]]. reflexivity.
Qed.

Lemma plus_all (ok : N -> bool) (s : jsstring) (x : split) :
  In x (quantified ok Plus s) -> fst x <> [] /\ forallb ok (fst x) = true.
Proof.
  destruct s as [|c t]; simpl; [intros []|].
  destruct (ok c) eqn:Hc; [|intros []].
  intros H. apply in_map_iff in H. destruct H as (y & <- & Hy).
  simpl. rewrite Hc, (star_greedy_all _ _ _ Hy). split; [discriminate|auto].
Qed.

Lemma char_eq_point (ic : bool) (c : N) :
  char_eq ic 46 c = true -> c = 46%N.
Proof.
  unfold char_eq, canonicalize. destruct ic.
  - change ((97 <=? 46)%N && (46 <=? 122)%N) with false. cbv iota.
    destruct ((97 <=? c)%N && (c <=? 122)%N) eqn:Hc.
    + apply andb_true_iff in Hc. destruct Hc as (H1 & H2).
      apply N.leb_le in H1. intros H. apply N.eqb_eq in H. lia.
    + intros H. apply N.eqb_eq in H. auto.
  - intros H. apply N.eqb_eq in H. auto.
Qed.

Lemma opt_point (ic : bool) (s : jsstring) (x : split) :
  In x (quantified (atom_ok ic (Lit 46)) Opt s) ->
  fst x = [] \/ fst x = [46%N].
Proof.
  destruct s as [|c t]; simpl.
  - intros [<-|[]]. auto.
  - destruct (char_eq ic 46 c) eqn:Hc.
    + apply char_eq_point in Hc. subst c.
      intros [<-|[<-|[]]]; auto.
    + intros [<-|[]]. auto.
Qed.

Lemma matches_Seq_inv (ic : bool) (r1 r2 : regex) (s : jsstring)
    (m : mstate) :
  In m (matches ic (Seq r1 r2) s) ->
  exists ma mb,
    In ma (matches ic r1 s) /\ In mb (matches ic r2 (remaining ma))
    /\ m = then_ ma mb.
Proof.
  simpl. intros H. apply in_flat_map in H. destruct H as (ma & Ha & H).
  apply in_map_iff in H. destruct H as (mb & <- & Hb).
  exists ma, mb. auto.
Qed.

Lemma matches_Atom_inv (ic : bool) (a : atom) (q : quant) (s : jsstring)
    (m : mstate) :
  In m (matches ic (Atom a q) s) ->
  exists x, In x (quantified (atom_ok ic a) q s)
            /\ m = MState (fst x) None (snd x).
Proof.
  simpl. intros H. apply in_map_iff in H. destruct H as (x & <- & Hx).
  exists x. auto.
Qed.

Lemma matches_Group_inv (ic : bool) (r : regex) (s : jsstring)
    (m : mstate) :
  In m (matches ic (Group r) s) ->
  exists m', In m' (matches ic r s)
             /\ m = MState (consumed m') (Some (consumed m')) (remaining m').
Proof.
  simpl. intros H. apply in_map_iff in H. destruct H as (m' & <- & H).
  exists m'. auto.
Qed.

(** What the group of the amount captures. *)
Lemma number_group_matches (ic : bool) (s : jsstring) (m : mstate) :
  In m (matches ic number_group s) ->
  exists g, group1 m = Some g /\ amount_shaped g.
Proof.
  unfold number_group. intros H.
  apply matches_Group_inv in H. destruct H as (m' & H & ->).
  apply matches_Seq_inv in H. destruct H as (ma & mb & Ha & Hb & ->).
  apply matches_Seq_inv in Hb. destruct Hb as (mc & md & Hc & Hd & ->).
  apply matches_Atom_inv in Ha. destruct Ha as (xa & Hxa & ->).
  apply matches_Atom_inv in Hc. destruct Hc as (xc & Hxc & ->).
  apply matches_Atom_inv in Hd. destruct Hd as (xd & Hxd & ->).
  apply plus_all in Hxa. destruct Hxa as (Hne & Hdig).
  apply opt_point in Hxc.
  simpl in Hxd. apply star_greedy_all in Hxd.
  eexists. split; [reflexivity|].
  exists (fst xa), (fst xc), (fst xd). simpl. auto.
Qed.

Lemma nogroup_matches (ic : bool) (r : regex) :
  NoGroup r ->
  forall s m, In m (matches ic r s) -> group1 m = None.
Proof.
  induction 1 as [|a q|r1 r2 _ IH1 _ IH2|r1 r2 _ IH1 _ IH2]; intros s m H.
  - simpl in H. destruct H as [<-|[]]. reflexivity.
  - apply matches_Atom_inv in H. destruct H as (x & _ & ->). reflexivity.
  - apply matches_Seq_inv in H. destruct H as (ma & mb & Ha & Hb & ->).
    simpl. rewrite (IH2 _ _ Hb). exact (IH1 _ _ Ha).
  - simpl in H. apply in_app_or in H. destruct H as [H|H]; eauto.
Qed.

Lemma captures_matches (ic : bool) (r : regex) :
  Captures r ->
  forall s m, In m (matches ic r s) ->
              exists g, group1 m = Some g /\ amount_shaped g.
Proof.
  induction 1 as [|r1 r2 _ IH|r1 r2 _ IH Hno]; intros s m H.
  - exact (number_group_matches _ _ _ H).
  - apply matches_Seq_inv in H. destruct H as (ma & mb & Ha & Hb & ->).
    destruct (IH _ _ Hb) as (g & Hg & Hs).
    exists g. simpl. rewrite Hg. auto.
  - apply matches_Seq_inv in H. destruct H as (ma & mb & Ha & Hb & ->).
    destruct (IH _ _ Ha) as (g & Hg & Hs).
    exists g. simpl. rewrite (nogroup_matches ic Hno _ _ Hb). auto.
Qed.

Lemma exec_re_inv (ic : bool) (r : regex) (s : jsstring) (jm : jsmatch) :
  exec_re ic r s = Some jm ->
  exists s' m, In m (matches ic r s')
               /\ jm = JsMatch (consumed m) (group1 m).
Proof.
  induction s as [|c t IH]; simpl.
  - destruct (matches ic r []) as [|m l] eqn:Em; [discriminate|].
    intros E; inversion E. exists [], m. rewrite Em. simpl. auto.
  - destruct (matches ic r (c :: t)) as [|m l] eqn:Em.
    + exact IH.
    + intros E; inversion E. exists (c :: t), m. rewrite Em. simpl. auto.
Qed.

Lemma NoGroup_word_of (w : jsstring) : NoGroup (word_of w).
Proof.
  induction w as [|c w IH]; [constructor|].
  destruct w as [|c' w]; [constructor|].
  change (word_of (c :: c' :: w)) with (Seq (lit c) (word_of (c' :: w))).
  constructor; [constructor | exact IH].
Qed.

Lemma NoGroup_word (w : string) : NoGroup (word w).
Proof. apply NoGroup_word_of. Qed.

Lemma NoGroup_spaces : NoGroup spaces.
Proof. constructor. Qed.

Lemma NoGroup_any_lazy : NoGroup any_lazy.
Proof. constructor. Qed.

Lemma amount_patterns_capture :
  Forall (fun p => Captures (re p)) cnBalancePatterns
  /\ Forall (fun p => Captures (re p)) usBalancePatterns
  /\ Captures (re htmlPattern).
Proof.
  unfold cnBalancePatterns, usBalancePatterns, htmlPattern.
  repeat split; repeat apply Forall_cons; try apply Forall_nil;
    cbn [re seqs];
    auto 8 using Captures_here, Captures_right, Captures_left,
                 NoGroup_Seq, NoGroup_word, NoGroup_spaces, NoGroup_any_lazy.
Qed.

(** A record of one of the two amount loops. *)
Lemma balanceLoop_amount (pats : list pattern) (symbol text : jsstring)
    (result r : BalanceRecord) :
  Forall (fun p => Captures (re p)) pats ->
  balanceLoop pats symbol text result = Some r ->
  status r = js "有效"
  /\ (exists amount, balance r = Some amount /\ amount_shaped amount)
  /\ currency r = Some symbol
  /\ (exists msg, message r = Some msg)
  /\ code r = code result /\ timestamp r = timestamp result.
Proof.
  induction 1 as [|p pats Hp _ IH]; simpl; [discriminate|].
  destruct (match_ text p) as [jm|] eqn:Em; [|exact IH].
  intros E; inversion E; subst r; clear E. simpl.
  unfold match_ in Em. apply exec_re_inv in Em.
  destruct Em as (s' & m & Hm & ->).
  destruct (captures_matches (ignoreCase p) Hp _ _ Hm) as (g & Hg & Hs).
  simpl. rewrite Hg. repeat split; eauto.
Qed.

(** The match of the scan of the markup starts with the currency sign. *)
Lemma html_match_shape (html : jsstring) (jm : jsmatch) :
  match_ html htmlPattern = Some jm ->
  (exists amount, m1 jm = Some amount /\ amount_shaped amount)
  /\ (charAt0 (m0 jm) = js "$" \/ charAt0 (m0 jm) = js "¥").
Proof.
  unfold match_. intros Em. apply exec_re_inv in Em.
  destruct Em as (s' & m & Hm & ->). simpl. split.
  - destruct amount_patterns_capture as (_ & _ & Hc).
    exact (captures_matches _ Hc _ _ Hm).
  - unfold htmlPattern in Hm. cbn [re seqs ignoreCase] in Hm.
    apply matches_Seq_inv in Hm. destruct Hm as (ma & mb & Ha & _ & ->).
    apply matches_Atom_inv in Ha. destruct Ha as (x & Hx & ->).
    destruct s' as [|c' t']; cbn [quantified] in Hx; [contradiction|].
    destruct (atom_ok false (OneOf (js "$¥")) c') eqn:Hok; [|contradiction].
    destruct Hx as [<-|[]].
    change (js "$¥") with [36; 165]%N in Hok.
    cbn [atom_ok existsb char_eq] in Hok.
    rewrite orb_false_r in Hok. apply orb_true_iff in Hok.
    destruct Hok as [Hok|Hok]; apply N.eqb_eq in Hok; subst c'.
    + left. reflexivity.
    + right. reflexivity.
Qed.

(** The shape of every record of [parseBalanceResult]. *)
Lemma parseBalanceResult_shape (now text html code_ : jsstring) :
  let r := parseBalanceResult now text html code_ in
  code r = maskCode code_
  /\ timestamp r = now
  /\ (exists msg, message r = Some msg)
  /\ ((status r = js "有效"
       /\ exists amount symbol,
            balance r = Some amount /\ amount_shaped amount
            /\ currency r = Some symbol
            /\ (symbol = js "¥" \/ symbol = js "$"))
      \/ ((status r = js "已兑换" \/ status r = js "无效"
           \/ status r = js "未知")
          /\ balance r = None /\ currency r = None)).
Proof.
  intros r. subst r.
  destruct amount_patterns_capture as (Hcn & Hus & _).
  destruct (anyMatch_cases errorPatterns text) as [He|He].
  - rewrite (parseBalanceResult_error now text html code_ He).
    destruct (test alreadyRedeemedPattern text); simpl;
      repeat split; eauto 8.
  - rewrite (parseBalanceResult_no_error now text html code_ He). cbv zeta.
    destruct (balanceLoop cnBalancePatterns (js "¥") text
                (initialRecord now code_)) as [r|] eqn:Ec.
    { destruct (@balanceLoop_amount _ _ _ _ _ Hcn Ec)
        as (Hs & (a & Ha & Hsh) & Hy & Hm & Hcode & Ht).
      repeat split; auto. left. split; [exact Hs|]. exists a, (js "¥").
      auto. }
    destruct (balanceLoop usBalancePatterns (js "$") text
                (initialRecord now code_)) as [r|] eqn:Eu.
    { destruct (@balanceLoop_amount _ _ _ _ _ Hus Eu)
        as (Hs & (a & Ha & Hsh) & Hy & Hm & Hcode & Ht).
      repeat split; auto. left. split; [exact Hs|]. exists a, (js "$").
      auto. }
    destruct (match_ html htmlPattern) as [jm|] eqn:Eh.
    + destruct (html_match_shape html Eh) as ((a & Ha & Hsh) & Hsym).
      simpl. repeat split; eauto.
      left. split; [reflexivity|]. exists a, (charAt0 (m0 jm)).
      repeat split; auto. destruct Hsym; auto.
    + simpl. repeat split; eauto 8.
Qed.

End Shapes.

(** X6: Every record of [parseBalanceResult] carries the masked code, the
    time of the call and a message; it has an amount and a currency
    exactly when its status is 有效, and then the amount is a number
    (digits, an optional dot, digits) and the currency is ¥ or $; with
    the status 已兑换, 无效 or 未知 both are null. *)
Theorem parseBalanceResult_record (now text html code_ : jsstring) :
  let r := parseBalanceResult now text html code_ in
  code r = maskCode code_
  /\ timestamp r = now
  /\ (exists msg, message r = Some msg)
  /\ ((status r = js "有效"
       /\ exists amount symbol,
            balance r = Some amount /\ amount_shaped amount
            /\ currency r = Some symbol
            /\ (symbol = js "¥" \/ symbol = js "$"))
      \/ ((status r = js "已兑换" \/ status r = js "无效"
           \/ status r = js "未知")
          /\ balance r = None /\ currency r = None)).
Proof. apply parseBalanceResult_shape. Qed.

Section RedemptionShape.

Lemma successLoop_spec (pats : list pattern) (text : jsstring)
    (result : RedeemRecord) :
  successLoop pats text result =
    if anyMatch pats text
    then Some {| r_code := r_code result;
                 r_status := js "已兑换";
                 r_message := Some (js "成功兑换到Apple账户");
                 r_timestamp := r_timestamp result |}
    else None.
Proof.
  induction pats as [|p pats IH]; simpl; [reflexivity|].
  destruct (test p text); simpl; [reflexivity | exact IH].
Qed.

Lemma failureLoop_spec (pats : list (pattern * jsstring)) (text : jsstring)
    (result : RedeemRecord) :
  (exists p msg,
      In (p, msg) pats /\ test p text = true
      /\ failureLoop pats text result =
           Some {| r_code := r_code result;
                   r_status := js "失败";
                   r_message := Some msg;
                   r_timestamp := r_timestamp result |})
  \/ ((forall p msg, In (p, msg) pats -> test p text = false)
      /\ failureLoop pats text result = None).
Proof.
  induction pats as [|[p msg] pats IH]; simpl.
  - right. split; [intros p msg []|reflexivity].
  - destruct (test p text) eqn:Hp.
    + left. exists p, msg. auto.
    + destruct IH as [(p' & msg' & Hin & Ht & E)|(Hall & E)].
      * left. exists p', msg'. auto.
      * right. split; [|exact E].
        intros p' msg' [H|H]; [inversion H; subst; exact Hp | eauto].
Qed.

Lemma parseRedemptionResult_shape (now text html code_ : jsstring) :
  let r := parseRedemptionResult now text html code_ in
  r_code r = maskCode code_
  /\ r_timestamp r = now
  /\ ((anyMatch successPatterns text = true
       /\ r_status r = js "已兑换"
       /\ r_message r = Some (js "成功兑换到Apple账户"))
      \/ (anyMatch successPatterns text = false
          /\ r_status r = js "失败"
          /\ exists p msg,
               In (p, msg) redemptionErrorPatterns
               /\ test p text = true /\ r_message r = Some msg)
      \/ (anyMatch successPatterns text = false
          /\ (forall p msg,
                 In (p, msg) redemptionErrorPatterns -> test p text = false)
          /\ r_status r = js "未知"
          /\ r_message r = Some (js "无法确定兑换状态"))).
Proof.
  intros r. subst r. unfold parseRedemptionResult.
  rewrite successLoop_spec.
  destruct (anyMatch successPatterns text) eqn:Hs.
  - simpl. split; [reflexivity|]. split; [reflexivity|]. left. auto.
  - match goal with
    | |- context [failureLoop ?pats text ?res] =>
        destruct (failureLoop_spec pats text res)
          as [(p & msg & Hin & Ht & ->)|(Hall & ->)]
    end.
    + simpl. split; [reflexivity|]. split; [reflexivity|].
      right. left. split; [reflexivity|]. split; [reflexivity|].
      exists p, msg. auto.
    + simpl. split; [reflexivity|]. split; [reflexivity|].
      right. right. repeat split; auto.
Qed.

End RedemptionShape.

(** X7: Every record of [parseRedemptionResult] carries the masked code and
    the time of the call.  A text that a success pattern matches is a
    success (已兑换), whatever error phrase it also holds; otherwise the
    record is a failure (失败) with the message of an error entry that
    matches the text, or, when none matches, 未知. *)
Theorem parseRedemptionResult_record (now text html code_ : jsstring) :
  let r := parseRedemptionResult now text html code_ in
  r_code r = maskCode code_
  /\ r_timestamp r = now
  /\ ((anyMatch successPatterns text = true
       /\ r_status r = js "已兑换"
       /\ r_message r = Some (js "成功兑换到Apple账户"))
      \/ (anyMatch successPatterns text = false
          /\ r_status r = js "失败"
          /\ exists p msg,
               In (p, msg) redemptionErrorPatterns
               /\ test p text = true /\ r_message r = Some msg)
      \/ (anyMatch successPatterns text = false
          /\ (forall p msg,
                 In (p, msg) redemptionErrorPatterns -> test p text = false)
          /\ r_status r = js "未知"
          /\ r_message r = Some (js "无法确定兑换状态"))).
Proof. apply parseRedemptionResult_shape. Qed.

(** ** [checkBalance] and [processBatch] in every environment *)

Section EveryEnvironment.
Context {W : Type}.
Variable env : Env W.
Variable cfg : Config.

Lemma checkBalance_try_events (page : Page) (code_ : jsstring)
    (attempt : Z) :
  runs check_event
       (fun r => code r = maskCode code_ /\ lookup_status (status r))
       (checkBalance_try env cfg page code_ attempt).
Proof.
  unfold checkBalance_try. checker_auto.
  match goal with
  | |- code (parseBalanceResult ?n ?t ?h ?c) = _ /\ _ =>
      destruct (parseBalanceResult_shape n t h c)
        as (Hc & _ & _ & [(Hs & _)|([Hs|[Hs|Hs]] & _)])
  end;
    (split; [exact Hc|]); unfold lookup_status; rewrite Hs; auto 6.
Qed.

Lemma checkBalance_rec_events (code_ : jsstring) (budget : nat) :
  forall attempt : Z,
    (Z.to_nat (retryAttempts cfg - attempt) <= budget)%nat ->
    runs check_event
         (fun r => code r = maskCode code_ /\ lookup_status (status r))
         (checkBalance_rec env cfg budget code_ attempt).
Proof.
  induction budget as [|budget IH]; intros attempt Hbudget;
    cbn [checkBalance_rec];
    (runs_step; [unfold browser_newPage; checker_auto|]);
    (runs_step; [apply checkBalance_try_events|]);
    do 3 (runs_step; [checker_auto|]);
    destruct (Z.ltb_spec attempt (retryAttempts cfg)); try lia;
    try (checker_auto; split; [reflexivity|];
         unfold lookup_status; auto 6).
  do 2 (runs_step; [checker_auto|]). apply IH. lia.
Qed.

Lemma processLoop_inv (codes : list jsstring) :
  forall (i n : Z) (s : State W),
    processLoop_post cfg codes i n s (processLoop env cfg codes i n s).
Proof.
  induction codes as [|c codes IH]; intros i n s.
  - unfold processLoop_post. simpl. split; [reflexivity|].
    exists [], []. rewrite !app_nil_r.
    do 3 (split; [auto|]). do 2 (split; [reflexivity|]).
    intros _. exists []. repeat split; auto.
  - cbn [processLoop].
    unfold bind at 1, log at 1. cbv beta iota.
    unfold bind at 1, log at 1. cbv beta iota.
    cbn [world console browser results].
    unfold bind at 1, checkBalance at 1.
    match goal with
    | |- context [checkBalance_rec env cfg ?b c 1 ?s1] =>
        destruct (checkBalance_rec env cfg b c 1 s1) as [[a|e|] s2] eqn:Ec;
        pose proof (@checkBalance_rec_events c b 1 (Nat.le_refl _)) as R;
        destruct (R _ _ _ Ec) as (Hb2 & Hr2 & (evc & Hc2 & Hfc) & Hq);
        clear R; cbn [world console browser results] in Hb2, Hr2, Hc2
    end.
    + unfold bind at 1, get_results at 1. cbv beta iota.
      unfold bind at 1, set_results at 1. cbv beta iota.
      unfold bind at 1.
      destruct Hq as (Hcode & Hst).
      assert (Hstep : exists s3,
                 (if i <? n - 1
                  then log (LogWait (delayBetweenCards cfg));;
                       delay env (delayBetweenCards cfg)
                  else ret tt)
                   {| world := world s2; console := console s2;
                      browser := browser s2;
                      results := results s2 ++ [a] |}
                 = (Ok tt, s3)
                 /\ browser s3 = browser s2
                 /\ results s3 = results s2 ++ [a]
                 /\ console s3 =
                      console s2
                        ++ (if i <? n - 1
                            then [LogWait (delayBetweenCards cfg)] else [])).
      { destruct (i <? n - 1).
        - eexists; split; [reflexivity|]. simpl. auto.
        - eexists; split; [reflexivity|]. simpl.
          rewrite app_nil_r. auto. }
      destruct Hstep as (s3 & -> & Hb3 & Hr3 & Hc3).
      specialize (IH (i + 1) n s3).
      destruct (processLoop env cfg codes (i + 1) n s3) as [r s'].
      unfold processLoop_post in *.
      destruct IH as (Hb' & rs & evs & Hr' & Hc' & Hf & Hout).
      cbn [fst snd] in *.
      split; [congruence|].
      exists (a :: rs),
        ([LogSeparator; LogProgress (i + 1) n] ++ evc
         ++ (if i <? n - 1 then [LogWait (delayBetweenCards cfg)] else [])
         ++ evs).
      split; [rewrite Hr', Hr3, Hr2, <- app_assoc; reflexivity|].
      split.
      { rewrite Hc', Hc3, Hc2. rewrite <- !app_assoc. reflexivity. }
      split; [constructor; auto|].
      destruct r as [[]|e|]; [|simpl; lia|exact Hout].
      destruct Hout as (Hl & Hm & Hw).
      split; [simpl; congruence|]. split; [simpl; congruence|].
      intros Hn.
      assert (Hn' : n = i + 1 + Z.of_nat (List.length codes))
        by (cbn [List.length] in Hn; lia).
      destruct (Hw Hn') as (lookups & Hll & Hfl & ->).
      exists (evc :: lookups).
      split; [simpl; congruence|]. split; [constructor; assumption|].
      cbn [batch_console].
      destruct (Z.ltb_spec i (n - 1)); destruct lookups as [|l0 lookups];
        cbn [List.length] in *; try reflexivity; exfalso; lia.
    + unfold processLoop_post. cbn [fst snd]. split; [congruence|].
      exists [], ([LogSeparator; LogProgress (i + 1) n] ++ evc).
      rewrite app_nil_r. split; [congruence|].
      split; [rewrite Hc2, <- !app_assoc; reflexivity|].
      split; [constructor|]. simpl. lia.
    + contradiction.
Qed.

Lemma processBatch_inv (codes : list jsstring) (s : State W) :
  processBatch_post cfg codes s (processBatch env cfg codes s).
Proof.
  unfold processBatch.
  unfold bind at 1, log at 1. cbv beta iota.
  unfold bind at 1, perform at 1. cbn [world console browser results].
  destruct (existsSync env (js "screenshots") (world s)) as [present w].
  unfold bind at 1.
  assert (Hdir :
            (exists e s1,
                (if present then ret tt
                 else await (mkdirSync env (js "screenshots")))
                  {| world := w;
                     console := console s
                                ++ [LogBatchStart
                                      (Z.of_nat (List.length codes))];
                     browser := browser s; results := results s |}
                = (Throw e, s1))
            \/ (exists w1,
                   (if present then ret tt
                    else await (mkdirSync env (js "screenshots")))
                     {| world := w;
                        console := console s
                                   ++ [LogBatchStart
                                         (Z.of_nat (List.length codes))];
                        browser := browser s; results := results s |}
                   = (Ok tt,
                      {| world := w1;
                         console := console s
                                    ++ [LogBatchStart
                                          (Z.of_nat (List.length codes))];
                         browser := browser s; results := results s |}))).
  { destruct present.
    - right. exists w. reflexivity.
    - unfold await. cbn [world console browser results].
      destruct (mkdirSync env (js "screenshots") w) as [[e|[]] w1].
      + left. do 2 eexists. reflexivity.
      + right. exists w1. reflexivity. }
  destruct Hdir as [(e & s1 & ->)|(w1 & ->)].
  { unfold processBatch_post. exact I. }
  unfold bind at 1, set_results at 1. cbv beta iota.
  cbn [world console browser results].
  unfold bind at 1.
  match goal with
  | |- context [processLoop env cfg codes 0 ?n ?s1] =>
      pose proof (processLoop_inv codes 0 n s1) as Hloop;
      destruct (processLoop env cfg codes 0 n s1) as [[[]|e|] s2]
  end;
    unfold processLoop_post in Hloop;
    cbn [fst snd world console browser results app] in Hloop;
    destruct Hloop as (Hb & rs & evs & Hr & Hc & Hf & Hout).
  - destruct Hout as (Hl & Hm & Hw).
    destruct (Hw eq_refl) as (lookups & Hll & Hfl & Hev). subst evs.
    unfold processBatch_post, printSummary, bind, log, get_results.
    cbv beta iota. cbn [fst snd world console browser results].
    rewrite Hr. do 4 (split; [auto|]).
    exists lookups. do 2 (split; [assumption|]).
    rewrite Hc. rewrite <- !app_assoc. reflexivity.
  - unfold processBatch_post. exact I.
  - contradiction.
Qed.

Lemma lookup_status_counts (rs : list BalanceRecord) :
  Forall (fun r => lookup_status (status r)) rs ->
  count_status (js "有效") rs + count_status (js "无效") rs
  + count_status (js "已兑换") rs + count_status (js "错误") rs
  + count_status (js "未知") rs = Z.of_nat (List.length rs).
Proof.
  unfold count_status.
  induction 1 as [|r rs Hr _ IH]; [reflexivity|].
  cbn [filter].
  destruct Hr as [Hs|[Hs|[Hs|[Hs|Hs]]]]; rewrite Hs;
    repeat match goal with
           | |- context [eqb (js ?a) (js ?b)] =>
               let v := eval vm_compute in (eqb (js a) (js b)) in
               change (eqb (js a) (js b)) with v
           end;
    cbn [List.length]; lia.
Qed.

Lemma lookup_status_not_valid (rs : list BalanceRecord) :
  Forall (fun r => lookup_status (status r)) rs -> validCards rs = [].
Proof.
  unfold validCards.
  induction 1 as [|r rs Hr _ IH]; [reflexivity|].
  cbn [filter].
  destruct Hr as [Hs|[Hs|[Hs|[Hs|Hs]]]]; rewrite Hs;
    match goal with
    | |- context [eqb (js ?a) (js ?b)] =>
        let v := eval vm_compute in (eqb (js a) (js b)) in
        change (eqb (js a) (js b)) with v
    end;
    exact IH.
Qed.

(** X8: [processBatch] returns or throws within the budget of the model, and
    whenever it returns, the list returned is [this.results] and the last
    line of the console is its summary: the total is the number of codes,
    each of the five counts is the number of records returned with the
    status 有效, 无效, 已兑换, 错误 and 未知, in this order, and the five
    counts add up to the total, so no record is left out of the five
    categories or counted twice. *)
Theorem processBatch_summary_adds_up (codes : list jsstring)
    (s : State W) :
  match fst (processBatch env cfg codes s) with
  | Ok rs =>
      results (snd (processBatch env cfg codes s)) = rs
      /\ (exists evs,
             console (snd (processBatch env cfg codes s)) =
               console s ++ evs
                 ++ [LogSummary (Z.of_nat (List.length codes))
                                (count_status (js "有效") rs)
                                (count_status (js "无效") rs)
                                (count_status (js "已兑换") rs)
                                (count_status (js "错误") rs)
                                (count_status (js "未知") rs)])
      /\ count_status (js "有效") rs + count_status (js "无效") rs
         + count_status (js "已兑换") rs + count_status (js "错误") rs
         + count_status (js "未知") rs
         = Z.of_nat (List.length codes)
  | Throw _ => True
  | Exhausted => False
  end.
Proof.
  pose proof (processBatch_inv codes s) as H.
  unfold processBatch_post in H.
  destruct (processBatch env cfg codes s) as [[rs|e|] s']; cbn [fst snd] in *;
    auto.
  destruct H as (Hr & Hl & _ & Hf & lookups & _ & _ & Hc).
  split; [exact Hr|]. split.
  - exists ([LogBatchStart (Z.of_nat (List.length codes))]
            ++ batch_console (delayBetweenCards cfg) 0
                 (Z.of_nat (List.length codes)) lookups
            ++ [LogSeparator]).
    rewrite Hc, Hl. rewrite <- !app_assoc. reflexivity.
  - rewrite <- Hl. apply lookup_status_counts. exact Hf.
Qed.

(** X10: [main] selects the records whose status is the word valid, but
    [checkBalance] writes the statuses 有效, 无效, 已兑换, 错误 and 未知:
    whatever the pages show, the list of cards to redeem that [main] makes
    from the result of [processBatch] is empty, and its redemption step is
    never reached. *)
Theorem main_selects_no_card (codes : list jsstring) (s : State W) :
  match fst (processBatch env cfg codes s) with
  | Ok rs => validCards rs = []
  | _ => True
  end.
Proof.
  pose proof (processBatch_inv codes s) as H.
  unfold processBatch_post in H.
  destruct (processBatch env cfg codes s) as [[rs|e|] s']; cbn [fst snd] in *;
    auto.
  destruct H as (_ & _ & _ & Hf & _).
  apply lookup_status_not_valid. exact Hf.
Qed.

(** *** The attempts of [checkBalance] *)

Lemma no_check_attempts (evs : list LogEvent) :
  Forall no_check evs -> attempts evs = [].
Proof.
  induction 1 as [|e evs He _ IH]; simpl; [reflexivity|].
  destruct e; simpl in He; try contradiction; exact IH.
Qed.

Lemma attempts_within_quiet {A} (Q : A -> Prop) (a : Z) (n : nat)
    (m : M (W:=W) A) :
  runs no_check Q m -> attempts_within a n m.
Proof.
  intros R s. destruct (m s) as [r s'] eqn:E.
  destruct (R _ _ _ E) as (_ & _ & (evs & Hc & Hf) & _).
  exists evs, 0%nat. cbn [snd]. rewrite (no_check_attempts Hf).
  repeat split; auto. lia.
Qed.

Lemma attempts_within_bind {A B} (Q : A -> Prop) (a : Z) (n : nat)
    (m : M (W:=W) A) (k : A -> M (W:=W) B) :
  runs no_check Q m ->
  (forall x, attempts_within a n (k x)) ->
  attempts_within a n (bind m k).
Proof.
  intros R Hk s. unfold bind. destruct (m s) as [[x|e|] s1] eqn:E;
    destruct (R _ _ _ E) as (_ & _ & (evs & Hc & Hf) & Hq);
    try contradiction.
  - destruct (Hk x s1) as (evs' & j & Hc' & Ha & Hj).
    exists (evs ++ evs'), j.
    rewrite Hc', Hc, app_assoc, attempts_app, (no_check_attempts Hf).
    auto.
  - exists evs, 0%nat. cbn [snd]. rewrite (no_check_attempts Hf).
    repeat split; auto. lia.
Qed.

Lemma attempts_within_try {A} (a : Z) (n : nat)
    (body : M (W:=W) A) (handler : Error -> M (W:=W) A) :
  (forall s, exists evs,
      console (snd (body s)) = console s ++ evs /\ attempts evs = [a]) ->
  (forall s, fst (body s) <> Exhausted) ->
  (forall e, attempts_within (a + 1) n (handler e)) ->
  attempts_within a (S n) (try_catch body handler).
Proof.
  intros Hbody Hfuel Hh s. unfold try_catch.
  destruct (Hbody s) as (evs & Hc & Ha). specialize (Hfuel s).
  destruct (body s) as [[x|e|] s1]; cbn [fst snd] in *.
  - exists evs, 1%nat. rewrite Ha. repeat split; auto. lia.
  - destruct (Hh e s1) as (evs' & j & Hc' & Ha' & Hj).
    exists (evs ++ evs'), (S j).
    rewrite Hc', Hc, app_assoc, attempts_app, Ha, Ha'.
    repeat split; auto. lia.
  - congruence.
Qed.

Lemma attempts_within_more {A} (a : Z) (n n' : nat) (m : M (W:=W) A) :
  (n <= n')%nat -> attempts_within a n m -> attempts_within a n' m.
Proof.
  intros Hn Hm s. destruct (Hm s) as (evs & j & Hc & Ha & Hj).
  exists evs, j. repeat split; auto. lia.
Qed.

Lemma checkBalance_try_one_attempt (page : Page) (code_ : jsstring)
    (attempt : Z) (s : State W) :
  (exists evs,
      console (snd (checkBalance_try env cfg page code_ attempt s))
        = console s ++ evs
      /\ attempts evs = [attempt])
  /\ fst (checkBalance_try env cfg page code_ attempt s) <> Exhausted.
Proof.
  destruct (checkBalance_try env cfg page code_ attempt s) as [r s'] eqn:E.
  destruct (checkBalance_try_runs _ _ _ _ _ _ E)
    as (_ & _ & (evs & Hc & Hq) & Hr).
  destruct (quiet_attempts Hq) as (Ha & _).
  cbn [fst snd]. split.
  - eexists. split; [exact Hc|]. simpl. rewrite Ha. reflexivity.
  - intros ->. exact Hr.
Qed.

Lemma checkBalance_rec_attempts (code_ : jsstring) (budget : nat) :
  forall attempt : Z,
    attempts_within attempt (S budget)
      (checkBalance_rec env cfg budget code_ attempt).
Proof.
  induction budget as [|budget IH]; intros attempt;
    cbn [checkBalance_rec];
    (apply attempts_within_bind with (Q := fun _ => True);
     [unfold browser_newPage; checker_auto | intros page]);
    (apply attempts_within_try;
     [ intros s; apply checkBalance_try_one_attempt
     | intros s; apply checkBalance_try_one_attempt
     | intros e ]);
    do 3 (apply attempts_within_bind with (Q := fun _ => True);
          [checker_auto | intros _]);
    destruct (attempt <? retryAttempts cfg);
    try solve [apply attempts_within_quiet with (Q := fun _ => True);
               checker_auto].
  - unfold attempts_within. intros s.
    exists (@nil LogEvent). exists O. cbn. rewrite app_nil_r.
    repeat split; auto.
  - do 2 (apply attempts_within_bind with (Q := fun _ => True);
          [checker_auto | intros _]).
    apply IH.
Qed.

(** X11: Whatever the browser does, [checkBalance] ends by itself, with a
    record or an error thrown, and never by the budget of the model; the
    attempts it has started by then are numbered 1, 2, ... without a gap
    and are at most [retryAttempts], and at most one when [retryAttempts]
    is below one. *)
Theorem checkBalance_never_exceeds_retries (code_ : jsstring)
    (s : State W) :
  fst (checkBalance env cfg code_ 1 s) <> Exhausted
  /\ exists evs k,
       console (snd (checkBalance env cfg code_ 1 s)) = console s ++ evs
       /\ attempts evs = numbers 1 k
       /\ (k <= Z.to_nat (Z.max 1 (retryAttempts cfg)))%nat.
Proof.
  split; [apply checkBalance_within_budget|].
  unfold checkBalance.
  destruct (checkBalance_rec_attempts code_
              (Z.to_nat (retryAttempts cfg - 1)) 1 s)
    as (evs & k & Hc & Ha & Hk).
  exists evs, k. repeat split; auto. lia.
Qed.

End EveryEnvironment.

(** ** The pauses of [processBatch] *)

Section Timed.
Context {W : Type}.

Lemma pause_time_app (l1 l2 : list LogEvent) :
  pause_time (l1 ++ l2) = pause_time l1 + pause_time l2.
Proof.
  induction l1 as [|e l1 IH]; [reflexivity|].
  rewrite <- app_comm_cons.
  destruct e; cbn [pause_time]; rewrite ?IH; lia.
Qed.

Lemma retries_app (l1 l2 : list LogEvent) :
  retries (l1 ++ l2) = retries l1 + retries l2.
Proof.
  induction l1 as [|e l1 IH]; [reflexivity|].
  rewrite <- app_comm_cons.
  destruct e; cbn [retries]; rewrite ?IH; lia.
Qed.

Lemma metered_call_meter {R} (c : W -> R * W) (w : W * Z) :
  snd (snd (metered_call c w)) = snd w.
Proof. unfold metered_call. destruct (c (fst w)). reflexivity. Qed.

Lemma timed_still {A} (m : M (W:=W * Z) A) :
  (forall s, snd (m s) = s) -> timed m.
Proof.
  intros H s r s' E. pose proof (H s) as Hs. rewrite E in Hs. simpl in Hs.
  subst s'. exists []. rewrite app_nil_r. simpl. split; [reflexivity|lia].
Qed.

Lemma timed_ret {A} (a : A) : timed (W:=W) (ret a).
Proof. apply timed_still. reflexivity. Qed.

Lemma timed_throw {A} (e : Error) : timed (W:=W) (A:=A) (throw e).
Proof. apply timed_still. reflexivity. Qed.

Lemma timed_exhausted {A} : timed (W:=W) (A:=A) exhausted.
Proof. apply timed_still. reflexivity. Qed.

Lemma timed_get_browser : timed (W:=W) get_browser.
Proof. apply timed_still. reflexivity. Qed.

Lemma timed_get_results : timed (W:=W) get_results.
Proof. apply timed_still. reflexivity. Qed.

Lemma timed_set_results (rs : list BalanceRecord) :
  timed (W:=W) (set_results rs).
Proof.
  intros s r s' E. inversion E; subst; clear E. exists [].
  rewrite app_nil_r. unfold slept. simpl. split; [reflexivity|lia].
Qed.

Lemma timed_bind {A B} (m : M (W:=W * Z) A) (k : A -> M (W:=W * Z) B) :
  timed m -> (forall a, timed (k a)) -> timed (bind m k).
Proof.
  intros Hm Hk s r s' E. unfold bind in E.
  destruct (m s) as [[a|e|] s1] eqn:Em;
    destruct (Hm _ _ _ Em) as (evs & Hc & Ht).
  - destruct (Hk a _ _ _ E) as (evs' & Hc' & Ht').
    exists (evs ++ evs'). rewrite Hc', Hc, app_assoc, pause_time_app.
    split; [reflexivity|lia].
  - inversion E; subst; clear E. exists evs. auto.
  - inversion E; subst; clear E. exists evs. auto.
Qed.

Lemma timed_try_catch {A} (m : M (W:=W * Z) A)
    (h : Error -> M (W:=W * Z) A) :
  timed m -> (forall e, timed (h e)) -> timed (try_catch m h).
Proof.
  intros Hm Hh s r s' E. unfold try_catch in E.
  destruct (m s) as [[a|e|] s1] eqn:Em;
    destruct (Hm _ _ _ Em) as (evs & Hc & Ht).
  - inversion E; subst; clear E. exists evs. auto.
  - destruct (Hh e _ _ _ E) as (evs' & Hc' & Ht').
    exists (evs ++ evs'). rewrite Hc', Hc, app_assoc, pause_time_app.
    split; [reflexivity|lia].
  - inversion E; subst; clear E. exists evs. auto.
Qed.

Lemma timed_await {A} (c : W -> (Error + A) * W) :
  timed (await (metered_call c)).
Proof.
  intros s r s' E. unfold await in E.
  pose proof (metered_call_meter c (world s)) as Hm.
  destruct (metered_call c (world s)) as [[e|a] w]; inversion E; subst;
    clear E; exists []; rewrite app_nil_r; unfold slept; simpl in *;
    (split; [reflexivity|lia]).
Qed.

Lemma timed_perform {A} (c : W -> A * W) :
  timed (perform (metered_call c)).
Proof.
  intros s r s' E. unfold perform in E.
  pose proof (metered_call_meter c (world s)) as Hm.
  destruct (metered_call c (world s)) as [a w]; inversion E; subst;
    clear E; exists []; rewrite app_nil_r; unfold slept; simpl in *;
    (split; [reflexivity|lia]).
Qed.

Lemma timed_log (e : LogEvent) :
  pause_time [e] = 0 -> timed (W:=W) (log e).
Proof.
  intros He s r s' E. inversion E; subst; clear E. exists [e].
  unfold slept. simpl console. simpl world. rewrite He.
  split; [reflexivity|lia].
Qed.

(** A line and the pause that follows it. *)
Lemma timed_pause {A} (env : Env W) (e : LogEvent) (ms : Z)
    (k : M (W:=W * Z) A) :
  pause_time [e] = ms ->
  timed k ->
  timed (log e;; delay (metered env) ms;; k).
Proof.
  intros He Hk s r s' E.
  unfold bind at 1, log at 1 in E. cbv beta iota in E.
  unfold bind at 1, delay, perform at 1 in E. cbv beta iota in E.
  cbn [world console browser results setTimeout metered] in E.
  destruct (Hk _ _ _ E) as (evs & Hc & Ht).
  cbn [world console browser results] in Hc, Ht. unfold slept in *.
  cbn [world snd] in Ht.
  exists (e :: evs). rewrite Hc, <- app_assoc. split; [reflexivity|].
  change (e :: evs) with ([e] ++ evs). rewrite pause_time_app, He. lia.
Qed.

End Timed.

Ltac timed_step :=
  lazymatch goal with
  | |- timed (bind (log _) (fun _ => bind (delay _ _) _)) =>
      apply timed_pause; [reflexivity|]
  | |- timed (bind _ _) => apply timed_bind; [|intros ?]
  | |- timed (try_catch _ _) => apply timed_try_catch; [|intros ?]
  | |- timed (ret _) => apply timed_ret
  | |- timed (throw _) => apply timed_throw
  | |- timed exhausted => apply timed_exhausted
  | |- timed (await _) => apply timed_await
  | |- timed (perform _) => apply timed_perform
  | |- timed (log _) => apply timed_log; try reflexivity
  | |- timed get_browser => apply timed_get_browser
  | |- timed get_results => apply timed_get_results
  | |- timed (set_results _) => apply timed_set_results
  | |- timed (if ?b then _ else _) => destruct b
  | |- timed (match ?x with Some _ => _ | None => _ end) => destruct x
  | |- timed (match ?x with [] => _ | _ :: _ => _ end) => destruct x
  | |- timed (let _ := _ in _) => cbv zeta
  end.

Ltac timed_auto := repeat timed_step.

Section Pauses.
Context {W : Type}.
Variable env : Env W.
Variable cfg : Config.

Lemma probeInput_timed (page : Page) (selectors : list jsstring) :
  timed (probeInput (metered env) page selectors).
Proof.
  induction selectors as [|sel rest IH]; cbn [probeInput].
  - timed_auto.
  - timed_step; [timed_auto|].
    destruct a; [timed_auto | exact IH].
Qed.

Lemma clickFirst_timed (clicked : jsstring -> LogEvent) (page : Page)
    (selectors : list jsstring) :
  (forall sel, pause_time [clicked sel] = 0) ->
  timed (clickFirst (metered env) clicked page selectors).
Proof.
  intros Hc. induction selectors as [|sel rest IH]; cbn [clickFirst].
  - timed_auto.
  - timed_step.
    + timed_auto. apply Hc.
    + destruct a; [timed_auto | exact IH].
Qed.

Lemma locateInput_timed (page : Page) :
  timed (locateInput (metered env) page).
Proof.
  unfold locateInput.
  timed_step; [apply probeInput_timed|]. timed_auto.
Qed.

Lemma checkBalance_try_timed (page : Page) (code_ : jsstring) (attempt : Z) :
  timed (checkBalance_try (metered env) cfg page code_ attempt).
Proof.
  unfold checkBalance_try.
  repeat first
    [ apply locateInput_timed
    | apply clickFirst_timed; intros ?; reflexivity
    | timed_step ].
Qed.

Lemma checkBalance_rec_timed (code_ : jsstring) (budget : nat) :
  forall attempt : Z,
    timed (checkBalance_rec (metered env) cfg budget code_ attempt).
Proof.
  induction budget as [|budget IH]; intros attempt; cbn [checkBalance_rec];
    (timed_step; [unfold browser_newPage; timed_auto|]);
    (timed_step; [apply checkBalance_try_timed|]);
    do 3 (timed_step; [timed_auto|]);
    destruct (attempt <? retryAttempts cfg); try solve [timed_auto].
  timed_step. apply IH.
Qed.

Lemma processLoop_timed (codes : list jsstring) :
  forall i n : Z, timed (processLoop (metered env) cfg codes i n).
Proof.
  induction codes as [|c codes IH]; intros i n; cbn [processLoop].
  - timed_auto.
  - do 2 (timed_step; [timed_auto|]).
    timed_step; [apply checkBalance_rec_timed|].
    do 2 (timed_step; [timed_auto|]).
    timed_step; [|apply IH].
    destruct (i <? n - 1); [|timed_auto].
    intros s r s' E. unfold bind, log, delay, perform in E.
    cbn [world console browser results setTimeout metered] in E.
    inversion E; subst; clear E.
    exists [LogWait (delayBetweenCards cfg)]. unfold slept.
    cbn [world console snd pause_time]. split; [reflexivity|lia].
Qed.

Lemma processBatch_timed (codes : list jsstring) :
  timed (processBatch (metered env) cfg codes).
Proof.
  unfold processBatch, printSummary.
  repeat first [ apply processLoop_timed | timed_step ].
Qed.

Lemma check_event_pause (evs : list LogEvent) :
  Forall check_event evs -> pause_time evs = 5000 * retries evs.
Proof.
  induction 1 as [|e evs He _ IH]; [reflexivity|].
  destruct e; cbn [check_event] in He; try contradiction;
    cbn [pause_time retries]; lia.
Qed.

Lemma batch_console_pause (d : Z) (lookups : list (list LogEvent)) :
  forall i n : Z,
    Forall (Forall check_event) lookups ->
    pause_time (batch_console d i n lookups)
    = d * Z.of_nat (List.length lookups - 1)
      + 5000 * retries (batch_console d i n lookups).
Proof.
  induction lookups as [|lookup rest IH]; intros i n Hf;
    [cbn [batch_console pause_time retries List.length Nat.sub]; lia|].
  inversion Hf as [|? ? Hl Hr]; subst.
  specialize (IH (i + 1) n Hr).
  cbn [batch_console].
  rewrite !pause_time_app, !retries_app, IH, (check_event_pause Hl).
  destruct rest as [|r rest].
  - cbn [pause_time retries List.length Nat.sub app]. lia.
  - cbn [pause_time retries List.length Nat.sub app].
    rewrite Nat.sub_0_r, Nat2Z.inj_succ. nia.
Qed.


(** X9: Whenever [processBatch] returns, the console holds, after the line
    of the start, the lines of each card in turn: the separator and the
    progress, then the lines of the lookup of the card, then the line of
    the pause when another card follows, and nothing after the lookup of
    the last card but the separator and the summary.  Run with a meter on
    [setTimeout], a batch that returns has slept [delayBetweenCards] once
    for each card but the last, and five seconds for each retry of a
    lookup, and no more. *)
Theorem processBatch_pauses_between_cards (codes : list jsstring) :
  (forall s : State W,
      match fst (processBatch env cfg codes s) with
      | Ok rs =>
          exists lookups,
            List.length lookups = List.length codes
            /\ Forall (Forall check_event) lookups
            /\ console (snd (processBatch env cfg codes s)) =
                 console s
                   ++ [LogBatchStart (Z.of_nat (List.length codes))]
                   ++ batch_console (delayBetweenCards cfg) 0
                        (Z.of_nat (List.length codes)) lookups
                   ++ [LogSeparator;
                       LogSummary (Z.of_nat (List.length rs))
                                  (count_status (js "有效") rs)
                                  (count_status (js "无效") rs)
                                  (count_status (js "已兑换") rs)
                                  (count_status (js "错误") rs)
                                  (count_status (js "未知") rs)]
      | Throw _ => True
      | Exhausted => False
      end)
  /\ (forall s : State (W * Z),
         match fst (processBatch (metered env) cfg codes s) with
         | Ok rs =>
             exists evs,
               console (snd (processBatch (metered env) cfg codes s))
                 = console s ++ evs
               /\ slept (snd (processBatch (metered env) cfg codes s))
                  = slept s
                    + delayBetweenCards cfg
                      * Z.of_nat (List.length codes - 1)
                    + 5000 * retries evs
         | Throw _ => True
         | Exhausted => False
         end).
Proof.
  split; intros s.
  - pose proof (processBatch_inv env cfg codes s) as H.
    unfold processBatch_post in H.
    destruct (processBatch env cfg codes s) as [[rs|e|] s'];
      cbn [fst snd] in *; auto.
    destruct H as (_ & _ & _ & _ & H). exact H.
  - pose proof (processBatch_inv (metered env) cfg codes s) as H.
    unfold processBatch_post in H.
    destruct (processBatch (metered env) cfg codes s) as [[rs|e|] s'] eqn:E;
      cbn [fst snd] in *; auto.
    destruct H as (_ & _ & _ & _ & lookups & Hll & Hfl & Hc).
    pose proof (processBatch_timed codes) as T.
    destruct (T _ _ _ E) as (evs & Hc' & Ht). clear T.
    rewrite Hc in Hc'. apply app_inv_head in Hc'. subst evs.
    eexists. split; [exact Hc|]. rewrite Ht.
    rewrite !pause_time_app, !retries_app.
    rewrite (@batch_console_pause (delayBetweenCards cfg) lookups 0
               (Z.of_nat (List.length codes)) Hfl), Hll.
    cbn [pause_time retries]. lia.
Qed.

End Pauses.

(** ** [redeemCard] and [redeemBatch] *)

Section Redemption.
Context {W : Type}.
Variable env : Env W.
Variable cfg : Config.

Lemma redeemCard_try_status (page : Page)
    (code_ appleId password : jsstring) :
  runs (fun _ => True)
       (fun r => r_code r = maskCode code_ /\ redeem_status (r_status r))
       (redeemCard_try env cfg page code_ appleId password).
Proof.
  unfold redeemCard_try, checkIfLoginRequired. checker_auto.
  - apply loginToApple_runs.
  - match goal with
    | |- r_code (parseRedemptionResult ?n ?t ?h ?c) = _ /\ _ =>
        destruct (parseRedemptionResult_shape n t h c)
          as (Hc & _ & [(_ & Hs & _)|[(_ & Hs & _)|(_ & _ & Hs & _)]])
    end;
      (split; [exact Hc|]); unfold redeem_status; rewrite Hs; auto.
Qed.

Lemma redeemCard_rec_status (code_ appleId password : jsstring)
    (budget : nat) :
  forall attempt : Z,
    (Z.to_nat (retryAttempts cfg - attempt) <= budget)%nat ->
    runs (fun _ => True)
         (fun r => r_code r = maskCode code_ /\ redeem_status (r_status r))
         (redeemCard_rec env cfg budget code_ appleId password attempt).
Proof.
  induction budget as [|budget IH]; intros attempt Hbudget;
    cbn [redeemCard_rec];
    (runs_step; [unfold browser_newPage; checker_auto|]);
    (runs_step; [apply redeemCard_try_status|]);
    do 3 (runs_step; [checker_auto|]);
    destruct (Z.ltb_spec attempt (retryAttempts cfg)); try lia;
    try (checker_auto; split; [reflexivity|];
         unfold redeem_status; auto 6).
  do 2 (runs_step; [checker_auto|]). apply IH. lia.
Qed.

Lemma redeemLoop_inv (appleId password : jsstring) (codes : list jsstring) :
  forall (i n : Z) (acc : list RedeemRecord) (s : State W),
    redeemLoop_post codes acc s
      (redeemLoop env cfg codes appleId password i n acc s).
Proof.
  induction codes as [|c codes IH]; intros i n acc s.
  - unfold redeemLoop_post. simpl. exists []. rewrite app_nil_r.
    repeat split; auto. exists []. rewrite app_nil_r. reflexivity.
  - cbn [redeemLoop].
    unfold bind at 1, log at 1. cbv beta iota.
    unfold bind at 1, log at 1. cbv beta iota.
    cbn [world console browser results].
    unfold bind at 1, redeemCard at 1.
    match goal with
    | |- context [redeemCard_rec env cfg ?b c appleId password 1 ?s1] =>
        destruct (redeemCard_rec env cfg b c appleId password 1 s1)
          as [[a|e|] s2] eqn:Ec;
        pose proof (@redeemCard_rec_status c appleId password b 1
                      (Nat.le_refl _)) as R;
        destruct (R _ _ _ Ec) as (_ & _ & (evc & Hc2 & _) & Hq); clear R;
        cbn [console] in Hc2
    end.
    + unfold bind at 1.
      assert (Hstep : exists s3 evw,
                 (if i <? n - 1
                  then log (LogRedeemWait (delayBetweenCards cfg));;
                       delay env (delayBetweenCards cfg)
                  else ret tt) s2 = (Ok tt, s3)
                 /\ console s3 = console s2 ++ evw).
      { destruct (i <? n - 1).
        - do 2 eexists. split; reflexivity.
        - exists s2, []. rewrite app_nil_r. split; reflexivity. }
      destruct Hstep as (s3 & evw & -> & Hc3).
      specialize (IH (i + 1) n (acc ++ [a]) s3).
      destruct (redeemLoop env cfg codes appleId password (i + 1) n
                  (acc ++ [a]) s3) as [r s'].
      unfold redeemLoop_post in *. cbn [fst snd] in *.
      destruct r as [all|e|]; auto.
      destruct IH as (rs & -> & Hl & Hm & Hf & (evs & Hc')).
      destruct Hq as (Hcode & Hst).
      exists (a :: rs). rewrite <- app_assoc.
      repeat split; simpl; auto; try congruence.
      eexists. rewrite Hc', Hc3, Hc2. rewrite <- !app_assoc. reflexivity.
    + unfold redeemLoop_post. exact I.
    + contradiction.
Qed.

Lemma redeem_status_counts (rs : list RedeemRecord) :
  Forall (fun r => redeem_status (r_status r)) rs ->
  count_rstatus (js "已兑换") rs
  + (count_rstatus (js "失败") rs + count_rstatus (js "兑换失败") rs)
  + count_rstatus (js "未知") rs = Z.of_nat (List.length rs).
Proof.
  unfold count_rstatus.
  induction 1 as [|r rs Hr _ IH]; [reflexivity|].
  cbn [filter].
  destruct Hr as [Hs|[Hs|[Hs|Hs]]]; rewrite Hs;
    repeat match goal with
           | |- context [eqb (js ?a) (js ?b)] =>
               let v := eval vm_compute in (eqb (js a) (js b)) in
               change (eqb (js a) (js b)) with v
           end;
    cbn [orb List.length]; lia.
Qed.

(** The count of the failures in the summary: the records with the status
    失败 and those with the status 兑换失败. *)
Lemma redeem_failed_count (rs : list RedeemRecord) :
  Forall (fun r => redeem_status (r_status r)) rs ->
  Z.of_nat (List.length
    (filter (fun r => eqb (r_status r) (js "失败")
                      || eqb (r_status r) (js "兑换失败")) rs))
  = count_rstatus (js "失败") rs + count_rstatus (js "兑换失败") rs.
Proof.
  unfold count_rstatus.
  induction 1 as [|r rs Hr _ IH]; [reflexivity|].
  cbn [filter].
  destruct Hr as [Hs|[Hs|[Hs|Hs]]]; rewrite Hs;
    repeat match goal with
           | |- context [eqb (js ?a) (js ?b)] =>
               let v := eval vm_compute in (eqb (js a) (js b)) in
               change (eqb (js a) (js b)) with v
           end;
    cbn [orb List.length]; lia.
Qed.

Lemma redeemBatch_inv (codes : list jsstring)
    (appleId password : jsstring) (s : State W) :
  redeemBatch_post codes s (redeemBatch env cfg codes appleId password s).
Proof.
  unfold redeemBatch.
  unfold bind at 1, log at 1. cbv beta iota.
  unfold bind at 1.
  match goal with
  | |- context [redeemLoop env cfg codes appleId password 0 ?n [] ?s1] =>
      pose proof (redeemLoop_inv appleId password codes 0 n [] s1) as Hloop;
      destruct (redeemLoop env cfg codes appleId password 0 n [] s1)
        as [[all|e|] s2]
  end;
    unfold redeemLoop_post in Hloop; cbn [fst snd app] in Hloop;
    try exact I; try contradiction.
  destruct Hloop as (rs & -> & Hl & Hm & Hf & (evs & Hc)).
  cbn [console] in Hc.
  unfold redeemBatch_post, bind, printRedemptionSummary, log, ret.
  cbn [fst snd world console browser results].
  rewrite (redeem_failed_count Hf).
  split; [exact Hl|]. split; [exact Hm|]. split.
  - exists ([LogRedeemBatchStart (Z.of_nat (List.length codes)) appleId]
            ++ evs ++ [LogSeparator]).
    rewrite Hc, <- Hl. rewrite <- !app_assoc. reflexivity.
  - rewrite <- Hl. apply redeem_status_counts. exact Hf.
Qed.

(** X12: [redeemBatch] returns or throws within the budget of the model.
    Whenever it returns, it returns one record for each code, in order,
    each with the mask of its code, and the last line of the console is
    the summary of the records returned: its total is the number of codes,
    its count of redeemed cards is the number of records with the status
    已兑换, its count of failures is the number of records with the status
    失败 plus the number with 兑换失败, its count of unknown is the number
    with 未知, and the three counts add up to the total. *)
Theorem redeemBatch_summary_adds_up (codes : list jsstring)
    (appleId password : jsstring) (s : State W) :
  match fst (redeemBatch env cfg codes appleId password s) with
  | Ok rs =>
      List.length rs = List.length codes
      /\ map r_code rs = map maskCode codes
      /\ (exists evs,
             console (snd (redeemBatch env cfg codes appleId password s)) =
               console s ++ evs
                 ++ [LogRedemptionSummary
                       (Z.of_nat (List.length codes))
                       (count_rstatus (js "已兑换") rs)
                       (count_rstatus (js "失败") rs
                        + count_rstatus (js "兑换失败") rs)
                       (count_rstatus (js "未知") rs)])
      /\ count_rstatus (js "已兑换") rs
         + (count_rstatus (js "失败") rs + count_rstatus (js "兑换失败") rs)
         + count_rstatus (js "未知") rs
         = Z.of_nat (List.length codes)
  | Throw _ => True
  | Exhausted => False
  end.
Proof. exact (redeemBatch_inv codes appleId password s). Qed.

End Redemption.

(** ** The retries of [redeemCard] *)

Section RedeemRetry.
Context {W : Type}.
Variable env : Env W.
Variable cfg : Config.

Lemma redeem_starts_app (l1 l2 : list LogEvent) :
  redeem_starts (l1 ++ l2) = (redeem_starts l1 + redeem_starts l2)%nat.
Proof.
  induction l1 as [|e l1 IH]; simpl; [reflexivity|].
  destruct e; simpl; rewrite ?IH; reflexivity.
Qed.

Lemma redeem_errors_app (l1 l2 : list LogEvent) :
  redeem_errors (l1 ++ l2) = redeem_errors l1 ++ redeem_errors l2.
Proof.
  induction l1 as [|e l1 IH]; simpl; [reflexivity|].
  destruct e; simpl; rewrite ?IH; reflexivity.
Qed.

Lemma redeem_quiet_none (evs : list LogEvent) :
  Forall redeem_quiet evs ->
  redeem_starts evs = 0%nat /\ redeem_errors evs = [].
Proof.
  induction 1 as [|e evs He _ IH]; simpl; [auto|].
  destruct e; simpl in He; try contradiction; exact IH.
Qed.

Lemma loginToApple_quiet (page : Page) (appleId password : jsstring) :
  runs redeem_quiet (fun _ => True)
       (loginToApple env page appleId password).
Proof. unfold loginToApple. checker_auto. Qed.

(** The [try] block of [redeemCard] prints the line of the redemption
    first, and neither another one nor a failure after it. *)
Lemma redeemCard_try_footprint (page : Page)
    (code_ appleId password : jsstring)
    (s : State W) (r : Res RedeemRecord) (s' : State W) :
  redeemCard_try env cfg page code_ appleId password s = (r, s') ->
  browser s' = browser s
  /\ exists evs,
       console s' = console s ++ LogRedeem (maskCode code_) :: evs
       /\ Forall redeem_quiet evs.
Proof.
  unfold redeemCard_try, checkIfLoginRequired. intros E.
  unfold bind at 1, log at 1 in E. cbv beta iota in E.
  match type of E with
  | ?m ?s1 = _ => assert (R : runs redeem_quiet (fun _ => True) m)
  end.
  { checker_auto. apply loginToApple_quiet. }
  destruct (R _ _ _ E) as (Hb & _ & (evs & Hc & Hf) & _).
  simpl in Hb, Hc. split; [exact Hb|].
  exists evs. rewrite Hc, <- app_assoc. auto.
Qed.

(** Opening and closing a page work. *)
Hypothesis newPage_works :
  forall b w, exists p w', newPage env b w = (inr p, w').
Hypothesis closePage_works :
  forall p w, exists w', closePage env p w = (inr tt, w').

Lemma redeem_catch_prefix {A} (K : M (W:=W) A) (ev : LogEvent)
    (page : Page) (prefix : jsstring) (s : State W) :
  exists s1,
    (log ev;;
     (if screenshotOnError cfg
      then try_catch (await (screenshot env page prefix))
                     (fun _ => log LogScreenshotFailed)
      else ret tt);;
     await (closePage env page);;
     K) s = K s1
    /\ browser s1 = browser s
    /\ exists evs,
         console s1 = console s ++ ev :: evs
         /\ Forall redeem_quiet evs.
Proof.
  unfold bind at 1, log at 1. cbv beta iota.
  unfold bind at 1.
  destruct (screenshotOnError cfg).
  - unfold try_catch, await at 1. cbn [world console browser results].
    destruct (screenshot env page prefix (world s)) as [[e|[]] w].
    + unfold log at 1. unfold bind at 1, await at 1.
      cbn [world console browser results].
      destruct (closePage_works page w) as (w' & ->).
      eexists; split; [reflexivity|]. simpl. split; auto.
      exists [LogScreenshotFailed]. rewrite <- app_assoc. simpl.
      split; auto. constructor; simpl; auto.
    + unfold bind at 1, await at 1.
      cbn [world console browser results].
      destruct (closePage_works page w) as (w' & ->).
      eexists; split; [reflexivity|]. simpl. split; auto.
      exists []. auto.
  - unfold ret at 1. unfold bind at 1, await at 1.
    cbn [world console browser results].
    destruct (closePage_works page (world s)) as (w' & ->).
    eexists; split; [reflexivity|]. simpl. split; auto.
    exists []. auto.
Qed.

Lemma redeemCard_rec_all_fail (code_ appleId password : jsstring) :
  (forall page s,
      exists e s', redeemCard_try env cfg page code_ appleId password s
                   = (Throw e, s')) ->
  forall (budget : nat) (attempt : Z) (s : State W) (b : Browser),
    browser s = Some b ->
    attempt <= retryAttempts cfg ->
    budget = Z.to_nat (retryAttempts cfg - attempt) ->
    exists msg now s' evs,
      redeemCard_rec env cfg budget code_ appleId password attempt s
        = (Ok (redeemErrorRecord code_ msg now), s')
      /\ console s' = console s ++ evs
      /\ redeem_starts evs = S budget
      /\ List.length (redeem_errors evs) = S budget
      /\ last (redeem_errors evs) [] = msg.
Proof.
  intros Hfail.
  induction budget as [|budget IH]; intros attempt s b Hb Hle Hbudget;
    destruct (@browser_newPage_ok W env newPage_works s b Hb)
      as (p & s1 & Ep & Hb1 & Hr1 & Hc1);
    cbn [redeemCard_rec]; unfold bind at 1; rewrite Ep;
    unfold try_catch at 1;
    destruct (Hfail p s1) as (e & s2 & Et); rewrite Et;
    destruct (redeemCard_try_footprint _ _ _ _ _ Et)
      as (Hb2 & (evs0 & Hc2 & Hq0));
    destruct (redeem_quiet_none Hq0) as (Ha0 & He0);
    match goal with
    | |- context [bind (log ?ev) (fun _ => bind ?sc (fun _ =>
                    bind (await (closePage env p)) (fun _ => ?K))) s2] =>
        destruct (redeem_catch_prefix K ev p
                    (js "screenshots/redeem_error_") s2)
          as (s3 & -> & Hb3 & (evs1 & Hc3 & Hq1))
    end;
    destruct (redeem_quiet_none Hq1) as (Ha1 & He1).
  - destruct (Z.ltb_spec attempt (retryAttempts cfg)); [lia|].
    unfold bind, perform. destruct (toISOString env (world s3)) as [now w].
    exists (error_message e), now. do 2 eexists; split; [reflexivity|].
    cbn [console]. rewrite Hc3, Hc2, Hc1, <- app_assoc. split; [reflexivity|].
    cbn [app redeem_starts redeem_errors].
    rewrite redeem_starts_app, redeem_errors_app.
    cbn [redeem_starts redeem_errors]. rewrite Ha0, He0, Ha1, He1. auto.
  - destruct (Z.ltb_spec attempt (retryAttempts cfg)); [|lia].
    unfold bind at 1, log at 1. cbv beta iota.
    unfold bind at 1, delay, perform at 1. cbv beta iota.
    cbn [world console browser results].
    match goal with
    | |- context [redeemCard_rec env cfg budget code_ appleId password
                    (attempt + 1) ?s4] =>
        destruct (IH (attempt + 1) s4 b)
          as (msg & now & s' & evs & -> & Hc & Ha & Hl & Hm)
    end.
    + simpl. congruence.
    + lia.
    + lia.
    + cbn [console] in Hc.
      exists msg, now. do 2 eexists; split; [reflexivity|].
      rewrite Hc, Hc3, Hc2, Hc1. rewrite <- !app_assoc.
      split; [reflexivity|].
      cbn [app redeem_starts redeem_errors].
      rewrite redeem_starts_app, redeem_errors_app.
      cbn [app redeem_starts redeem_errors].
      rewrite redeem_starts_app, redeem_errors_app.
      cbn [app redeem_starts redeem_errors].
      rewrite Ha0, He0, Ha1, He1, Ha. cbn [app List.length plus].
      rewrite Hl. repeat split; auto.
      rewrite last_cons_nonempty; [exact Hm|].
      intros Hnil. rewrite Hnil in Hl. discriminate.
Qed.

(** X13: [redeemCard] retries like [checkBalance]: with [retryAttempts = N >=
    1], a page that opens and closes and a [try] block that throws at every
    attempt, it starts exactly [N] redemptions, prints one failure for
    each, and returns the record with status 兑换失败 and the message of the
    last failure. *)
Theorem redeemCard_retry_bound (code_ appleId password : jsstring)
    (s : State W) (b : Browser) :
  1 <= retryAttempts cfg ->
  browser s = Some b ->
  (forall page s0,
      exists e s', redeemCard_try env cfg page code_ appleId password s0
                   = (Throw e, s')) ->
  exists msg now s' evs,
    redeemCard env cfg code_ appleId password 1 s
      = (Ok (redeemErrorRecord code_ msg now), s')
    /\ console s' = console s ++ evs
    /\ redeem_starts evs = Z.to_nat (retryAttempts cfg)
    /\ List.length (redeem_errors evs) = Z.to_nat (retryAttempts cfg)
    /\ last (redeem_errors evs) [] = msg.
Proof.
  intros HN Hb Hfail. unfold redeemCard.
  destruct (@redeemCard_rec_all_fail code_ appleId password Hfail
              (Z.to_nat (retryAttempts cfg - 1)) 1 s b Hb HN eq_refl)
    as (msg & now & s' & evs & E & Hc & Ha & Hl & Hm).
  exists msg, now, s', evs. split; [exact E|]. split; [exact Hc|].
  replace (Z.to_nat (retryAttempts cfg))
    with (S (Z.to_nat (retryAttempts cfg - 1))) by lia.
  auto.
Qed.

End RedeemRetry.

Lemma redeemCard_retry_bound_witness :
  exists msg now s' evs,
    redeemCard (Scripted.env Scripted.site_down) (Scripted.config "cn" 3)
      Scripted.card1 (js "your.email@example.com") (js "your_password") 1
      Scripted.started
      = (Ok (redeemErrorRecord Scripted.card1 msg now), s')
    /\ console s' = console Scripted.started ++ evs
    /\ redeem_starts evs = 3%nat
    /\ List.length (redeem_errors evs) = 3%nat
    /\ last (redeem_errors evs) [] = msg.
Proof.
  apply (@redeemCard_retry_bound Scripted.World
           (Scripted.env Scripted.site_down) (Scripted.config "cn" 3)
           (scripted_newPage_works Scripted.site_down eq_refl)
           (scripted_closePage_works Scripted.site_down eq_refl)
           Scripted.card1 (js "your.email@example.com")
           (js "your_password") Scripted.started 0%nat).
  - vm_compute. discriminate.
  - reflexivity.
  - intros p s0. do 2 eexists. reflexivity.
Defined.

(** ** The files [saveResults] writes *)

Section SavedFiles.
Context {W : Type}.
Variable env : Env W.

Lemma replace_absent (p r s : jsstring) :
  occurs p s = false -> replace p r s = s.
Proof.
  induction s as [|c t IH]; cbn [occurs replace]; intros H;
    apply orb_false_iff in H; destruct H as (H1 & H2); rewrite H1.
  - reflexivity.
  - rewrite (IH H2). reflexivity.
Qed.

Lemma replace_after_stem (stem : jsstring) :
  ~ In 46%N stem ->
  replace (js ".json") (js ".csv") (stem ++ js ".json") = stem ++ js ".csv".
Proof.
  induction stem as [|c stem IH]; intros Hdot.
  - reflexivity.
  - rewrite <- app_comm_cons. cbn [replace].
    replace (startsWith (js ".json") (c :: stem ++ js ".json")) with false.
    + rewrite IH; [reflexivity|]. intros H. apply Hdot. right. exact H.
    + change (js ".json") with [46; 106; 115; 111; 110]%N at 1.
      cbn [startsWith].
      destruct (N.eqb_spec 46 c) as [<-|_]; [|reflexivity].
      exfalso. apply Hdot. left. reflexivity.
Qed.

(** What [saveResults] does when both writes succeed. *)
Lemma saveResults_run (filename : jsstring) (s : State W) (w1 w2 : W) :
  writeFileSync env filename
    (JsonDocument (results_document (fst (toISOString env (world s)))
                     (results s)))
    (snd (toISOString env (world s))) = (inr tt, w1) ->
  writeFileSync env (replace (js ".json") (js ".csv") filename)
    (Text (csv_text (results s))) w1 = (inr tt, w2) ->
  saveResults env filename s
    = (Ok tt,
       moved s w2
         [LogSaved filename;
          LogCsvSaved (replace (js ".json") (js ".csv") filename)]).
Proof.
  intros H1 H2. unfold saveResults.
  unfold bind at 1, perform at 1.
  destruct (toISOString env (world s)) as [now w0]. cbn [fst snd] in H1.
  unfold bind at 1, get_results at 1. cbv beta iota.
  cbn [world console browser results].
  unfold bind at 1, await at 1. cbn [world console browser results].
  unfold results_document in H1. rewrite H1.
  unfold bind at 1, log at 1. cbv beta iota.
  cbn [world console browser results].
  unfold saveCSV, bind at 1, get_results at 1. cbv beta iota.
  cbn [world console browser results].
  unfold bind at 1, await at 1. cbn [world console browser results].
  unfold csv_text in H2. rewrite H2.
  unfold log, moved. cbn [world console browser results].
  rewrite <- app_assoc. reflexivity.
Qed.

(** X14: When the file name does not hold ".json", the CSV text is written
    under the very name of the JSON document, after it: the two writes
    of [saveResults] go to the same file. *)
Theorem saveResults_same_file_without_json (filename : jsstring)
    (s : State W) (w1 w2 : W) :
  occurs (js ".json") filename = false ->
  writeFileSync env filename
    (JsonDocument (results_document (fst (toISOString env (world s)))
                     (results s)))
    (snd (toISOString env (world s))) = (inr tt, w1) ->
  writeFileSync env filename (Text (csv_text (results s))) w1
    = (inr tt, w2) ->
  saveResults env filename s
    = (Ok tt, moved s w2 [LogSaved filename; LogCsvSaved filename]).
Proof.
  intros Hno H1 H2.
  pose proof (replace_absent (js ".json") (js ".csv") filename Hno) as E.
  rewrite (@saveResults_run filename s w1 w2 H1); rewrite E; auto.
Qed.

(** X15: When the file name is a stem without a dot followed by ".json", the
    CSV text goes to the stem followed by ".csv". *)
Theorem saveResults_csv_beside_json (stem : jsstring) (s : State W)
    (w1 w2 : W) :
  ~ In 46%N stem ->
  writeFileSync env (stem ++ js ".json")
    (JsonDocument (results_document (fst (toISOString env (world s)))
                     (results s)))
    (snd (toISOString env (world s))) = (inr tt, w1) ->
  writeFileSync env (stem ++ js ".csv") (Text (csv_text (results s))) w1
    = (inr tt, w2) ->
  saveResults env (stem ++ js ".json") s
    = (Ok tt,
       moved s w2
         [LogSaved (stem ++ js ".json"); LogCsvSaved (stem ++ js ".csv")]).
Proof.
  intros Hdot H1 H2.
  pose proof (replace_after_stem stem Hdot) as E.
  rewrite (@saveResults_run (stem ++ js ".json") s w1 w2 H1); rewrite E;
    auto.
Qed.

End SavedFiles.

Lemma saveResults_same_file_without_json_witness :
  saveResults (Scripted.env Scripted.already) (js "results")
    Scripted.started
  = (Ok tt,
     moved Scripted.started
       {| Scripted.opened := 0;
          Scripted.files :=
            [(js "results",
              JsonDocument (results_document Scripted.clock []));
             (js "results", Text (csv_text []))] |}
       [LogSaved (js "results"); LogCsvSaved (js "results")]).
Proof.
  apply (@saveResults_same_file_without_json Scripted.World
           (Scripted.env Scripted.already) (js "results") Scripted.started
           {| Scripted.opened := 0;
              Scripted.files :=
                [(js "results",
                  JsonDocument (results_document Scripted.clock []))] |});
    reflexivity.
Defined.

Lemma saveResults_csv_beside_json_witness :
  saveResults (Scripted.env Scripted.already) (js "out.json")
    Scripted.started
  = (Ok tt,
     moved Scripted.started
       {| Scripted.opened := 0;
          Scripted.files :=
            [(js "out.json",
              JsonDocument (results_document Scripted.clock []));
             (js "out.csv", Text (csv_text []))] |}
       [LogSaved (js "out.json"); LogCsvSaved (js "out.csv")]).
Proof.
  apply (@saveResults_csv_beside_json Scripted.World
           (Scripted.env Scripted.already) (js "out") Scripted.started
           {| Scripted.opened := 0;
              Scripted.files :=
                [(js "out.json",
                  JsonDocument (results_document Scripted.clock []))] |}).
  - vm_compute. intros [H|[H|[H|[]]]]; discriminate.
  - reflexivity.
  - reflexivity.
Defined.

(** ** The lines of the CSV file *)

Section CsvLines.

Lemma line_feeds_app (s t : jsstring) :
  line_feeds (s ++ t) = (line_feeds s + line_feeds t)%nat.
Proof. unfold line_feeds. rewrite filter_app, length_app. reflexivity. Qed.

Lemma line_feeds_none (s : jsstring) :
  ~ In 10%N s -> line_feeds s = 0%nat.
Proof.
  unfold line_feeds. induction s as [|c s IH]; intros H; [reflexivity|].
  cbn [filter]. destruct (N.eqb_spec c 10) as [->|_].
  - exfalso. apply H. left. reflexivity.
  - apply IH. intros Hin. apply H. right. exact Hin.
Qed.

Lemma csv_row_one_line (r : BalanceRecord) :
  Forall (fun f => ~ In 10%N f) (row_fields r) ->
  line_feeds (csv_row r) = 1%nat.
Proof.
  unfold row_fields. intros H.
  repeat match goal with
         | H : Forall _ (_ :: _) |- _ => inversion H; subst; clear H
         end.
  unfold csv_row. rewrite !line_feeds_app.
  repeat match goal with
         | H : ~ In 10%N ?f |- _ =>
             rewrite (line_feeds_none f H); clear H
         end.
  reflexivity.
Qed.

End CsvLines.

(** X16: When no field of the records holds a line feed, the text of the CSV
    file has one line for the header and one line for each record. *)
Theorem csv_one_line_per_record (rs : list BalanceRecord) :
  Forall (fun r => Forall (fun f => ~ In 10%N f) (row_fields r)) rs ->
  line_feeds (csv_text rs) = S (List.length rs).
Proof.
  unfold csv_text. intros H. rewrite csv_rows, line_feeds_app.
  change (line_feeds csv_header) with 1%nat.
  induction H as [|r rs Hr _ IH]; [reflexivity|].
  cbn [map List.concat List.length]. rewrite line_feeds_app.
  rewrite (csv_row_one_line Hr). simpl in IH |- *. lia.
Qed.

Lemma csv_one_line_per_record_witness :
  line_feeds
    (csv_text
       [parseBalanceResult Scripted.clock (js "¥88.00 可用余额") []
          Scripted.card1;
        errorRecord Scripted.card2 (js "net::ERR_CONNECTION_REFUSED")
          Scripted.clock])
  = 3%nat.
Proof.
  apply (@csv_one_line_per_record
           [parseBalanceResult Scripted.clock (js "¥88.00 可用余额") []
              Scripted.card1;
            errorRecord Scripted.card2 (js "net::ERR_CONNECTION_REFUSED")
              Scripted.clock]).
  repeat constructor; vm_compute;
    repeat (let H := fresh in intros [H|H]; [discriminate H|revert H]);
    intros [].
Defined.

(** ** Logging in before a redemption *)

Section Login.
Context {W : Type}.
Variable env : Env W.

Lemma checkIfLoginRequired_loop_spec (page : Page)
    (selectors : list jsstring) :
  forall s : State W,
    exists w',
      checkIfLoginRequired_loop env page selectors s
      = (Ok match misses env page selectors (world s) with
            | Some _ => false
            | None => true
            end,
         moved s w' []).
Proof.
  induction selectors as [|sel rest IH]; intros s.
  - exists (world s). cbn [checkIfLoginRequired_loop misses].
    rewrite moved_nil. reflexivity.
  - cbn [checkIfLoginRequired_loop misses].
    unfold bind at 1, try_catch at 1, bind at 1, await at 1.
    destruct (query env page sel (world s)) as [[e|[el|]] w].
    + unfold ret at 1.
      destruct (IH {| world := w; console := console s;
                      browser := browser s; results := results s |})
        as (w' & ->).
      exists w'. reflexivity.
    + unfold ret. exists w. unfold moved. rewrite app_nil_r. reflexivity.
    + unfold ret at 1.
      destruct (IH {| world := w; console := console s;
                      browser := browser s; results := results s |})
        as (w' & ->).
      exists w'. reflexivity.
Qed.

(** X17: [checkIfLoginRequired] never throws and prints nothing; it answers
    true exactly when one of the five indicators resolves to an element,
    a probe that throws counting as an indicator that is absent. *)
Theorem checkIfLoginRequired_answers (page : Page) (s : State W) :
  exists w',
    checkIfLoginRequired env page s
    = (Ok match misses env page loginIndicators (world s) with
          | Some _ => false
          | None => true
          end,
       moved s w' []).
Proof. apply checkIfLoginRequired_loop_spec. Qed.

Lemma firstElement_all_null (page : Page) (selectors : list jsstring) :
  forall (s : State W) (w1 : W),
    all_null env page selectors (world s) = Some w1 ->
    firstElement env page selectors s = (Ok None, moved s w1 []).
Proof.
  induction selectors as [|sel rest IH]; intros s w1 H.
  - cbn [all_null] in H. inversion H; subst. rewrite moved_nil. reflexivity.
  - cbn [all_null] in H. cbn [firstElement].
    unfold bind at 1, await at 1.
    destruct (query env page sel (world s)) as [[e|[el|]] w];
      try discriminate.
    rewrite (IH {| world := w; console := console s;
                   browser := browser s; results := results s |} w1 H).
    reflexivity.
Qed.

(** X18: When none of the three candidates of the e-mail field is on the
    page, [loginToApple] prints the line of the login, then the failure,
    and throws the error of the missing e-mail field: nothing is typed. *)
Theorem loginToApple_without_email_field (page : Page)
    (appleId password : jsstring) (s : State W) (w1 : W) :
  all_null env page emailSelectors (world s) = Some w1 ->
  loginToApple env page appleId password s
  = (Throw (mkError (js "无法找到Apple ID邮箱输入框")),
     moved s w1
       [LogLogin appleId; LogLoginFailed (js "无法找到Apple ID邮箱输入框")]).
Proof.
  intros H. unfold loginToApple, try_catch.
  unfold bind at 1, log at 1. cbv beta iota.
  unfold bind at 1.
  rewrite (@firstElement_all_null page emailSelectors
             {| world := world s; console := console s ++ [LogLogin appleId];
                browser := browser s; results := results s |} w1 H).
  unfold throw at 1, bind, log, throw, moved.
  cbn [world console browser results error_message].
  rewrite app_nil_r, <- app_assoc. reflexivity.
Qed.

Lemma rethrown_is_logged {A} (body : M (W:=W) A) (line : Error -> LogEvent)
    (s : State W) (e : Error) (s' : State W) :
  runs (fun _ => True) (fun _ => True) body ->
  try_catch body (fun error => log (line error);; throw error) s
    = (Throw e, s') ->
  exists evs, console s' = console s ++ evs ++ [line e].
Proof.
  intros Hruns. unfold try_catch.
  destruct (body s) as [[a|e0|] s1] eqn:E; try discriminate.
  unfold bind, log, throw. intros H. inversion H; subst. clear H.
  destruct (Hruns s _ _ E) as (_ & _ & (evs & Hc & _) & _).
  exists evs. cbn [console]. rewrite Hc, <- app_assoc. reflexivity.
Qed.

(** X19: Whatever makes [loginToApple] throw, the last line it printed is the
    failure of the login with the message of the error it throws, and
    [this.browser] is as before. *)
Theorem loginToApple_logs_what_it_throws (page : Page)
    (appleId password : jsstring) (s : State W) (e : Error)
    (s' : State W) :
  loginToApple env page appleId password s = (Throw e, s') ->
  browser s' = browser s
  /\ exists evs,
       console s' = console s ++ evs ++ [LogLoginFailed (error_message e)].
Proof.
  intros H. split.
  - exact (proj1 (@loginToApple_runs W env page appleId password s _ _ H)).
  - unfold loginToApple in H.
    match type of H with
    | try_catch ?body _ _ = _ =>
        apply (@rethrown_is_logged unit body
                 (fun error => LogLoginFailed (error_message error)) s e s');
          [|exact H]
    end.
    checker_auto.
Qed.

End Login.

Lemma loginToApple_without_email_field_witness :
  loginToApple (Scripted.env Scripted.no_input) 0%nat
    (js "user@example.com") (js "secret") Scripted.started
  = (Throw (mkError (js "无法找到Apple ID邮箱输入框")),
     moved Scripted.started (world Scripted.started)
       [LogLogin (js "user@example.com");
        LogLoginFailed (js "无法找到Apple ID邮箱输入框")]).
Proof.
  apply (@loginToApple_without_email_field Scripted.World
           (Scripted.env Scripted.no_input) 0%nat (js "user@example.com")
           (js "secret") Scripted.started (world Scripted.started)).
  reflexivity.
Defined.

Lemma loginToApple_logs_what_it_throws_witness :
  browser
    (snd (loginToApple (Scripted.env Scripted.no_input) 0%nat
            (js "user@example.com") (js "secret") Scripted.started))
  = browser Scripted.started
  /\ exists evs,
       console
         (snd (loginToApple (Scripted.env Scripted.no_input) 0%nat
                 (js "user@example.com") (js "secret") Scripted.started))
       = console Scripted.started ++ evs
         ++ [LogLoginFailed
               (error_message (mkError (js "无法找到Apple ID邮箱输入框")))].
Proof.
  apply (@loginToApple_logs_what_it_throws Scripted.World
           (Scripted.env Scripted.no_input) 0%nat (js "user@example.com")
           (js "secret") Scripted.started
           (mkError (js "无法找到Apple ID邮箱输入框"))).
  vm_compute. reflexivity.
Defined.
